(** * hr-crawler-backend: crawl, normalise, deduplicate, query, alert

    A shallow embedding of [server.js] (both server variants that the
    repository carries) and of the schema of [db.js], with the properties
    of the persistence gate, the page extractors, the relative-date
    normalisation and the HTTP routes.

    Conventions.
    - JavaScript strings are modelled by [string] (sequences of bytes);
      the character classes of [trim], [\s] and [toLowerCase] are the
      ASCII ones, so that the model is that of the code on ASCII text.
    - [page] and [limit] of GET /api/jobs are modelled by the integers
      that their texts denote; the route pastes the text of [limit]
      into its statement, and a request whose [limit] or [page] is not
      the text of an integer is outside the model.
    - JavaScript numbers that hold time values and counts are modelled by
      [Z]: every quantity the code computes on them is an integer, and the
      model is exact as long as magnitudes stay below 2^53.
    - A value that may be [undefined] is an [option]; [NaN] and an invalid
      [Date] are [None].
    - The collaborators that the source only calls (PostgreSQL, the DOM of
      the rendered page, the mail transport, the browser) are modelled by
      explicit state, by the view the code takes of them, or by an outcome
      handed in as an argument. *)

From Stdlib Require Import ZArith Lia Bool List Ascii String.
From Stdlib Require Import Sorting.Sorted Sorting.Permutation Sorting.Mergesort.
From Stdlib Require Import Orders.
Import ListNotations.

Set Implicit Arguments.

Local Open Scope string_scope.
Local Open Scope Z_scope.

(* ================================================================== *)
(** ** JavaScript string primitives used by the source                *)
(* ================================================================== *)

Module JsString.

Definition code (c : ascii) : nat := nat_of_ascii c.

(** [WhiteSpace] and [LineTerminator] of ECMAScript, ASCII part:
    TAB, LF, VT, FF, CR and SPACE. *)
Definition isWhite (c : ascii) : bool :=
  let n := code c in
  ((9 <=? n)%nat && (n <=? 13)%nat) || (n =? 32)%nat.

(** [\d] of a regular expression without the unicode flag. *)
Definition isDigit (c : ascii) : bool :=
  let n := code c in (48 <=? n)%nat && (n <=? 57)%nat.

Definition isUpper (c : ascii) : bool :=
  let n := code c in (65 <=? n)%nat && (n <=? 90)%nat.

Definition lowerChar (c : ascii) : ascii :=
  if isUpper c then ascii_of_nat (code c + 32) else c.

(** [String.prototype.toLowerCase]. *)
Fixpoint toLowerCase (s : string) : string :=
  match s with
  | EmptyString => EmptyString
  | String c r => String (lowerChar c) (toLowerCase r)
  end.

Fixpoint trimStart (s : string) : string :=
  match s with
  | EmptyString => EmptyString
  | String c r => if isWhite c then trimStart r else s
  end.

(** [trimEnd] keeps a character when it is not white space or when
    something survives to its right. *)
Fixpoint trimEnd (s : string) : string :=
  match s with
  | EmptyString => EmptyString
  | String c r =>
      match trimEnd r with
      | EmptyString => if isWhite c then EmptyString else String c EmptyString
      | r' => String c r'
      end
  end.

(** [String.prototype.trim]. *)
Definition trim (s : string) : string := trimEnd (trimStart s).

(** [hay.includes(needle)]. *)
Fixpoint includes (needle hay : string) : bool :=
  prefix needle hay ||
  match hay with
  | EmptyString => false
  | String _ r => includes needle r
  end.

(** Longest prefix whose characters satisfy [p], and what follows it. *)
Fixpoint span (p : ascii -> bool) (s : string) : string * string :=
  match s with
  | EmptyString => (EmptyString, EmptyString)
  | String c r =>
      if p c then let (a, b) := span p r in (String c a, b)
      else (EmptyString, s)
  end.

Definition digitValue (c : ascii) : Z := Z.of_nat (code c) - 48.

(** Value of a string of decimal digits, most significant first. *)
Fixpoint decimalFrom (acc : Z) (s : string) : Z :=
  match s with
  | EmptyString => acc
  | String c r => decimalFrom (10 * acc + digitValue c) r
  end.

Definition decimal (s : string) : Z := decimalFrom 0 s.

Definition hexValue (c : ascii) : option Z :=
  let n := code c in
  if isDigit c then Some (Z.of_nat n - 48)
  else if (97 <=? n)%nat && (n <=? 102)%nat then Some (Z.of_nat n - 87)
  else if (65 <=? n)%nat && (n <=? 70)%nat then Some (Z.of_nat n - 55)
  else None.

(** Longest prefix of hexadecimal digits: its value and its length. *)
Fixpoint hexFrom (acc : Z) (len : nat) (s : string) : Z * nat :=
  match s with
  | EmptyString => (acc, len)
  | String c r =>
      match hexValue c with
      | Some v => hexFrom (16 * acc + v) (S len) r
      | None => (acc, len)
      end
  end.

(** [parseInt(s)] with no radix: leading white space is skipped, a sign
    is read, a [0x]/[0X] prefix selects radix 16, and the longest run of
    digits is converted; [None] is [NaN]. *)
Definition parseIntUnsigned (s : string) : option Z :=
  match s with
  | String "0" (String x r) =>
      if (Ascii.eqb x "x" || Ascii.eqb x "X")%bool then
        match hexFrom 0 0 r with
        | (_, O) => None
        | (v, _) => Some v
        end
      else
        let (ds, _) := span isDigit s in Some (decimal ds)
  | _ =>
      match span isDigit s with
      | (EmptyString, _) => None
      | (ds, _) => Some (decimal ds)
      end
  end.

Definition parseInt (s : string) : option Z :=
  match trimStart s with
  | String "-" r => option_map Z.opp (parseIntUnsigned r)
  | String "+" r => parseIntUnsigned r
  | r => parseIntUnsigned r
  end.

(** [s.split(sep)[0]] for a one-character separator: what precedes the
    first occurrence of [sep], the whole string when there is none. *)
Fixpoint splitHead (sep : ascii) (s : string) : string :=
  match s with
  | EmptyString => EmptyString
  | String c r => if Ascii.eqb c sep then EmptyString else String c (splitHead sep r)
  end.

(** [s.replace(/a1|a2|.../g, '')]: at every position the alternatives
    are tried in order and the first that matches is deleted.  [skip]
    counts the characters of a match that remain to be dropped. *)
Fixpoint firstPrefix (alts : list string) (s : string) : option nat :=
  match alts with
  | [] => None
  | a :: rest =>
      if prefix a s then Some (String.length a)
      else firstPrefix rest s
  end.

Fixpoint removeAllFrom (alts : list string) (skip : nat) (s : string) : string :=
  match s with
  | EmptyString => EmptyString
  | String c r =>
      match skip with
      | S k => removeAllFrom alts k r
      | O =>
          match firstPrefix alts s with
          | Some (S k) => removeAllFrom alts k r
          | _ => String c (removeAllFrom alts 0 r)
          end
      end
  end.

Definition removeAll (alts : list string) (s : string) : string :=
  removeAllFrom alts 0 s.

(** One attempt of [/(\d+)\s+unit/] at the start of [s]: the greedy
    digit run, at least one white-space character, then [unit]; the
    result is capture group 1.  Backtracking into a shorter digit or
    white-space run cannot succeed, since the character that follows a
    shortened run is again a digit or white space. *)
Definition matchCountAt (unit s : string) : option string :=
  match span isDigit s with
  | (EmptyString, _) => None
  | (ds, r) =>
      match span isWhite r with
      | (EmptyString, _) => None
      | (_, r') => if prefix unit r' then Some ds else None
      end
  end.

(** [s.match(/(\d+)\s+unit/)]: the leftmost position where the attempt
    succeeds; [None] is the [null] of a failed match. *)
Fixpoint matchCount (unit s : string) : option string :=
  match matchCountAt unit s with
  | Some ds => Some ds
  | None =>
      match s with
      | EmptyString => None
      | String _ r => matchCount unit r
      end
  end.

(** Decimal rendering of a natural number, zero-padded to [width]
    digits ([String(n).padStart(width, '0')]). *)
Definition digitChar (d : Z) : ascii := ascii_of_nat (Z.to_nat (48 + d mod 10)).

Fixpoint digitsFrom (fuel : nat) (n : Z) (acc : string) : string :=
  match fuel with
  | O => acc
  | S k =>
      let acc' := String (digitChar n) acc in
      if n / 10 =? 0 then acc' else digitsFrom k (n / 10) acc'
  end.

Definition natToString (n : Z) : string :=
  digitsFrom (S (Z.to_nat (Z.log2 n))) n EmptyString.

Fixpoint zeros (k : nat) : string :=
  match k with O => EmptyString | S j => String "0" (zeros j) end.

Definition padZero (width : nat) (n : Z) : string :=
  let s := natToString n in
  zeros (width - String.length s) ++ s.

End JsString.

(* ================================================================== *)
(** ** The [Date] object (ECMA-262, Date objects)                      *)
(* ================================================================== *)

(** A time value is a number of milliseconds since the epoch.  The zone
    of the host enters through its local time zone adjustment, which may
    differ from one instant to another (daylight saving). *)

Module JsDate.

Definition msPerDay : Z := 86400000.
Definition msPerHour : Z := 3600000.
Definition msPerMinute : Z := 60000.
Definition msPerSecond : Z := 1000.
Definition maxTime : Z := 8640000000000000.

Definition Day (t : Z) : Z := t / msPerDay.
Definition TimeWithinDay (t : Z) : Z := t mod msPerDay.

Definition DayFromYear (y : Z) : Z :=
  365 * (y - 1970) + (y - 1969) / 4 - (y - 1901) / 100 + (y - 1601) / 400.

Definition DaysInYear (y : Z) : Z :=
  if negb (y mod 4 =? 0) then 365
  else if negb (y mod 100 =? 0) then 366
  else if negb (y mod 400 =? 0) then 365
  else 366.

(** The largest [y] with [DayFromYear y <= Day t]: an estimate from the
    mean length of a year, corrected by at most one. *)
Definition YearFromDay (d : Z) : Z :=
  let y0 := 1970 + (d * 400) / 146097 in
  if DayFromYear (y0 + 1) <=? d then y0 + 1
  else if DayFromYear y0 <=? d then y0
  else y0 - 1.

Definition YearFromTime (t : Z) : Z := YearFromDay (Day t).

Definition InLeapYear (t : Z) : Z :=
  if DaysInYear (YearFromTime t) =? 366 then 1 else 0.

Definition DayWithinYear (t : Z) : Z := Day t - DayFromYear (YearFromTime t).

(** Day number within the year on which month [m] (0..11) starts. *)
Definition monthStart (leap m : Z) : Z :=
  match m with
  | 0 => 0
  | 1 => 31
  | 2 => 59 + leap
  | 3 => 90 + leap
  | 4 => 120 + leap
  | 5 => 151 + leap
  | 6 => 181 + leap
  | 7 => 212 + leap
  | 8 => 243 + leap
  | 9 => 273 + leap
  | 10 => 304 + leap
  | _ => 334 + leap
  end.

Definition monthOfDay (leap d : Z) : Z :=
  if d <? 31 then 0
  else if d <? 59 + leap then 1
  else if d <? 90 + leap then 2
  else if d <? 120 + leap then 3
  else if d <? 151 + leap then 4
  else if d <? 181 + leap then 5
  else if d <? 212 + leap then 6
  else if d <? 243 + leap then 7
  else if d <? 273 + leap then 8
  else if d <? 304 + leap then 9
  else if d <? 334 + leap then 10
  else 11.

Definition MonthFromTime (t : Z) : Z := monthOfDay (InLeapYear t) (DayWithinYear t).

Definition DateFromTime (t : Z) : Z :=
  DayWithinYear t - monthStart (InLeapYear t) (MonthFromTime t) + 1.

Definition HourFromTime (t : Z) : Z := (t / msPerHour) mod 24.
Definition MinFromTime (t : Z) : Z := (t / msPerMinute) mod 60.
Definition SecFromTime (t : Z) : Z := (t / msPerSecond) mod 60.
Definition msFromTime (t : Z) : Z := t mod msPerSecond.

Definition MakeTime (hour min sec ms : Z) : Z :=
  hour * msPerHour + min * msPerMinute + sec * msPerSecond + ms.

(** [MakeDay]: the day number of the first of month [month mod 12] of
    year [year + floor(month / 12)], moved by [date - 1] days. *)
Definition MakeDay (year month date : Z) : Z :=
  let ym := year + month / 12 in
  let mn := month mod 12 in
  let leap := if DaysInYear ym =? 366 then 1 else 0 in
  DayFromYear ym + monthStart leap mn + date - 1.

Definition MakeDate (day time : Z) : Z := day * msPerDay + time.

(** [TimeClip]: [None] is [NaN]. *)
Definition TimeClip (t : Z) : option Z :=
  if Z.abs t <=? maxTime then Some t else None.

Section Zone.

(** [LocalTZA(t, isUTC)] of the host: the offset of local time from UTC
    in milliseconds, at the instant [t] when [isUTC] is [true] and at
    the local time value [t] otherwise.  It changes where the clocks of
    the zone are put forward or back. *)
Variable tza : Z -> bool -> Z.

Definition LocalTime (t : Z) : Z := t + tza t true.
Definition UTC (t : Z) : Z := t - tza t false.

(** The instant whose local time lies [delta] milliseconds before the
    local time of the instant [t]. *)
Definition localBack (t delta : Z) : Z := UTC (LocalTime t - delta).

(** The offset in force at the local time [delta] milliseconds back is
    the one in force at the instant [t]: no clock change lies between
    the two. *)
Definition steady (t delta : Z) : Prop := tza (LocalTime t - delta) false = tza t true.

(** A [Date] object is its [[DateValue]]. *)
Definition Date := option Z.

Definition getDate (d : Date) : option Z := option_map (fun t => DateFromTime (LocalTime t)) d.
Definition getMonth (d : Date) : option Z := option_map (fun t => MonthFromTime (LocalTime t)) d.
Definition getHours (d : Date) : option Z := option_map (fun t => HourFromTime (LocalTime t)) d.
Definition getMinutes (d : Date) : option Z := option_map (fun t => MinFromTime (LocalTime t)) d.

(** The setters take the argument already converted to a number;
    [None] is [NaN], which makes the date invalid. *)
Definition setDate (d : Date) (dt : option Z) : Date :=
  match d, dt with
  | Some tv, Some dt =>
      let t := LocalTime tv in
      TimeClip (UTC (MakeDate (MakeDay (YearFromTime t) (MonthFromTime t) dt)
                              (TimeWithinDay t)))
  | _, _ => None
  end.

Definition setMonth (d : Date) (m : option Z) : Date :=
  match d, m with
  | Some tv, Some m =>
      let t := LocalTime tv in
      TimeClip (UTC (MakeDate (MakeDay (YearFromTime t) m (DateFromTime t))
                              (TimeWithinDay t)))
  | _, _ => None
  end.

Definition setHours (d : Date) (h : option Z) : Date :=
  match d, h with
  | Some tv, Some h =>
      let t := LocalTime tv in
      TimeClip (UTC (MakeDate (Day t)
                              (MakeTime h (MinFromTime t) (SecFromTime t) (msFromTime t))))
  | _, _ => None
  end.

Definition setMinutes (d : Date) (m : option Z) : Date :=
  match d, m with
  | Some tv, Some m =>
      let t := LocalTime tv in
      TimeClip (UTC (MakeDate (Day t)
                              (MakeTime (HourFromTime t) m (SecFromTime t) (msFromTime t))))
  | _, _ => None
  end.
End Zone.

(** A zone without clock changes. *)
Definition fixedZone (offset : Z) : Z -> bool -> Z := fun _ _ => offset.

(** A zone two hours ahead of UTC until the instant [change] and one
    hour ahead from then on: the clocks are put back by an hour.  A
    local time of the hour that occurs twice is read with the offset
    before the change. *)
Definition clocksPutBack (change : Z) : Z -> bool -> Z :=
  fun t isUTC =>
    if isUTC then (if t <? change then 2 * msPerHour else msPerHour)
    else (if t <? change + 2 * msPerHour then 2 * msPerHour else msPerHour).

(** The year of [toISOString]: four digits between 0 and 9999, a sign
    and six digits outside. *)
Definition isoYear (y : Z) : string :=
  if (0 <=? y) && (y <=? 9999) then JsString.padZero 4 y
  else if y <? 0 then "-" ++ JsString.padZero 6 (- y)
  else "+" ++ JsString.padZero 6 y.

(** The text of [toISOString] for a valid time value (UTC fields). *)
Definition isoText (t : Z) : string :=
  isoYear (YearFromTime t) ++ "-" ++ JsString.padZero 2 (MonthFromTime t + 1)
    ++ "-" ++ JsString.padZero 2 (DateFromTime t)
    ++ "T" ++ JsString.padZero 2 (HourFromTime t)
    ++ ":" ++ JsString.padZero 2 (MinFromTime t)
    ++ ":" ++ JsString.padZero 2 (SecFromTime t)
    ++ "." ++ JsString.padZero 3 (msFromTime t) ++ "Z".

(** [toISOString] throws a [RangeError] on an invalid date: [None]. *)
Definition toISOString (d : option Z) : option string := option_map isoText d.

(** [toISOString().split('T')[0]] on a valid time value. *)
Definition isoDay (t : Z) : string := JsString.splitHead "T" (isoText t).

End JsDate.

(* ================================================================== *)
(** ** Data model                                                      *)
(* ================================================================== *)

(** A thrown JavaScript exception: the name of its class and its
    message. *)
Record JsError := mkError { errName : string; errMessage : string }.

(** RawJobRecord: the object an extractor returns per posting.  A field
    that the object does not carry is [None]. *)
Record Job := mkJob {
  title : option string;
  company : option string;
  experience : option string;
  location : option string;
  skills : option (list string);
  salary : option string;
  link : option string;
  source : option string;
  postedDate : option string;
  scrapedDate : option string
}.

(** A row of the relation [jobs] of [initializeDatabase]; the columns
    without [NOT NULL] are nullable. *)
Record JobRow := mkRow {
  col_id : Z;
  col_title : string;
  col_company : string;
  col_experience : option string;
  col_location : option string;
  col_skills : option (list string);
  col_salary : option string;
  col_link : string;
  col_source : string;
  col_posted_date : option string;
  col_posted_date_original : option string;
  col_created_at : Z
}.

(** The nine values bound to [$1..$9] of the INSERT; [None] is SQL NULL
    (the driver sends [undefined] as NULL). *)
Record InsertParams := mkParams {
  p_title : option string;
  p_company : option string;
  p_experience : option string;
  p_location : option string;
  p_skills : option (list string);
  p_salary : option string;
  p_link : option string;
  p_source : option string;
  p_posted_date : option string
}.

(** The relation and its [SERIAL] sequence. *)
Record Db := mkDb { rows : list JobRow; serial : Z }.

(** What a query promise resolves to. *)
Record QueryResult := mkResult { rowCount : nat; resultRows : list JobRow }.

(** An element of the array of [Promise.allSettled]. *)
Inductive Settled :=
| Fulfilled (value : QueryResult)
| Rejected (reason : JsError).

(** [{ newJobs, duplicates }]. *)
Record Counts := mkCounts { newJobs : Z; duplicates : Z }.

(** Statements and pool operations, as the store sees them arrive. *)
Inductive Op :=
| OpConnect
| OpBegin
| OpInsert (p : InsertParams)
| OpCommit
| OpRollback
| OpRelease
| OpSelect
| OpCount.

(** Lines written to the console by the persistence gate. *)
Inductive LogLine :=
| LogSaved (newJobs duplicates : Z)
| LogErrorSaving (e : JsError).

(** The four crawlers. *)
Inductive Source := Naukri | Shine | Hirist | LinkedIn.

Record Mail := mkMail { mailTo : string; mailJobs : list JobRow }.

(** The transaction block of the checked-out client: statements act on
    a working copy of the relation until one of them is answered with
    an error; from then on the transaction is aborted, the store
    rejects every statement but COMMIT and ROLLBACK, and both of these
    end the block without any change to the relation. *)
Inductive Block :=
| Working (work : Db)
| Aborted.

(** Everything outside the process that the code acts on: the committed
    relation, the open transaction block of the checked-out client, the
    number of INSERTs sent on it, and the traces of storage operations,
    console lines, browser launches and mails handed to the
    transport. *)
Record World := mkWorld {
  committed : Db;
  txn : option Block;
  insertsSent : nat;
  ops : list Op;
  console : list LogLine;
  launches : list Source;
  mails : list Mail
}.

(** Failures that do not depend on the data: which operations are
    answered with an error, so that the promise of the call is rejected
    (exhausted pool, statement cancelled or timed out, refused mail).
    The loss of the connection of a checked-out client is not among
    them: the client then emits an error event that nothing handles,
    and the process ends. *)
Record Faults := mkFaults {
  connectFails : bool;
  beginFails : bool;
  insertFails : nat -> bool;
  commitFails : bool;
  rollbackFails : bool;
  selectFails : bool;
  countFails : bool;
  sendMailFails : bool
}.

(** The clock and what the driver sends for the current [Date]. *)
Record Env := mkEnv {
  now : Z;
  tza : Z -> bool -> Z;
  nowText : string
}.

(* ================================================================== *)
(** ** Effects: exceptions over the world                              *)
(* ================================================================== *)

Inductive Outcome (A : Type) :=
| Returned (a : A)
| Thrown (e : JsError).

Arguments Returned {A} a.
Arguments Thrown {A} e.

Definition M (A : Type) : Type := World -> Outcome A * World.

Definition ret {A} (a : A) : M A := fun w => (Returned a, w).

Definition throw {A} (e : JsError) : M A := fun w => (Thrown e, w).

Definition bind {A B} (m : M A) (k : A -> M B) : M B :=
  fun w =>
    match m w with
    | (Returned a, w') => k a w'
    | (Thrown e, w') => (Thrown e, w')
    end.

Notation "x <- m ;; k" := (bind m (fun x => k))
  (at level 61, m at next level, right associativity).
Notation "m ;;; k" := (bind m (fun _ => k))
  (at level 61, right associativity).

(** [try { m } catch (error) { h error }]. *)
Definition tryCatch {A} (m : M A) (h : JsError -> M A) : M A :=
  fun w =>
    match m w with
    | (Returned a, w') => (Returned a, w')
    | (Thrown e, w') => h e w'
    end.

(** [try { m } finally { fin }]: [fin] runs on every exit and an
    exception of [fin] replaces the result. *)
Definition tryFinally {A} (m : M A) (fin : M unit) : M A :=
  fun w =>
    let (o, w') := m w in
    match fin w' with
    | (Returned _, w'') => (o, w'')
    | (Thrown e, w'') => (Thrown e, w'')
    end.

(** [Promise.allSettled(ps)]: the promises were created in order, each
    settles on its own, and none of their rejections escapes. *)
Fixpoint allSettled (ps : list (M QueryResult)) : M (list Settled) :=
  match ps with
  | [] => ret []
  | p :: rest =>
      fun w =>
        let (o, w') := p w in
        let s := match o with
                 | Returned v => Fulfilled v
                 | Thrown e => Rejected e
                 end in
        bind (allSettled rest) (fun l => ret (s :: l)) w'
  end.

Definition record (o : Op) : M unit :=
  fun w => (Returned tt,
            mkWorld (committed w) (txn w) (insertsSent w) (ops w ++ [o])
                    (console w) (launches w) (mails w)).

Definition consoleWrite (l : LogLine) : M unit :=
  fun w => (Returned tt,
            mkWorld (committed w) (txn w) (insertsSent w) (ops w)
                    (console w ++ [l]) (launches w) (mails w)).

Definition setTxn (t : option Block) : M unit :=
  fun w => (Returned tt,
            mkWorld (committed w) t (insertsSent w) (ops w)
                    (console w) (launches w) (mails w)).

Definition setCommitted (d : Db) : M unit :=
  fun w => (Returned tt,
            mkWorld d (txn w) (insertsSent w) (ops w)
                    (console w) (launches w) (mails w)).

Definition getWorld : M World := fun w => (Returned w, w).

(** JavaScript [x || d] on a string that may be missing: the empty string
    is falsy. *)
Definition orElse (x : option string) (d : string) : string :=
  match x with
  | Some s => if String.eqb s "" then d else s
  | None => d
  end.

(** [!x] on such a value. *)
Definition falsy (x : option string) : bool :=
  match x with
  | Some s => String.eqb s ""
  | None => true
  end.

(* ================================================================== *)
(** ** The store: the [jobs] relation behind the [pg] pool             *)
(* ================================================================== *)

Definition pgError (message : string) : JsError := mkError "error" message.

Definition hasLink (l : string) (rs : list JobRow) : bool :=
  existsb (fun r => String.eqb (col_link r) l) rs.

(** [INSERT INTO jobs (...) VALUES ($1..$9) ON CONFLICT (link) DO
    NOTHING] on the relation [db]: the [NOT NULL] columns are checked in
    the order of the table, a row whose link is present is skipped with
    an affected-row count of 0, any other row is appended with the next
    value of the sequence.  A statement that fails leaves the relation as
    it was. *)
Definition execInsert (ts : Z) (db : Db) (p : InsertParams) : Db * Outcome QueryResult :=
  match p_title p, p_company p, p_link p, p_source p with
  | None, _, _, _ =>
      (db, Thrown (pgError "null value in column title violates not-null constraint"))
  | _, None, _, _ =>
      (db, Thrown (pgError "null value in column company violates not-null constraint"))
  | _, _, None, _ =>
      (db, Thrown (pgError "null value in column link violates not-null constraint"))
  | _, _, _, None =>
      (db, Thrown (pgError "null value in column source violates not-null constraint"))
  | Some t, Some c, Some l, Some s =>
      if hasLink l (rows db) then (db, Returned (mkResult 0 []))
      else
        let row := mkRow (serial db) t c (p_experience p) (p_location p) (p_skills p)
                         (p_salary p) l s (p_posted_date p) None ts in
        (mkDb (rows db ++ [row]) (serial db + 1), Returned (mkResult 1 []))
  end.

(** The error with which the store answers a statement that the
    fault plan lets fail. *)
Definition statementFailed (what : string) : JsError :=
  pgError ("canceling statement due to statement timeout: " ++ what).

(** SQLSTATE 25P02, the answer to a statement in an aborted
    transaction. *)
Definition inFailedTransaction : JsError :=
  pgError "current transaction is aborted, commands ignored until end of transaction block".

(** [posted_date] is TEXT in the relation of [db.js]: the store has no
    operator that compares it with [NOW() - INTERVAL ...], and rejects
    the statement when it analyses it. *)
Definition noSuchOperator : JsError :=
  pgError "operator does not exist: text >= timestamp with time zone".

(** One INSERT inside a transaction block: [failed] tells that the
    fault plan lets this statement fail.  An INSERT that is answered
    with an error, of the plan or of the data, aborts the block; in an
    aborted block every INSERT is rejected. *)
Definition insertInBlock (ts : Z) (failed : bool) (b : Block) (p : InsertParams)
  : Outcome QueryResult * Block :=
  match b with
  | Aborted => (Thrown inFailedTransaction, Aborted)
  | Working work =>
      if failed then (Thrown (statementFailed "INSERT"), Aborted)
      else
        match execInsert ts work p with
        | (work', Returned r) => (Returned r, Working work')
        | (_, Thrown e) => (Thrown e, Aborted)
        end
  end.

(** ILIKE patterns: [%] matches any string, [_] any character, a
    backslash quotes the character after it. *)
Inductive LikeItem :=
| AnyString
| AnyChar
| Lit (c : ascii).

Fixpoint parseLike (p : string) : list LikeItem :=
  match p with
  | EmptyString => []
  | String c r =>
      if Ascii.eqb c "%" then AnyString :: parseLike r
      else if Ascii.eqb c "_" then AnyChar :: parseLike r
      else if Ascii.eqb c "\" then
        match r with
        | String d r' => Lit d :: parseLike r'
        | EmptyString => [Lit c]
        end
      else Lit c :: parseLike r
  end.

Fixpoint likeItems (p : list LikeItem) (s : string) {struct p} : bool :=
  match p with
  | [] => match s with EmptyString => true | _ => false end
  | AnyString :: p' =>
      (fix star (s : string) : bool :=
         likeItems p' s ||
         match s with
         | EmptyString => false
         | String _ r => star r
         end) s
  | AnyChar :: p' =>
      match s with
      | String _ r => likeItems p' r
      | EmptyString => false
      end
  | Lit c :: p' =>
      match s with
      | String d r =>
          Ascii.eqb (JsString.lowerChar c) (JsString.lowerChar d) && likeItems p' r
      | EmptyString => false
      end
  end.

(** [value ILIKE pattern]; a NULL value does not satisfy the clause. *)
Definition ilike (value : option string) (pattern : string) : bool :=
  match value with
  | Some s => likeItems (parseLike pattern) s
  | None => false
  end.

(** The conjuncts that the routes put after WHERE. *)
Inductive Column := ColTitle | ColLocation | ColSource.

Inductive Clause :=
| ILike (c : Column) (param : string)
| PostedSince (hours : Z).

Definition columnOf (c : Column) (r : JobRow) : option string :=
  match c with
  | ColTitle => Some (col_title r)
  | ColLocation => col_location r
  | ColSource => Some (col_source r)
  end.

(** [ORDER BY posted_date DESC]: byte-wise comparison of the text, NULL
    first. *)
Definition postedDesc (a b : JobRow) : bool :=
  match col_posted_date a, col_posted_date b with
  | None, _ => true
  | Some _, None => false
  | Some x, Some y => String.leb y x
  end.

Module PostedDescOrder <: TotalLeBool.
Definition t := JobRow.
Definition leb := postedDesc.
Theorem leb_total : forall a b, leb a b = true \/ leb b a = true.
Proof.
  intros a b. unfold leb, postedDesc.
  destruct (col_posted_date a), (col_posted_date b); auto.
  destruct (String.leb_total s0 s); auto.
Qed.
End PostedDescOrder.

Module PostedSort := Sort PostedDescOrder.

Section Store.

Variable env : Env.
Variable faults : Faults.

Definition setInsertsSent (n : nat) : M unit :=
  fun w => (Returned tt,
            mkWorld (committed w) (txn w) n (ops w)
                    (console w) (launches w) (mails w)).

(** [pool.connect()]. *)
Definition poolConnect : M unit :=
  record OpConnect ;;;
  if connectFails faults
  then throw (mkError "Error" "timeout exceeded when trying to connect")
  else setInsertsSent 0.

(** [client.query('BEGIN')]: the working copy starts as the committed
    relation. *)
Definition queryBegin : M QueryResult :=
  record OpBegin ;;;
  if beginFails faults then throw (statementFailed "BEGIN")
  else
    w <- getWorld ;;
    setTxn (Some (Working (committed w))) ;;;
    ret (mkResult 0 []).

(** [client.query(INSERT ..., params)] on the checked-out client. *)
Definition queryInsert (p : InsertParams) : M QueryResult :=
  record (OpInsert p) ;;;
  w <- getWorld ;;
  setInsertsSent (S (insertsSent w)) ;;;
  match txn w with
  | Some b =>
      let (answer, b') := insertInBlock (now env) (insertFails faults (insertsSent w)) b p in
      setTxn (Some b') ;;;
      match answer with
      | Returned r => ret r
      | Thrown e => throw e
      end
  | None =>
      if insertFails faults (insertsSent w) then throw (statementFailed "INSERT")
      else
        match execInsert (now env) (committed w) p with
        | (db', Returned r) => setCommitted db' ;;; ret r
        | (_, Thrown e) => throw e
        end
  end.

(** [client.query('COMMIT')]: the working copy becomes the relation; the
    COMMIT of an aborted block is answered as a ROLLBACK, without an
    error, and nothing of the block is kept. *)
Definition queryCommit : M QueryResult :=
  record OpCommit ;;;
  if commitFails faults then throw (statementFailed "COMMIT")
  else
    w <- getWorld ;;
    match txn w with
    | Some (Working work) => setCommitted work ;;; setTxn None ;;; ret (mkResult 0 [])
    | Some Aborted => setTxn None ;;; ret (mkResult 0 [])
    | None => ret (mkResult 0 [])
    end.

(** [client.query('ROLLBACK')]: the block is ended and its working copy
    dropped. *)
Definition queryRollback : M QueryResult :=
  record OpRollback ;;;
  if rollbackFails faults then throw (statementFailed "ROLLBACK")
  else setTxn None ;;; ret (mkResult 0 []).

(** [client.release()]. *)
Definition release : M unit := record OpRelease.

(** Whether the store finds an operator for the clause: there is none
    for the TEXT column [posted_date] and a timestamp. *)
Definition wellTyped (c : Clause) : bool :=
  match c with
  | ILike _ _ => true
  | PostedSince _ => false
  end.

(** The clause on a row; a statement with a clause that is not well
    typed is rejected before any row is read. *)
Definition evalClause (c : Clause) (r : JobRow) : bool :=
  match c with
  | ILike col param => ilike (columnOf col r) param
  | PostedSince _ => false
  end.

(** The rows that satisfy [WHERE c1 AND ... AND cn]. *)
Definition selectWhere (cs : list Clause) (rs : list JobRow) : list JobRow :=
  filter (fun r => forallb (fun c => evalClause c r) cs) rs.

(** [pool.query('SELECT * FROM jobs WHERE ... ORDER BY posted_date DESC
    LIMIT l OFFSET o')]; a negative LIMIT or OFFSET is an error of the
    statement.  Rows with the same [posted_date] come in the order of
    the relation here; the store is free to return them in any
    order. *)
Definition querySelect (cs : list Clause) (limit offset : Z) : M QueryResult :=
  record OpSelect ;;;
  if selectFails faults then throw (statementFailed "SELECT")
  else if negb (forallb wellTyped cs) then throw noSuchOperator
  else if limit <? 0 then throw (pgError "LIMIT must not be negative")
  else if offset <? 0 then throw (pgError "OFFSET must not be negative")
  else
    w <- getWorld ;;
    let found := firstn (Z.to_nat limit)
                   (skipn (Z.to_nat offset)
                      (PostedSort.sort (selectWhere cs (rows (committed w))))) in
    ret (mkResult (List.length found) found).

(** [pool.query('SELECT COUNT( * ) FROM jobs WHERE ...')]. *)
Definition queryCount (cs : list Clause) : M Z :=
  record OpCount ;;;
  if countFails faults then throw (statementFailed "COUNT")
  else if negb (forallb wellTyped cs) then throw noSuchOperator
  else
    w <- getWorld ;;
    ret (Z.of_nat (List.length (selectWhere cs (rows (committed w))))).

(* ---------------------------------------------------------------- *)
(** *** [saveJobs]                                                   *)
(* ---------------------------------------------------------------- *)

(** The parameter array of the INSERT for one job. *)
Definition insertParams (job : Job) : InsertParams :=
  mkParams (title job)
           (company job)
           (Some (orElse (experience job) "N/A"))
           (Some (orElse (location job) "N/A"))
           (Some (match skills job with Some l => l | None => [] end))
           (Some (orElse (salary job) "Not specified"))
           (link job)
           (Some (orElse (source job) "Unknown"))
           (Some (orElse (postedDate job) (nowText env))).

(** [r.status === 'fulfilled' && r.value.rowCount === 1]. *)
Definition isNew (r : Settled) : bool :=
  match r with
  | Fulfilled v => (rowCount v =? 1)%nat
  | Rejected _ => false
  end.

(** [jobs] is [None] when the argument is [null] or [undefined]. *)
Definition saveJobs (jobs : option (list Job)) : M Counts :=
  match jobs with
  | None => ret (mkCounts 0 0)
  | Some [] => ret (mkCounts 0 0)
  | Some js =>
      poolConnect ;;;
      tryFinally
        (tryCatch
           (queryBegin ;;;
            results <- allSettled (map (fun job => queryInsert (insertParams job)) js) ;;
            let newJobs := Z.of_nat (List.length (filter isNew results)) in
            let duplicates := Z.of_nat (List.length js) - newJobs in
            queryCommit ;;;
            consoleWrite (LogSaved newJobs duplicates) ;;;
            ret (mkCounts newJobs duplicates))
           (fun error =>
              queryRollback ;;;
              consoleWrite (LogErrorSaving error) ;;;
              ret (mkCounts 0 0)))
        release
  end.

End Store.

(* ================================================================== *)
(** ** Page extractors                                                 *)
(* ================================================================== *)

(** The callbacks given to [page.evaluate] read each matching node
    through a fixed set of selectors.  A node is modelled by what those
    lookups return: [None] when [querySelector] finds no element, the
    [textContent] (or [href]) of the element otherwise. *)

Definition bindO {A B} (o : Outcome A) (k : A -> Outcome B) : Outcome B :=
  match o with
  | Returned a => k a
  | Thrown e => Thrown e
  end.

(** [try { return f(node) } catch (err) { return null }]. *)
Definition orNull {A} (o : Outcome A) : option A :=
  match o with
  | Returned a => Some a
  | Thrown _ => None
  end.

(** [nodes.map(f)] where [f] may throw: the first exception ends the
    whole [map]. *)
Fixpoint mapThrowing {A B} (f : A -> Outcome B) (l : list A) : Outcome (list B) :=
  match l with
  | [] => Returned []
  | a :: r =>
      bindO (f a) (fun b => bindO (mapThrowing f r) (fun bs => Returned (b :: bs)))
  end.

(** [array.filter(Boolean)] on an array of objects and [null]s. *)
Fixpoint filterBoolean {A} (l : list (option A)) : list A :=
  match l with
  | [] => []
  | Some a :: r => a :: filterBoolean r
  | None :: r => filterBoolean r
  end.

(** [elem?.textContent?.trim() || d]. *)
Definition textOr (elem : option string) (d : string) : string :=
  orElse (option_map JsString.trim elem) d.

(** [date.toISOString()], which throws on an invalid date. *)
Definition isoOrThrow (d : option Z) : Outcome string :=
  match JsDate.toISOString d with
  | Some s => Returned s
  | None => Thrown (mkError "RangeError" "Invalid time value")
  end.

(** [date.toISOString().split('T')[0]]. *)
Definition isoDayOrThrow (d : option Z) : Outcome string :=
  bindO (isoOrThrow d) (fun s => Returned (JsString.splitHead "T" s)).

Definition minus (a : option Z) (n : Z) : option Z := option_map (fun x => x - n) a.

Section Extractors.

Variable env : Env.

(** [new Date()]. *)
Definition newDate : option Z := Some (now env).

Definition zone : Z -> bool -> Z := tza env.

(* ---------------------------------------------------------------- *)
(** *** LinkedIn                                                     *)
(* ---------------------------------------------------------------- *)

Record LinkedInCard := mkLinkedInCard {
  li_title : option string;      (* .base-search-card__title *)
  li_href : option string;       (* a.base-card__full-link, its href *)
  li_company : option string;    (* .base-search-card__subtitle a *)
  li_location : option string;   (* .job-search-card__location *)
  li_time : option string        (* time *)
}.

(** [parseInt(postedDate) || 1]. *)
Definition countOrOne (s : string) : Z :=
  match JsString.parseInt s with
  | Some n => if n =? 0 then 1 else n
  | None => 1
  end.

(** The posted date of a LinkedIn card, from the text of its [time]
    element. *)
Definition linkedInPostedDate (time : option string) : Outcome string :=
  match time with
  | None => Returned "N/A"
  | Some text =>
      let postedDate := JsString.toLowerCase (JsString.trim text) in
      let num := countOrOne postedDate in
      if JsString.includes "hour" postedDate then
        isoOrThrow (JsDate.setHours zone newDate (minus (JsDate.getHours zone newDate) num))
      else if JsString.includes "day" postedDate then
        isoDayOrThrow (JsDate.setDate zone newDate (minus (JsDate.getDate zone newDate) num))
      else if JsString.includes "week" postedDate then
        isoDayOrThrow (JsDate.setDate zone newDate
                         (minus (JsDate.getDate zone newDate) (num * 7)))
      else if JsString.includes "month" postedDate then
        isoDayOrThrow (JsDate.setMonth zone newDate (minus (JsDate.getMonth zone newDate) num))
      else if JsString.includes "minute" postedDate then
        isoOrThrow (JsDate.setMinutes zone newDate
                      (minus (JsDate.getMinutes zone newDate) num))
      else Returned (JsString.trim text)
  end.

(** The body of the [try] block of [extractLinkedInJobs]. *)
Definition linkedInCard (job : LinkedInCard) : Outcome Job :=
  let title := textOr (li_title job) "N/A" in
  let link := orElse (li_href job) "#" in
  let company := textOr (li_company job) "N/A" in
  let location := textOr (li_location job) "N/A" in
  bindO (linkedInPostedDate (li_time job)) (fun postedDate =>
  bindO (isoOrThrow newDate) (fun scraped =>
  Returned (mkJob (Some title) (Some company) (Some "N/A") (Some location) (Some [])
                  (Some "Not specified") (Some link) (Some "LinkedIn")
                  (Some postedDate) (Some scraped)))).

Definition extractLinkedInJobs (page : list LinkedInCard) : list Job :=
  filterBoolean (map (fun job => orNull (linkedInCard job)) page).

(* ---------------------------------------------------------------- *)
(** *** Naukri                                                       *)
(* ---------------------------------------------------------------- *)

Record NaukriTuple := mkNaukriTuple {
  na_title : option string;       (* .title *)
  na_company : option string;     (* .comp-name *)
  na_experience : option string;  (* .expwdth *)
  na_location : option string;    (* .locWdth *)
  na_skills : list string;        (* .tags-gt li *)
  na_href : option string;        (* a.title, its href *)
  na_postDay : option string      (* .job-post-day *)
}.

Definition newline : string := String (ascii_of_nat 10) EmptyString.

Definition naukriPostedDate (day : option string) : string :=
  match day with
  | None => "N/A"
  | Some text =>
      JsString.trim (JsString.removeAll ["Posted"; "ago"; newline] (JsString.trim text))
  end.

(** The callback of [extractJobs] in [crawlNaukri]; it has no [try]. *)
Definition naukriTuple (job : NaukriTuple) : Outcome Job :=
  Returned (mkJob (Some (textOr (na_title job) "N/A"))
                  (Some (textOr (na_company job) "N/A"))
                  (Some (textOr (na_experience job) "N/A"))
                  (Some (textOr (na_location job) "N/A"))
                  (Some (map JsString.trim (na_skills job)))
                  None
                  (Some (orElse (na_href job) "#"))
                  None
                  (Some (naukriPostedDate (na_postDay job)))
                  None).

Definition naukriExtractJobs (page : list NaukriTuple) : Outcome (list Job) :=
  mapThrowing naukriTuple page.

(** [{ ...job, salary: 'Not specified', source: 'Naukri', scrapedDate }]
    at the end of [crawlNaukri]. *)
Definition naukriFinish (job : Job) : Outcome Job :=
  bindO (isoOrThrow newDate) (fun scraped =>
  Returned (mkJob (title job) (company job) (experience job) (location job) (skills job)
                  (Some "Not specified") (link job) (Some "Naukri")
                  (postedDate job) (Some scraped))).

(* ---------------------------------------------------------------- *)
(** *** Shine                                                        *)
(* ---------------------------------------------------------------- *)

Record Anchor := mkAnchor { anchorText : string; anchorHref : string }.

Record ShineCard := mkShineCard {
  sh_title : option Anchor;          (* ...TopTitleHeading a *)
  sh_companyNext : option string;    (* ...TopTitle + span *)
  sh_companyInner : option string;   (* ...TopTitle span *)
  sh_details : list string;          (* ...Bottom span *)
  sh_posted : option string          (* span[class*=jobCardNova_postedData] *)
}.

Definition countOf (digits : string) : Z :=
  match JsString.parseInt digits with
  | Some n => n
  | None => 0
  end.

(** What [extractShineJobs] and the Hirist callback do once the text of
    the date is known: the first of day, week, hour-or-minute that the
    text matches decides; [other] is the value when none matches. *)
Definition relativeDay (text other : string) : Outcome string :=
  match JsString.matchCount "day" text with
  | Some ds =>
      isoDayOrThrow (JsDate.setDate zone newDate
                       (minus (JsDate.getDate zone newDate) (countOf ds)))
  | None =>
      match JsString.matchCount "week" text with
      | Some ws =>
          isoDayOrThrow (JsDate.setDate zone newDate
                           (minus (JsDate.getDate zone newDate) (countOf ws * 7)))
      | None =>
          match JsString.matchCount "hour" text, JsString.matchCount "minute" text with
          | None, None => Returned other
          | _, _ => isoDayOrThrow newDate
          end
      end
  end.

Definition shinePostedDate (posted : option string) : Outcome string :=
  match posted with
  | None => Returned "N/A"
  | Some text =>
      let postedDate :=
        JsString.trim (JsString.removeAll ["posted"; "Posted"; "ago"; newline]
                         (JsString.trim text)) in
      relativeDay postedDate postedDate
  end.

(** The body of the [try] block of [extractShineJobs]. *)
Definition shineCard (job : ShineCard) : Outcome Job :=
  let title := textOr (option_map anchorText (sh_title job)) "N/A" in
  let link := orElse (option_map anchorHref (sh_title job)) "#" in
  let companyElem := match sh_companyNext job with
                     | Some e => Some e
                     | None => sh_companyInner job
                     end in
  let company := textOr companyElem "N/A" in
  let '(experience, location, salary) :=
    match sh_details job with
    | d0 :: d1 :: d2 :: _ =>
        (textOr (Some d0) "N/A", textOr (Some d1) "N/A", textOr (Some d2) "Not specified")
    | _ => ("N/A", "N/A", "Not specified")
    end in
  bindO (shinePostedDate (sh_posted job)) (fun postedDate =>
  bindO (isoOrThrow newDate) (fun scraped =>
  Returned (mkJob (Some title) (Some company) (Some experience) (Some location) None
                  (Some salary) (Some link) (Some "Shine")
                  (Some postedDate) (Some scraped)))).

Definition extractShineJobs (page : list ShineCard) : list Job :=
  filterBoolean (map (fun job => orNull (shineCard job)) page).

(* ---------------------------------------------------------------- *)
(** *** Hirist.tech                                                  *)
(* ---------------------------------------------------------------- *)

Record HiristBox := mkHiristBox {
  hi_title : option string;        (* [data-testid=job_title] *)
  hi_href : option string;         (* its closest a, the href *)
  hi_company : option string;      (* .MuiTypography-subtitle1 *)
  hi_experience : option string;   (* [data-testid=job_experience] *)
  hi_location : option string;     (* [data-testid=job_location] *)
  hi_salary : option string;       (* .MuiTypography-root.mui-style-1n4cg6k *)
  hi_skills : option (list string);(* .MuiBox-root.mui-style-1u0q1tk span *)
  hi_date : option string          (* [data-testid=job_posting_date] *)
}.

Definition hiristPostedDate (date : option string) : Outcome string :=
  let dateText := match date with Some s => s | None => "" end in
  relativeDay (JsString.toLowerCase dateText) "N/A".

(** The callback of the final [page.evaluate] of [crawlHirist]; it has
    no [try]. *)
Definition hiristBox (job : HiristBox) : Outcome Job :=
  let title := textOr (hi_title job) "N/A" in
  let link := orElse (hi_href job) "#" in
  let company := textOr (hi_company job) "N/A" in
  let experience := textOr (hi_experience job) "N/A" in
  let location := textOr (hi_location job) "N/A" in
  let salary := textOr (hi_salary job) "Not specified" in
  let skills := match hi_skills job with
                | Some spans => map JsString.trim spans
                | None => []
                end in
  bindO (hiristPostedDate (hi_date job)) (fun postedDate =>
  bindO (isoOrThrow newDate) (fun scraped =>
  Returned (mkJob (Some title) (Some company) (Some experience) (Some location)
                  (Some skills) (Some salary) (Some link) (Some "Hirist.tech")
                  (Some postedDate) (Some scraped)))).

Definition hiristExtractJobs (page : list HiristBox) : Outcome (list Job) :=
  mapThrowing hiristBox page.

End Extractors.

(* ================================================================== *)
(** ** HTTP routes                                                     *)
(* ================================================================== *)

(** Bodies of the JSON answers.  The [duration] field of the crawl
    answer (a wall-clock difference) and the HTML of the mail are left
    out. *)
(** A value of a JSON request body, as far as the routes tell the kinds
    apart; [Missing] is a field that the body does not carry
    ([undefined]), [Compound] an array or object. *)
Inductive BodyValue :=
| Missing
| Null
| Flag (b : bool)
| Number (n : Z)
| Text (s : string)
| Compound.

Inductive Body :=
| ErrorBody (error : string)
| CrawlBody (source : BodyValue) (role location : string)
            (totalJobs newJobs duplicates : Z) (jobs : list Job)
| JobsBody (count total page : Z) (pages : option Z) (jobs : list JobRow)
| AlertBody (sent : Z) (message : string).

Record Response := mkResponse { status : Z; body : Body }.

(** The two copies of the server differ in the crawlers they route to. *)
Inductive Variant := WithLinkedIn | WithoutLinkedIn.

Record CrawlRequest := mkCrawlRequest {
  cr_role : option string;
  cr_location : option string;
  cr_source : BodyValue;
  cr_experience : option string
}.

Record JobsQuery := mkJobsQuery {
  jq_role : option string;
  jq_location : option string;
  jq_source : option string;
  jq_page : option Z;
  jq_limit : option Z
}.

Record AlertRequest := mkAlertRequest {
  ar_email : option string;
  ar_role : option string;
  ar_location : option string;
  ar_source : option string
}.

Definition quoted (s : string) : string :=
  String (ascii_of_nat 34) s ++ String (ascii_of_nat 34) EmptyString.

Definition invalidSourceMessage (v : Variant) : string :=
  match v with
  | WithLinkedIn =>
      "Invalid source. Supported sources are " ++ quoted "naukri" ++ ", " ++ quoted "shine"
        ++ ", " ++ quoted "hirist" ++ ", and " ++ quoted "linkedin" ++ "."
  | WithoutLinkedIn =>
      "Invalid source. Supported sources are " ++ quoted "naukri" ++ ", " ++ quoted "shine"
        ++ ", and " ++ quoted "hirist" ++ "."
  end.

(** The [case] labels of the [switch] of a variant. *)
Definition sourceNames (v : Variant) : list string :=
  match v with
  | WithLinkedIn => ["naukri"; "shine"; "hirist"; "linkedin"]
  | WithoutLinkedIn => ["naukri"; "shine"; "hirist"]
  end.

(** [switch (source.toLowerCase())]: the crawler of the matching [case],
    [None] for [default]. *)
Definition switchSource (v : Variant) (lowered : string) : option Source :=
  if String.eqb lowered "naukri" then Some Naukri
  else if String.eqb lowered "shine" then Some Shine
  else if String.eqb lowered "hirist" then Some Hirist
  else if String.eqb lowered "linkedin" then
    match v with
    | WithLinkedIn => Some LinkedIn
    | WithoutLinkedIn => None
    end
  else None.

(** [const { ..., source = 'naukri', ... } = req.body]: the default
    stands in for a missing field only. *)
Definition requestedSource (req : CrawlRequest) : BodyValue :=
  match cr_source req with
  | Missing => Text "naukri"
  | given => given
  end.

Definition typeError (message : string) : JsError := mkError "TypeError" message.

(** [source.toLowerCase()]: only a string has the method. *)
Definition lowerCased (source : BodyValue) : Outcome string :=
  match source with
  | Text s => Returned (JsString.toLowerCase s)
  | Null => Thrown (typeError "Cannot read properties of null (reading 'toLowerCase')")
  | Missing =>
      Thrown (typeError "Cannot read properties of undefined (reading 'toLowerCase')")
  | Flag _ | Number _ | Compound => Thrown (typeError "source.toLowerCase is not a function")
  end.

(** The [case] that [switch (source.toLowerCase())] selects. *)
Definition caseOf (v : Variant) (source : BodyValue) : Outcome (option Source) :=
  match lowerCased source with
  | Returned lowered => Returned (switchSource v lowered)
  | Thrown e => Thrown e
  end.

Definition likeParam (s : string) : string := "%" ++ s ++ "%".

(** [if (x) { queryParams.push(`%${x}%`); whereClauses.push(...) }]. *)
Definition optionalClause (c : Column) (x : option string) : list Clause :=
  match x with
  | Some s => if String.eqb s "" then [] else [ILike c (likeParam s)]
  | None => []
  end.

Section Routes.

Variable env : Env.
Variable faults : Faults.

(** What a crawler comes back with for a search: the browser session,
    the navigation and the pagination of each [crawl...] function are
    summarised by their result, the list of extracted jobs or the
    exception that ended the crawl. *)
Variable web : Source -> string -> string -> option string -> Outcome (list Job).

(** The outcome of an expression that touches nothing outside. *)
Definition evaluated {A} (o : Outcome A) : M A := fun w => (o, w).

Definition crawl (s : Source) (role location : string) (experience : option string)
  : M (list Job) :=
  fun w =>
    (web s role location experience,
     mkWorld (committed w) (txn w) (insertsSent w) (ops w)
             (console w) (launches w ++ [s]) (mails w)).

(** [app.post('/api/crawl')]. *)
Definition postCrawl (v : Variant) (req : CrawlRequest) : M Response :=
  tryCatch
    (let source := requestedSource req in
     match cr_role req, cr_location req with
     | Some role, Some location =>
         if (String.eqb role "" || String.eqb location "")%bool then
           ret (mkResponse 400 (ErrorBody "Role and location are required"))
         else
           selected <- evaluated (caseOf v source) ;;
           match selected with
           | Some s =>
               jobs <- crawl s role location
                         (match s with
                          | Naukri | LinkedIn => cr_experience req
                          | Shine | Hirist => None
                          end) ;;
               counts <- saveJobs env faults (Some jobs) ;;
               ret (mkResponse 200
                      (CrawlBody source role location (Z.of_nat (List.length jobs))
                                 (newJobs counts) (duplicates counts) (firstn 50 jobs)))
           | None => ret (mkResponse 400 (ErrorBody (invalidSourceMessage v)))
           end
     | _, _ => ret (mkResponse 400 (ErrorBody "Role and location are required"))
     end)
    (fun error => ret (mkResponse 500 (ErrorBody (errMessage error)))).

(** [Math.ceil(total / limit)]; [None] is the [Infinity] or [NaN] of a
    zero limit. *)
Definition pageCount (total limit : Z) : option Z :=
  if limit =? 0 then None else Some (- ((- total) / limit)).

(** [const { ..., page = 1, limit = 20 } = req.query]. *)
Definition pageOf (q : JobsQuery) : Z :=
  match jq_page q with Some p => p | None => 1 end.

Definition limitOf (q : JobsQuery) : Z :=
  match jq_limit q with Some l => l | None => 20 end.

Definition jobsWhere (q : JobsQuery) : list Clause :=
  optionalClause ColTitle (jq_role q) ++
  optionalClause ColLocation (jq_location q) ++
  optionalClause ColSource (jq_source q).

(** [app.get('/api/jobs')]. *)
Definition getJobs (q : JobsQuery) : M Response :=
  tryCatch
    (let page := pageOf q in
     let limit := limitOf q in
     let offset := (page - 1) * limit in
     let whereClauses := jobsWhere q in
     jobsResult <- querySelect faults whereClauses limit offset ;;
     let jobs := resultRows jobsResult in
     total <- queryCount faults whereClauses ;;
     ret (mkResponse 200
            (JobsBody (Z.of_nat (List.length jobs)) total page (pageCount total limit) jobs)))
    (fun error => ret (mkResponse 500 (ErrorBody (errMessage error)))).

(** [transporter.sendMail(mailOptions)]: the message is handed over,
    then the transport answers. *)
Definition sendMail (m : Mail) : M unit :=
  fun w =>
    (if sendMailFails faults
     then Thrown (mkError "Error" "Invalid login")
     else Returned tt,
     mkWorld (committed w) (txn w) (insertsSent w) (ops w)
             (console w) (launches w) (mails w ++ [m])).

Definition sendEmailAlert (email : string) (jobs : list JobRow) : M bool :=
  tryCatch
    (match jobs with
     | [] => ret false
     | _ => sendMail (mkMail email jobs) ;;; ret true
     end)
    (fun _ => ret false).

Definition alertWhere (role : string) (req : AlertRequest) : list Clause :=
  [PostedSince 24; ILike ColTitle (likeParam role)] ++
  optionalClause ColLocation (ar_location req) ++
  optionalClause ColSource (ar_source req).

(** [app.post('/api/alert')]. *)
Definition postAlert (req : AlertRequest) : M Response :=
  tryCatch
    (match ar_email req, ar_role req with
     | Some email, Some role =>
         if (String.eqb email "" || String.eqb role "")%bool then
           ret (mkResponse 400 (ErrorBody "Email and role are required"))
         else
           result <- querySelect faults (alertWhere role req) 10 0 ;;
           let jobs := resultRows result in
           match jobs with
           | [] => ret (mkResponse 200 (AlertBody 0 "No matching jobs found to send"))
           | _ =>
               emailResult <- sendEmailAlert email jobs ;;
               if (emailResult : bool) then
                 let n := Z.of_nat (List.length jobs) in
                 ret (mkResponse 200
                        (AlertBody n ("Alert sent with " ++ JsString.natToString n ++ " jobs")))
               else ret (mkResponse 500 (ErrorBody "Failed to send email"))
           end
     | _, _ => ret (mkResponse 400 (ErrorBody "Email and role are required"))
     end)
    (fun error => ret (mkResponse 500 (ErrorBody (errMessage error)))).

End Routes.

(** A world in which nothing has happened yet, over a given relation. *)
Definition freshWorld (db : Db) : World := mkWorld db None 0 [] [] [] [].

(* ================================================================== *)
(** ** Vocabulary of the statements                                    *)
(* ================================================================== *)

(** The parameter arrays of a batch, in order. *)
Definition batchParams (env : Env) (js : list Job) : list InsertParams :=
  map (insertParams env) js.

(** How the INSERTs of a batch settle one after the other inside the
    transaction block [b]: [i] is the position of the next INSERT.  The
    result is the array of [Promise.allSettled] and the block after the
    last statement. *)
Fixpoint settleFrom (ts : Z) (fails : nat -> bool) (i : nat) (b : Block)
         (ps : list InsertParams) : list Settled * Block :=
  match ps with
  | [] => ([], b)
  | p :: rest =>
      let (answer, b') := insertInBlock ts (fails i) b p in
      let (rs, final) := settleFrom ts fails (S i) b' rest in
      (match answer with
       | Returned q => Fulfilled q
       | Thrown e => Rejected e
       end :: rs, final)
  end.

(** What the COMMIT of a block leaves as the relation, [before] being
    the relation at BEGIN. *)
Definition afterCommit (before : Db) (b : Block) : Db :=
  match b with
  | Working work => work
  | Aborted => before
  end.

(** A batch sent in a transaction that begins on the relation [before],
    [i] being the position of its first INSERT: the array of
    [Promise.allSettled], and the relation that COMMIT leaves. *)
Definition settleBatch (ts : Z) (fails : nat -> bool) (i : nat) (before : Db)
           (ps : list InsertParams) : list Settled * Db :=
  let (rs, final) := settleFrom ts fails i (Working before) ps in
  (rs, afterCommit before final).

(** An INSERT that the conflict clause skipped: fulfilled, no row
    affected. *)
Definition isSkipped (r : Settled) : bool :=
  match r with
  | Fulfilled v => (rowCount v =? 0)%nat
  | Rejected _ => false
  end.

(** An INSERT that failed on its own. *)
Definition isFailed (r : Settled) : bool :=
  match r with
  | Fulfilled _ => false
  | Rejected _ => true
  end.

Definition countIf {A} (p : A -> bool) (l : list A) : Z := Z.of_nat (List.length (filter p l)).

(** Number of stored rows with a given link. *)
Definition rowsWithLink (l : string) (db : Db) : nat :=
  List.length (filter (fun r => String.eqb (col_link r) l) (rows db)).

(** The uniqueness constraint of [link]. *)
Definition linksUnique (db : Db) : Prop := NoDup (map col_link (rows db)).

(** No operation of the environment fails. *)
Definition noFaults : Faults :=
  mkFaults false false (fun _ => false) false false false false false.

(* ================================================================== *)
(** ** Sample data for the concrete runs                               *)
(* ================================================================== *)

(** 15 January 2024, 01:30 UTC, on a host that runs in UTC. *)
Definition sampleEnv : Env :=
  mkEnv 1705282200000 (JsDate.fixedZone 0) "2024-01-15T01:30:00.000+00:00".

(** 29 October 2023, 06:00 UTC, on a host whose clocks were put back
    at 01:00 UTC of that day (Central European Time). *)
Definition autumnEnv : Env :=
  mkEnv 1698559200000 (JsDate.clocksPutBack 1698541200000) "2023-10-29T07:00:00.000+01:00".

Definition emptyDb : Db := mkDb [] 1.

Definition backendJob : Job :=
  mkJob (Some "Backend Engineer") (Some "Acme") (Some "2-4 Yrs") (Some "Pune")
        (Some ["node"; "sql"]) None (Some "https://jobs.example/backend-1")
        (Some "Naukri") (Some "2 Days") (Some "2024-01-15T01:30:00.000Z").

Definition frontendJob : Job :=
  mkJob (Some "Frontend Engineer") (Some "Globex") None (Some "Chennai")
        None None (Some "https://jobs.example/frontend-7")
        (Some "Shine") (Some "2024-01-14") (Some "2024-01-15T01:30:00.000Z").

(** An object without a title: the INSERT violates NOT NULL. *)
Definition untitledJob : Job :=
  mkJob None (Some "Initech") None None None None (Some "https://jobs.example/x")
        (Some "Shine") None None.

Definition connectDown : Faults :=
  mkFaults true false (fun _ => false) false false false false false.

Definition beginDown : Faults :=
  mkFaults false true (fun _ => false) false false false false false.

Definition commitDown : Faults :=
  mkFaults false false (fun _ => false) true false false false false.

(** Cards of a LinkedIn and of a Hirist.tech result page: one with a
    recent posting, one whose posting date names a count of days that
    leaves the range of time values, one without any of the elements
    that the selectors look for. *)
Definition linkedInRecent : LinkedInCard :=
  mkLinkedInCard (Some " Backend Engineer ") (Some "https://www.linkedin.com/jobs/view/1")
                 (Some "Acme") (Some "Pune") (Some " 2 days ago ").

Definition linkedInFar : LinkedInCard :=
  mkLinkedInCard (Some "Data Engineer") (Some "https://www.linkedin.com/jobs/view/2")
                 (Some "Globex") (Some "Chennai") (Some "200000000 days ago").

Definition linkedInBare : LinkedInCard := mkLinkedInCard None None None None None.

Definition hiristRecent : HiristBox :=
  mkHiristBox (Some "Node Developer") (Some "https://www.hirist.tech/j/node-1")
              (Some "Acme") (Some "2-4 Years") (Some "Pune") None
              (Some ["node"; "sql"]) (Some "Posted 2 days ago").

Definition hiristFar : HiristBox :=
  mkHiristBox (Some "Go Developer") (Some "https://www.hirist.tech/j/go-2")
              (Some "Globex") (Some "5-8 Years") (Some "Chennai") None
              None (Some "Posted 200000000 days ago").

Definition hiristBare : HiristBox := mkHiristBox None None None None None None None None.

Definition shineFar : ShineCard :=
  mkShineCard (Some (mkAnchor "QA Engineer" "https://www.shine.com/jobs/qa/3"))
              (Some "Initech") None ["1 to 3 Yrs"; "Delhi"; "Rs 5 - 7 Lakh/Yr"]
              (Some "Posted 200000000 days ago").

Definition shineRecent : ShineCard :=
  mkShineCard (Some (mkAnchor "QA Engineer" "https://www.shine.com/jobs/qa/4"))
              None (Some "Initech") ["1 to 3 Yrs"; "Delhi"]
              (Some "Posted 3 hours ago").

(* ================================================================== *)
(** ** The filters in the words of the specification                   *)
(* ================================================================== *)

(** A filter text without the wildcard characters of LIKE and without
    its escape character. *)
Fixpoint wildcardFree (s : string) : bool :=
  match s with
  | EmptyString => true
  | String c r =>
      negb (Ascii.eqb c "%") && negb (Ascii.eqb c "_") && negb (Ascii.eqb c "\")
      && wildcardFree r
  end.

(** The pattern items of a text that is all literal. *)
Definition litItems (s : string) : list LikeItem := map Lit (list_ascii_of_string s).

Definition wildcardFreeOpt (x : option string) : bool :=
  match x with
  | Some s => wildcardFree s
  | None => true
  end.

(** "Case-insensitive substring match": an absent or empty filter holds
    of every value, a filter holds of a value that contains it when both
    are lower-cased, and of no NULL. *)
Definition containsCI (needle hay : option string) : bool :=
  match needle with
  | None => true
  | Some n =>
      if String.eqb n "" then true
      else
        match hay with
        | Some h => JsString.includes (JsString.toLowerCase n) (JsString.toLowerCase h)
        | None => false
        end
  end.

(** "Against title, location and source respectively, conjunctively
    combined". *)
Definition substringFilter (role location source : option string) (r : JobRow) : bool :=
  containsCI role (Some (col_title r))
  && containsCI location (col_location r)
  && containsCI source (Some (col_source r)).

Definition postedDescRel (a b : JobRow) : Prop := postedDesc a b = true.

(** Two stored postings. *)
Definition backendRow : JobRow :=
  mkRow 1 "Backend Engineer" "Acme" (Some "2-4 Yrs") (Some "Pune") (Some ["node"; "sql"])
        (Some "Not specified") "https://jobs.example/backend-1" "Naukri"
        (Some "2024-01-14") None 1705282200000.

Definition frontendRow : JobRow :=
  mkRow 2 "Frontend Engineer" "Globex" (Some "N/A") (Some "Chennai") (Some [])
        (Some "Not specified") "https://jobs.example/frontend-7" "Shine"
        (Some "2024-01-15T00:10:00.000Z") None 1705282200000.

Definition twoRows : Db := mkDb [backendRow; frontendRow] 3.

(* ================================================================== *)
(** ** The remaining store functions and status routes                 *)
(* ================================================================== *)

(** [filters] of [readJobs]. *)
Record ReadFilters := mkReadFilters {
  rf_role : option string;
  rf_location : option string;
  rf_source : option string
}.

(** [{ status, jobCount }] of GET /health, with the HTTP status; the
    time stamp and the storage label are left out. *)
Record HealthResponse := mkHealth {
  healthStatus : Z;
  healthOk : bool;
  healthJobCount : option Z
}.

Section StoreReaders.

Variable faults : Faults.

(** [pool.query('SELECT * FROM jobs WHERE ... ORDER BY posted_date
    DESC')], without LIMIT. *)
Definition querySelectAll (cs : list Clause) : M QueryResult :=
  record OpSelect ;;;
  if selectFails faults then throw (statementFailed "SELECT")
  else
    w <- getWorld ;;
    let found := PostedSort.sort (selectWhere cs (rows (committed w))) in
    ret (mkResult (List.length found) found).

Definition readWhere (filters : ReadFilters) : list Clause :=
  optionalClause ColTitle (rf_role filters) ++
  optionalClause ColLocation (rf_location filters) ++
  optionalClause ColSource (rf_source filters).

(** [readJobs(filters)]. *)
Definition readJobs (filters : ReadFilters) : M (list JobRow) :=
  tryCatch
    (result <- querySelectAll (readWhere filters) ;;
     ret (resultRows result))
    (fun _ => ret []).

(** [app.get('/health')]. *)
Definition getHealth : M HealthResponse :=
  tryCatch
    (jobCount <- queryCount faults [] ;;
     ret (mkHealth 200 true (Some jobCount)))
    (fun _ => ret (mkHealth 500 false None)).

End StoreReaders.

(** The records that satisfy the NOT NULL columns which [saveJobs] does
    not default. *)
Definition insertable (j : Job) : bool :=
  match title j, company j, link j with
  | Some _, Some _, Some _ => true
  | _, _, _ => false
  end.

(** One list is the beginning of another. *)
Definition isPrefixOf {A} (l1 l2 : list A) : Prop := exists rest, l2 = (l1 ++ rest)%list.

(** A field that is present and not the empty string. *)
Definition filled (x : option string) : bool :=
  match x with
  | Some s => negb (String.eqb s "")
  | None => false
  end.

(** The fields for which every extractor has a default. *)
Definition coreFilled (j : Job) : bool :=
  filled (title j) && filled (company j) && filled (experience j)
  && filled (location j) && filled (link j).

(** The experience that the crawl route passes on: only the Naukri and
    the LinkedIn crawler are called with it. *)
Definition passedExperience (s : Source) (req : CrawlRequest) : option string :=
  match s with
  | Naukri | LinkedIn => cr_experience req
  | Shine | Hirist => None
  end.

(** A crawler outcome for the concrete runs: Shine throws, every other
    source yields sixty copies of one record and one more. *)
Definition sampleWeb (s : Source) (role location : string) (experience : option string)
  : Outcome (list Job) :=
  match s with
  | Shine => Thrown (mkError "TimeoutError" "Navigation timeout of 60000 ms exceeded")
  | _ => Returned (repeat backendJob 60 ++ [frontendJob])%list
  end.

(** The jobs that GET /api/jobs returns for page [p] of a query. *)
Definition jobsOfPage (faults : Faults) (q : JobsQuery) (w : World) (p : Z) : list JobRow :=
  match fst (getJobs faults
                     (mkJobsQuery (jq_role q) (jq_location q) (jq_source q) (Some p)
                                  (jq_limit q)) w) with
  | Returned (mkResponse _ (JobsBody _ _ _ _ jobs)) => jobs
  | _ => []
  end.

(** Pages 1 to [n]. *)
Definition pageNumbers (n : nat) : list Z := map (fun i => Z.of_nat (S i)) (seq 0 n).

(** A non-empty string of decimal digits. *)
Fixpoint allDigits (s : string) : bool :=
  match s with
  | EmptyString => true
  | String c r => JsString.isDigit c && allDigits r
  end.

Definition isNumeral (s : string) : bool := allDigits s && negb (String.eqb s "").

(* ================================================================== *)
(** ** The crawlers: search URLs and pagination                        *)
(* ================================================================== *)

(** [s.replace(/\s+/g, '-')]: every maximal run of white space becomes
    one hyphen.  [inRun] tells that the previous character was white
    space. *)
Fixpoint hyphenateFrom (inRun : bool) (s : string) : string :=
  match s with
  | EmptyString => EmptyString
  | String c r =>
      if JsString.isWhite c then
        if inRun then hyphenateFrom true r else String "-" (hyphenateFrom true r)
      else String c (hyphenateFrom false r)
  end.

(** [text.toLowerCase().replace(/\s+/g, '-')], the form in which role
    and location enter the Naukri, Shine and Hirist.tech URLs. *)
Definition slug (text : string) : string := hyphenateFrom false (JsString.toLowerCase text).

(** [`${n}`] for a page number. *)
Definition showNat (n : nat) : string := JsString.natToString (Z.of_nat n).

(** [experience ? `?key=${experience}` : ''] with [experience] a string
    that defaults to the empty one. *)
Definition experienceQuery (key : string) (experience : option string) : string :=
  if falsy experience then ""
  else "?" ++ key ++ "=" ++ orElse experience "".

Definition naukriBaseUrl (role location : string) : string :=
  "https://www.naukri.com/" ++ slug role ++ "-jobs-in-" ++ slug location.

(** The URL that [crawlNaukri] loads for page [n]: the first page has no
    number. *)
Definition naukriPageUrl (role location : string) (experience : option string) (n : nat)
  : string :=
  match n with
  | 1%nat => naukriBaseUrl role location ++ experienceQuery "experience" experience
  | _ => naukriBaseUrl role location ++ "-" ++ showNat n
           ++ experienceQuery "experience" experience
  end.

Definition shineBaseUrl (role location : string) (experience : option string) : string :=
  "https://www.shine.com/job-search/" ++ slug role ++ "-jobs-in-" ++ slug location
    ++ experienceQuery "exp" experience.

(** The URL that [crawlShine] loads for page [n]: from the second page on
    [&page=n] is appended to the base URL. *)
Definition shinePageUrl (role location : string) (experience : option string) (n : nat)
  : string :=
  match n with
  | 1%nat => shineBaseUrl role location experience
  | _ => shineBaseUrl role location experience ++ "&page=" ++ showNat n
  end.

(** What a crawl leaves behind besides its result: the URLs it loaded,
    in order, and whether the browser it launched was closed. *)
Record CrawlRun := mkCrawlRun {
  crawlResult : Outcome (list Job);
  visited : list string;
  browserLaunched : bool;
  browserClosed : bool
}.

Definition launchError : JsError := mkError "Error" "Failed to launch the browser process".

(** The TimeoutError of [page.waitForSelector]; the wording of the
    message is that of the browser library and differs between its
    versions. *)
Definition selectorTimeout (selector : string) : JsError :=
  mkError "TimeoutError" ("Waiting for selector " ++ selector ++ " failed").

(** [try { body } catch (error) { throw error } finally { if (browser)
    await browser.close() }] around a crawl whose first step is the
    launch of the browser. *)
Definition withBrowser (launchFails : bool) (body : Outcome (list Job) * list string)
  : CrawlRun :=
  if launchFails then mkCrawlRun (Thrown launchError) [] false false
  else mkCrawlRun (fst body) (snd body) true true.

(* ---------------------------------------------------------------- *)
(** *** [crawlNaukri]                                                *)
(* ---------------------------------------------------------------- *)

Inductive NaukriAnswer :=
| NaukriUnreachable (e : JsError)
| NaukriListing (tuples : list NaukriTuple).

Section CrawlNaukri.

Variable env : Env.
Variable site : string -> NaukriAnswer.
Variables role location : string.
Variable experience : option string.

(** The loop of [crawlNaukri] on the page that is loaded ([current]):
    [waitForSelector] throws when the page shows no tuple; a navigation
    to the next page that fails ends the loop. *)
Fixpoint naukriPages (remaining currentPage : nat) (current : list NaukriTuple)
         (allJobs : list Job) : Outcome (list Job) * list string :=
  match remaining with
  | O => (Returned allJobs, [])
  | S k =>
      match current with
      | [] => (Thrown (selectorTimeout ".srp-jobtuple-wrapper"), [])
      | _ =>
          match naukriExtractJobs current with
          | Thrown e => (Thrown e, [])
          | Returned pageJobs =>
              let url := naukriPageUrl role location experience (S currentPage) in
              match site url with
              | NaukriUnreachable _ => (Returned (allJobs ++ pageJobs)%list, [url])
              | NaukriListing next =>
                  let (result, urls) :=
                    naukriPages k (S currentPage) next (allJobs ++ pageJobs)%list in
                  (result, url :: urls)
              end
          end
      end
  end.

Definition naukriMaxPages : nat := 10.

Definition crawlNaukri (launchFails : bool) : CrawlRun :=
  withBrowser launchFails
    (let url := naukriPageUrl role location experience 1 in
     match site url with
     | NaukriUnreachable e => (Thrown e, [url])
     | NaukriListing first =>
         let (result, urls) := naukriPages naukriMaxPages 1 first [] in
         (bindO result (mapThrowing (naukriFinish env)), url :: urls)
     end).

End CrawlNaukri.

(* ---------------------------------------------------------------- *)
(** *** The crawlers that scroll                                     *)
(* ---------------------------------------------------------------- *)

(** What becomes of an awaited promise without a time limit, such as
    the one of [autoScroll]: it settles, fulfilled or rejected, or it
    never does. *)
Inductive Awaited (A : Type) :=
| Settles (o : Outcome A)
| NeverSettles.

Arguments NeverSettles {A}.

(** A crawl as its caller sees it, and what it did with the browser. *)
Record Session := mkSession {
  answer : Awaited (list Job);
  browserStarted : bool;
  closeCalled : bool
}.

(** [try { browser = await puppeteer.launch(...); body } catch (error)
    { throw error } finally { if (browser) await browser.close() }]:
    the [finally] block is reached when the body settles. *)
Definition inBrowser (launchFails : bool) (body : Awaited (list Job)) : Session :=
  if launchFails then mkSession (Settles (Thrown launchError)) false false
  else mkSession body true
                 (match body with
                  | Settles _ => true
                  | NeverSettles => false
                  end).

(** One turn of a pagination loop: the loop goes on to the next page
    with the jobs of this one, or it is left with the result of the
    crawl. *)
Inductive Turn :=
| LeadsOn (pageJobs : list Job)
| Ends (result : Awaited (list Job)).

(** **** [crawlShine] *)

(** What the awaited calls of one turn of [crawlShine] come to on a
    page: [page.goto], the search for the "no jobs found" container
    ([page.$]), [autoScroll], and the [page.evaluate] of
    [extractShineJobs] with the cards it finds.  The race of the two
    [waitForSelector] calls is inside a [try] and decides nothing. *)
Record ShinePage := mkShinePage {
  sp_goto : option JsError;
  sp_noJobs : Outcome bool;
  sp_scroll : Awaited unit;
  sp_cards : Outcome (list ShineCard)
}.

Section CrawlShine.

Variable env : Env.
Variable site : string -> ShinePage.
Variables role location : string.
Variable experience : option string.

(** The body of the [while (currentPage <= maxPages)] loop. *)
Definition shineTurn (page : ShinePage) (allJobs : list Job) : Turn :=
  match sp_goto page with
  | Some e => Ends (Settles (Thrown e))
  | None =>
      match sp_noJobs page with
      | Thrown e => Ends (Settles (Thrown e))
      | Returned true => Ends (Settles (Returned allJobs))
      | Returned false =>
          match sp_scroll page with
          | NeverSettles => Ends NeverSettles
          | Settles (Thrown e) => Ends (Settles (Thrown e))
          | Settles (Returned _) =>
              match sp_cards page with
              | Thrown e => Ends (Settles (Thrown e))
              | Returned cards =>
                  match extractShineJobs env cards with
                  | [] => Ends (Settles (Returned allJobs))
                  | pageJobs => LeadsOn pageJobs
                  end
              end
          end
      end
  end.

(** The loop, [remaining] being the number of pages still allowed; the
    second component lists the URLs that were asked for. *)
Fixpoint shinePages (remaining currentPage : nat) (allJobs : list Job)
  : Awaited (list Job) * list string :=
  match remaining with
  | O => (Settles (Returned allJobs), [])
  | S k =>
      let url := shinePageUrl role location experience currentPage in
      match shineTurn (site url) allJobs with
      | Ends result => (result, [url])
      | LeadsOn pageJobs =>
          let (result, urls) := shinePages k (S currentPage) (allJobs ++ pageJobs) in
          (result, url :: urls)
      end
  end.

Definition crawlShine (launchFails : bool) (maxPages : nat) : Session :=
  inBrowser launchFails (fst (shinePages maxPages 1 [])).

(** The URLs that a crawl with a launched browser asks for. *)
Definition shineVisited (maxPages : nat) : list string := snd (shinePages maxPages 1 []).

(** The page is loaded, shows no "no jobs found" container, is scrolled
    to its end and read. *)
Definition shineRead (page : ShinePage) : Prop :=
  sp_goto page = None
  /\ sp_noJobs page = Returned false
  /\ sp_scroll page = Settles (Returned tt)
  /\ exists cards, sp_cards page = Returned cards.

(** The jobs that page [n] contributes. *)
Definition shineYield (n : nat) : list Job :=
  match sp_cards (site (shinePageUrl role location experience n)) with
  | Returned cards => extractShineJobs env cards
  | Thrown _ => []
  end.

(** The page ends the pagination: it shows the "no jobs found"
    container, or no job is extracted from it. *)
Definition shineEmpty (page : ShinePage) : Prop :=
  sp_goto page = None
  /\ (sp_noJobs page = Returned true
      \/ (shineRead page
          /\ exists cards, sp_cards page = Returned cards /\ extractShineJobs env cards = [])).

(** One of the awaited calls of the turn is rejected with [e]; the
    calls before it are fulfilled. *)
Definition shineFails (page : ShinePage) (e : JsError) : Prop :=
  sp_goto page = Some e
  \/ (sp_goto page = None
      /\ (sp_noJobs page = Thrown e
          \/ (sp_noJobs page = Returned false
              /\ (sp_scroll page = Settles (Thrown e)
                  \/ (sp_scroll page = Settles (Returned tt) /\ sp_cards page = Thrown e))))).

(** The turn reaches [autoScroll], which never settles. *)
Definition shineHangs (page : ShinePage) : Prop :=
  sp_goto page = None /\ sp_noJobs page = Returned false /\ sp_scroll page = NeverSettles.

End CrawlShine.

(** **** [crawlLinkedIn] *)

(** What happens when the crawl looks for the "Next" button of a result
    page, all of it inside a [try]: there is none, the click or the wait
    after it throws, a toast (rate limit) appears, or the next results
    are shown. *)
Inductive NextStep :=
| NoNextButton
| NextFails (e : JsError)
| NextToast
| NextShown.

(** What the awaited calls of one turn of [crawlLinkedIn] come to:
    [autoScroll], the [page.evaluate] of [extractLinkedInJobs] with the
    cards it finds, and the step to the next page. *)
Record LinkedInPage := mkLinkedInPage {
  lp_scroll : Awaited unit;
  lp_cards : Outcome (list LinkedInCard);
  lp_next : NextStep
}.

Section CrawlLinkedIn.

Variable env : Env.

(** The result pages in the order in which "Next" reaches them. *)
Variable pages : nat -> LinkedInPage.

(** The body of the loop; [atCeiling] is [currentPage >= maxPages]. *)
Definition linkedInTurn (page : LinkedInPage) (allJobs : list Job) (atCeiling : bool)
  : Turn :=
  match lp_scroll page with
  | NeverSettles => Ends NeverSettles
  | Settles (Thrown e) => Ends (Settles (Thrown e))
  | Settles (Returned _) =>
      match lp_cards page with
      | Thrown e => Ends (Settles (Thrown e))
      | Returned cards =>
          let pageJobs := extractLinkedInJobs env cards in
          if atCeiling then Ends (Settles (Returned (allJobs ++ pageJobs)%list))
          else
            match lp_next page with
            | NextShown => LeadsOn pageJobs
            | _ => Ends (Settles (Returned (allJobs ++ pageJobs)%list))
            end
      end
  end.

Fixpoint linkedInPages (remaining currentPage : nat) (allJobs : list Job)
  : Awaited (list Job) :=
  match remaining with
  | O => Settles (Returned allJobs)
  | S k =>
      match linkedInTurn (pages currentPage) allJobs
                         (match k with O => true | S _ => false end) with
      | Ends result => result
      | LeadsOn pageJobs => linkedInPages k (S currentPage) (allJobs ++ pageJobs)
      end
  end.

(** [firstLoad] is the failure, if any, of the first [goto] or of the
    wait for the result list, which has a time limit. *)
Definition crawlLinkedIn (launchFails : bool) (firstLoad : option JsError) (maxPages : nat)
  : Session :=
  inBrowser launchFails
    (match firstLoad with
     | Some e => Settles (Thrown e)
     | None => linkedInPages maxPages 1 []
     end).

(** The page is scrolled to its end and read. *)
Definition linkedInRead (page : LinkedInPage) : Prop :=
  lp_scroll page = Settles (Returned tt) /\ exists cards, lp_cards page = Returned cards.

(** The jobs that page [n] contributes. *)
Definition linkedInYield (n : nat) : list Job :=
  match lp_cards (pages n) with
  | Returned cards => extractLinkedInJobs env cards
  | Thrown _ => []
  end.

(** [autoScroll] or the extraction is rejected with [e]. *)
Definition linkedInFails (page : LinkedInPage) (e : JsError) : Prop :=
  lp_scroll page = Settles (Thrown e)
  \/ (lp_scroll page = Settles (Returned tt) /\ lp_cards page = Thrown e).

End CrawlLinkedIn.

(** **** [crawlHirist]: loading by scrolling *)

Definition hiristTarget : nat := 100.

Section CrawlHirist.

Variable env : Env.

(** The page after [i] scrolls: the number of job boxes that [page.$$]
    finds, what the [autoScroll] that is started then comes to, and the
    boxes that the final [page.evaluate] reads. *)
Variable counts : nat -> Outcome nat.
Variable scrolls : nat -> Awaited unit.
Variable boxes : nat -> Outcome (list HiristBox).

(** The [while (true)] loop: the result is the number of scrolls after
    which the loop is left; [None] when [fuel] turns did not leave
    it. *)
Fixpoint hiristLoading (fuel scrolled prevCount : nat) : option (Awaited nat) :=
  match fuel with
  | O => None
  | S f =>
      match counts scrolled with
      | Thrown e => Some (Settles (Thrown e))
      | Returned count =>
          if (hiristTarget <=? count)%nat then Some (Settles (Returned scrolled))
          else if (count =? prevCount)%nat then Some (Settles (Returned scrolled))
          else
            match scrolls scrolled with
            | NeverSettles => Some NeverSettles
            | Settles (Thrown e) => Some (Settles (Thrown e))
            | Settles (Returned _) => hiristLoading f (S scrolled) count
            end
      end
  end.

(** What the crawl comes to once the loop is left. *)
Definition hiristAfterLoading (loading : Awaited nat) : Awaited (list Job) :=
  match loading with
  | NeverSettles => NeverSettles
  | Settles (Thrown e) => Settles (Thrown e)
  | Settles (Returned n) => Settles (bindO (boxes n) (hiristExtractJobs env))
  end.

(** [firstLoad] is the failure, if any, of [page.goto]. *)
Definition crawlHirist (launchFails : bool) (firstLoad : option JsError) (fuel : nat)
  : option Session :=
  if launchFails then Some (mkSession (Settles (Thrown launchError)) false false)
  else
    match firstLoad with
    | Some e => Some (inBrowser false (Settles (Thrown e)))
    | None =>
        match hiristLoading fuel 0 0 with
        | Some loading => Some (inBrowser false (hiristAfterLoading loading))
        | None => None
        end
    end.

End CrawlHirist.

(** Every character of a string satisfies a test. *)
Fixpoint allChars (p : ascii -> bool) (s : string) : bool :=
  match s with
  | EmptyString => true
  | String c r => p c && allChars p r
  end.

Definition slugChar (c : ascii) : bool :=
  negb (JsString.isWhite c) && negb (JsString.isUpper c).

(* ---------------------------------------------------------------- *)
(** *** [autoScroll]                                                 *)
(* ---------------------------------------------------------------- *)

Definition scrollDistance : Z := 100.

(** The interval callback of [autoScroll], tick after tick:
    [scrollHeight i] is [document.body.scrollHeight] as the tick [i]
    reads it (the first tick is 0), [innerHeight] the height of the
    window, [totalHeight] the variable of that name.  The result is the
    number of ticks after which the promise is resolved; [None] when
    [fuel] ticks did not resolve it. *)
Fixpoint autoScrollTicks (scrollHeight : nat -> Z) (innerHeight : Z)
         (fuel tick : nat) (totalHeight : Z) : option nat :=
  match fuel with
  | O => None
  | S f =>
      let height := scrollHeight tick in
      let total := totalHeight + scrollDistance in
      if total >=? height - innerHeight then Some (S tick)
      else autoScrollTicks scrollHeight innerHeight f (S tick) total
  end.

Definition autoScroll (scrollHeight : nat -> Z) (innerHeight : Z) (fuel : nat) : option nat :=
  autoScrollTicks scrollHeight innerHeight fuel 0 0.

(** Ticks that cover a page of height [height]. *)
Definition ticksFor (height innerHeight : Z) : nat :=
  Z.to_nat (Z.max 1 ((height - innerHeight + 99) / 100)).

(** Two states of the world with the same relation, the same open
    transaction and the same browser launches. *)
Definition storeUntouched (w w' : World) : Prop :=
  committed w' = committed w
  /\ txn w' = txn w
  /\ insertsSent w' = insertsSent w
  /\ launches w' = launches w.

(* ================================================================== *)
(** ** The schema: [initializeDatabase], the start of the server and
       GET /api/verify-db                                              *)
(* ================================================================== *)

(** A constraint of type [u] in [pg_constraint]: its name and the
    column it is on. *)
Record UniqueConstraint := mkUnique { conname : string; conColumn : string }.

(** What the catalog of the store holds about [jobs]: whether the
    relation exists, its unique constraints, the names of the indexes
    of the schema, and the rows. *)
Record Catalog := mkCatalog {
  tableThere : bool;
  uniques : list UniqueConstraint;
  indexNames : list string;
  stored : Db
}.

(** Statements and pool operations of [db.js] and of the status route. *)
Inductive SchemaOp :=
| SConnect
| SBegin
| SCreateTable
| SConstraints
| SAlter
| SIndexes
| SCommit
| SRollback
| SRelease
| SPing
| STableExists
| SCount.

(** The operations that the environment lets fail. *)
Definition SchemaFaults : Type := SchemaOp -> bool.

Inductive SchemaLog :=
| LogInitialized
| LogInitializationFailed (e : JsError).

(** The store as [db.js] sees it: the committed catalog, the catalog of
    the open transaction, the operations sent and the console. *)
Record Server := mkServer {
  catalog : Catalog;
  pending : option Catalog;
  sent : list SchemaOp;
  schemaConsole : list SchemaLog
}.

Module Schema.

Definition S (A : Type) : Type := Server -> Outcome A * Server.

Definition ret {A} (a : A) : S A := fun s => (Returned a, s).

Definition throw {A} (e : JsError) : S A := fun s => (Thrown e, s).

Definition bind {A B} (m : S A) (k : A -> S B) : S B :=
  fun s =>
    match m s with
    | (Returned a, s') => k a s'
    | (Thrown e, s') => (Thrown e, s')
    end.

Definition tryCatch {A} (m : S A) (h : JsError -> S A) : S A :=
  fun s =>
    match m s with
    | (Returned a, s') => (Returned a, s')
    | (Thrown e, s') => h e s'
    end.

Definition tryFinally {A} (m : S A) (fin : S unit) : S A :=
  fun s =>
    let (o, s') := m s in
    match fin s' with
    | (Returned _, s'') => (o, s'')
    | (Thrown e, s'') => (Thrown e, s'')
    end.

End Schema.

Declare Scope schema_scope.
Delimit Scope schema_scope with schema.

Notation "x <- m ;; k" := (Schema.bind m (fun x => k))
  (at level 61, m at next level, right associativity) : schema_scope.
Notation "m ;;; k" := (Schema.bind m (fun _ => k))
  (at level 61, right associativity) : schema_scope.

Definition jobsLinkKey : UniqueConstraint := mkUnique "jobs_link_key" "link".

Definition schemaIndexes : list string :=
  ["idx_jobs_title"; "idx_jobs_company"; "idx_jobs_location"; "idx_jobs_source"].

Definition noRelation : JsError := pgError "relation jobs does not exist".

(** No two rows have the same link. *)
Fixpoint distinctLinks (rs : list JobRow) : bool :=
  match rs with
  | [] => true
  | r :: rest => negb (hasLink (col_link r) rest) && distinctLinks rest
  end.

(** [CREATE TABLE IF NOT EXISTS jobs (... link TEXT UNIQUE NOT NULL
    ...)]: a relation that exists is left as it is, whatever its
    columns and constraints; a new one is empty and carries the
    constraint that the column definition creates. *)
Definition createTable (c : Catalog) : Outcome (unit * Catalog) :=
  if tableThere c then Returned (tt, c)
  else Returned (tt, mkCatalog true [jobsLinkKey] (indexNames c) emptyDb).

(** [SELECT conname FROM pg_constraint WHERE conrelid = 'jobs'::regclass
    AND contype = 'u']; the cast fails when the relation is missing. *)
Definition selectConstraints (c : Catalog) : Outcome (list UniqueConstraint * Catalog) :=
  if tableThere c then Returned (uniques c, c) else Thrown noRelation.

(** [ALTER TABLE jobs ADD CONSTRAINT jobs_link_key UNIQUE (link)]: the
    name must be free and the links that are stored must differ. *)
Definition addLinkConstraint (c : Catalog) : Outcome (unit * Catalog) :=
  if negb (tableThere c) then Thrown noRelation
  else if existsb (fun u => String.eqb (conname u) (conname jobsLinkKey)) (uniques c)
       || existsb (String.eqb (conname jobsLinkKey)) (indexNames c)
  then Thrown (pgError "relation jobs_link_key already exists")
  else if distinctLinks (rows (stored c))
  then Returned (tt, mkCatalog true (uniques c ++ [jobsLinkKey]) (indexNames c) (stored c))
  else Thrown (pgError "could not create unique index jobs_link_key").

Definition addIndex (names : list string) (name : string) : list string :=
  if existsb (String.eqb name) names then names else (names ++ [name])%list.

(** The four [CREATE INDEX IF NOT EXISTS] of one query. *)
Definition createIndexes (c : Catalog) : Outcome (unit * Catalog) :=
  if tableThere c
  then Returned (tt, mkCatalog true (uniques c)
                               (fold_left addIndex schemaIndexes (indexNames c)) (stored c))
  else Thrown noRelation.

(** [SELECT COUNT( * ) FROM jobs]. *)
Definition countJobs (c : Catalog) : Outcome (Z * Catalog) :=
  if tableThere c then Returned (Z.of_nat (List.length (rows (stored c))), c)
  else Thrown noRelation.

Section SchemaStatements.

Variable faults : SchemaFaults.

Definition sending (op : SchemaOp) : Schema.S unit :=
  fun s => (if faults op then Thrown (statementFailed "statement") else Returned tt,
            mkServer (catalog s) (pending s) (sent s ++ [op]) (schemaConsole s)).

Definition schemaLog (l : SchemaLog) : Schema.S unit :=
  fun s => (Returned tt,
            mkServer (catalog s) (pending s) (sent s) (schemaConsole s ++ [l])).

(** A statement on the checked-out client or through the pool: it acts
    on the catalog of the open transaction when there is one, on the
    committed catalog otherwise. *)
Definition statement {A} (op : SchemaOp) (run : Catalog -> Outcome (A * Catalog))
  : Schema.S A :=
  (sending op ;;;
   fun s =>
     match pending s with
     | Some c =>
         match run c with
         | Returned (a, c') =>
             (Returned a, mkServer (catalog s) (Some c') (sent s) (schemaConsole s))
         | Thrown e => (Thrown e, s)
         end
     | None =>
         match run (catalog s) with
         | Returned (a, c') => (Returned a, mkServer c' None (sent s) (schemaConsole s))
         | Thrown e => (Thrown e, s)
         end
     end)%schema.

(** [pool.query(...)]: a statement on a client of its own, outside
    the transaction of the checked-out one. *)
Definition poolQuery {A} (op : SchemaOp) (run : Catalog -> Outcome (A * Catalog))
  : Schema.S A :=
  (sending op ;;;
   fun s =>
     match run (catalog s) with
     | Returned (a, c') => (Returned a, mkServer c' (pending s) (sent s) (schemaConsole s))
     | Thrown e => (Thrown e, s)
     end)%schema.

(** [client.release()]. *)
Definition schemaRelease : Schema.S unit :=
  fun s => (Returned tt,
            mkServer (catalog s) (pending s) (sent s ++ [SRelease]) (schemaConsole s)).

Definition schemaBegin : Schema.S unit :=
  (sending SBegin ;;;
   fun s => (Returned tt,
             mkServer (catalog s) (Some (catalog s)) (sent s) (schemaConsole s)))%schema.

Definition schemaCommit : Schema.S unit :=
  (sending SCommit ;;;
   fun s =>
     (Returned tt,
      mkServer (match pending s with Some c => c | None => catalog s end) None
               (sent s) (schemaConsole s)))%schema.

Definition schemaRollback : Schema.S unit :=
  (sending SRollback ;;;
   fun s => (Returned tt, mkServer (catalog s) None (sent s) (schemaConsole s)))%schema.

(** [initializeDatabase()] of [db.js]. *)
Definition initializeDatabase : Schema.S bool :=
  (sending SConnect ;;;
   Schema.tryFinally
     (Schema.tryCatch
        (schemaBegin ;;;
         statement SCreateTable createTable ;;;
         constraints <- statement SConstraints selectConstraints ;;
         (match constraints with
          | [] => statement SAlter addLinkConstraint
          | _ => Schema.ret tt
          end) ;;;
         statement SIndexes createIndexes ;;;
         schemaCommit ;;;
         schemaLog LogInitialized ;;;
         Schema.ret true)
        (fun error =>
           schemaRollback ;;;
           schemaLog (LogInitializationFailed error) ;;;
           Schema.throw error))
     schemaRelease)%schema.

(** How the process goes on after [initializeDatabase()]: the server
    listens, or the process exits with a code. *)
Inductive Startup :=
| Listening
| Exited (code : Z).

(** [initializeDatabase().then(listen).catch(err => process.exit(1))]. *)
Definition startServer (s : Server) : Startup * Server :=
  match initializeDatabase s with
  | (Returned _, s') => (Listening, s')
  | (Thrown _, s') => (Exited 1, s')
  end.

(** The answer of GET /api/verify-db. *)
Inductive VerifyResponse :=
| Verified (tableExists : bool) (jobCount : Z) (hasUniqueConstraint : bool)
           (constraints : list UniqueConstraint)
| VerifyFailed (error : string).

Definition verifyStatus (r : VerifyResponse) : Z :=
  match r with
  | Verified _ _ _ _ => 200
  | VerifyFailed _ => 500
  end.

(** [app.get('/api/verify-db')]. *)
Definition verifyDb : Schema.S VerifyResponse :=
  (Schema.tryCatch
     (poolQuery SPing (fun c => Returned (tt, c)) ;;;
      tableExists <- poolQuery STableExists (fun c => Returned (tableThere c, c)) ;;
      jobCount <- poolQuery SCount countJobs ;;
      constraints <- poolQuery SConstraints selectConstraints ;;
      Schema.ret (Verified tableExists jobCount
                           (0 <? List.length constraints)%nat constraints))
     (fun error => Schema.ret (VerifyFailed (errMessage error))))%schema.

End SchemaStatements.

(** A unique constraint on [link] is among the constraints. *)
Definition hasLinkConstraint (c : Catalog) : bool :=
  existsb (fun u => String.eqb (conColumn u) "link") (uniques c).

(** The store enforces the constraint it has on [link]. *)
Definition linkConstraintHolds (c : Catalog) : Prop :=
  hasLinkConstraint c = true -> linksUnique (stored c).

(** The unique constraints that a successful initialization leaves. *)
Definition settledUniques (c : Catalog) : list UniqueConstraint :=
  if tableThere c
  then match uniques c with
       | [] => [jobsLinkKey]
       | us => us
       end
  else [jobsLinkKey].

Definition idleServer (c : Catalog) : Server := mkServer c None [] [].

Definition noSchemaFaults : SchemaFaults := fun _ => false.

(** A relation of an older schema: no unique constraint. *)
Definition legacyCatalog (db : Db) : Catalog := mkCatalog true [] [] db.

Definition absentCatalog : Catalog := mkCatalog false [] [] emptyDb.

(** The schema that the server works on: the relation exists, it has a
    unique constraint and the four indexes. *)
Definition settledCatalog (c : Catalog) : Prop :=
  tableThere c = true
  /\ uniques c <> []
  /\ forall name, In name schemaIndexes -> In name (indexNames c).

(** The statements that GET /api/verify-db sends. *)
Definition verifyOps : list SchemaOp := [SPing; STableExists; SCount; SConstraints].

(* ---------------------------------------------------------------- *)
(** *** The crawlers behind the route                                *)
(* ---------------------------------------------------------------- *)

(** The crawlers as POST /api/crawl calls them, with [crawlNaukri]
    running against the site [naukri]; [others] stands for the three
    other crawlers. *)
Definition crawlers (env : Env) (naukri : string -> NaukriAnswer)
           (others : Source -> string -> string -> option string -> Outcome (list Job))
  : Source -> string -> string -> option string -> Outcome (list Job) :=
  fun s role location experience =>
    match s with
    | Naukri => crawlResult (crawlNaukri env naukri role location experience false)
    | _ => others s role location experience
    end.

(** A Shine search of which the first two pages list a card and the
    third is never scrolled to its end. *)
Definition shineStuck (url : string) : ShinePage :=
  if String.eqb url (shinePageUrl "node developer" "pune" None 3)
  then mkShinePage None (Returned false) NeverSettles (Returned [])
  else mkShinePage None (Returned false) (Settles (Returned tt)) (Returned [shineRecent]).

(** LinkedIn result pages of which the third has no "Next" button. *)
Definition linkedInThree (n : nat) : LinkedInPage :=
  mkLinkedInPage (Settles (Returned tt)) (Returned [linkedInRecent])
                 (if (n =? 3)%nat then NoNextButton else NextShown).

(** A Naukri search without results: every page loads and shows no
    tuple. *)
Definition naukriWithoutResults : string -> NaukriAnswer := fun _ => NaukriListing [].

(* ================================================================== *)
(** * Properties                                                      *)
(* ================================================================== *)

(** ** The primitives on concrete inputs *)

Example trim_ex : JsString.trim "  2 Days ago
 " = "2 Days ago".
Proof. reflexivity. Qed.

Example parseInt_ex1 : JsString.parseInt "2 days ago" = Some 2.
Proof. reflexivity. Qed.

Example parseInt_ex2 : JsString.parseInt "just now" = None.
Proof. reflexivity. Qed.

Example parseInt_ex3 : JsString.parseInt "0x1f" = Some 31.
Proof. reflexivity. Qed.

Example removeAll_ex :
  JsString.removeAll ["posted"; "Posted"; "ago"] "Posted 3 days ago" = " 3 days ".
Proof. reflexivity. Qed.

Example matchCount_ex1 : JsString.matchCount "day" "12x 5  days" = Some "5".
Proof. reflexivity. Qed.

Example matchCount_ex2 : JsString.matchCount "day" "5days" = None.
Proof. reflexivity. Qed.

Example padZero_ex : JsString.padZero 4 2024 = "2024" /\ JsString.padZero 2 7 = "07"
                     /\ JsString.padZero 3 0 = "000".
Proof. repeat split; reflexivity. Qed.

Example isoText_ex1 : JsDate.isoText 0 = "1970-01-01T00:00:00.000Z".
Proof. reflexivity. Qed.

(** 2024-02-29T12:34:56.789Z, a leap day. *)
Example isoText_ex2 : JsDate.isoText 1709210096789 = "2024-02-29T12:34:56.789Z".
Proof. vm_compute. reflexivity. Qed.

Example isoText_ex3 : JsDate.isoText (-1) = "1969-12-31T23:59:59.999Z".
Proof. vm_compute. reflexivity. Qed.

Example isoDay_ex : JsDate.isoDay 1709210096789 = "2024-02-29".
Proof. vm_compute. reflexivity. Qed.

(** One month before 31 March 2024 is "31 February", which [MakeDay]
    carries over to 2 March. *)
Example setMonth_ex :
  option_map JsDate.isoDay
    (JsDate.setMonth (JsDate.fixedZone 0) (Some 1711886400000)
       (option_map (fun m => m - 1) (JsDate.getMonth (JsDate.fixedZone 0) (Some 1711886400000))))
  = Some "2024-03-02".
Proof. vm_compute. reflexivity. Qed.

(* ================================================================== *)
(** ** The persistence gate                                            *)
(* ================================================================== *)

Section SaveJobsFacts.

Variable env : Env.
Variable faults : Faults.

Lemma allSettled_never_throws (ps : list (M QueryResult)) :
  forall w, exists rs w',
    allSettled ps w = (Returned rs, w') /\ List.length rs = List.length ps.
Proof.
  induction ps as [|p rest IH]; intro w.
  - exists [], w. split; reflexivity.
  - simpl. destruct (p w) as [o w1].
    destruct (IH w1) as (rs & w2 & Hrun & Hlen).
    unfold bind. rewrite Hrun. simpl.
    eexists; eexists; split; [reflexivity|]. simpl. now rewrite Hlen.
Qed.

(** The INSERTs of a batch, sent inside the transaction block [b],
    settle as [settleFrom] says and touch nothing but the block, the
    counter and the trace. *)
Lemma allSettled_inserts (ps : list InsertParams) :
  forall c b i o k l m,
    allSettled (map (queryInsert env faults) ps) (mkWorld c (Some b) i o k l m)
    = (Returned (fst (settleFrom (now env) (insertFails faults) i b ps)),
       mkWorld c (Some (snd (settleFrom (now env) (insertFails faults) i b ps)))
               (i + List.length ps) (o ++ map OpInsert ps) k l m).
Proof.
  induction ps as [|p rest IH]; intros c b i o k l m.
  - simpl. unfold ret. now rewrite Nat.add_0_r, app_nil_r.
  - cbn [map allSettled settleFrom].
    unfold queryInsert at 1. unfold bind, record, getWorld, setInsertsSent. cbn.
    destruct (insertInBlock (now env) (insertFails faults i) b p) as [[q|e] b'];
      unfold setTxn, ret, throw; cbn; rewrite IH; cbn;
      destruct (settleFrom (now env) (insertFails faults) (S i) b' rest) as [rs final];
      cbn; rewrite <- app_assoc; cbn; now rewrite Nat.add_succ_r.
Qed.

Lemma settleFrom_length (ps : list InsertParams) :
  forall i b,
    List.length (fst (settleFrom (now env) (insertFails faults) i b ps)) = List.length ps.
Proof.
  induction ps as [|p rest IH]; intros i b; [reflexivity|].
  cbn [settleFrom].
  destruct (insertInBlock (now env) (insertFails faults i) b p) as [answer b'].
  specialize (IH (S i) b').
  destruct (settleFrom (now env) (insertFails faults) (S i) b' rest). cbn in *.
  now rewrite IH.
Qed.

Lemma settleBatch_length (ps : list InsertParams) :
  forall i work,
    List.length (fst (settleBatch (now env) (insertFails faults) i work ps))
    = List.length ps.
Proof.
  intros i work. unfold settleBatch.
  pose proof (settleFrom_length ps i (Working work)) as Hlen.
  destruct (settleFrom (now env) (insertFails faults) i (Working work) ps). exact Hlen.
Qed.

End SaveJobsFacts.

(** Unfolding of the gate up to the INSERTs, which [allSettled_inserts]
    summarises. *)
Ltac step_gate := cbn -[allSettled map Z.sub Z.of_nat List.length app].

Ltac run_gate :=
  unfold saveJobs, tryFinally, tryCatch, bind, poolConnect, queryBegin, queryCommit,
    queryRollback, release, record, consoleWrite, setInsertsSent, setTxn, setCommitted,
    getWorld, throw, ret; step_gate.

Section SaveJobsRuns.

Variable env : Env.
Variable faults : Faults.

Let settled (c : Db) (js : list Job) : list Settled * Db :=
  settleBatch (now env) (insertFails faults) 0 c (batchParams env js).

(** The path on which the connection is acquired and BEGIN and COMMIT
    succeed. *)
Lemma saveJobs_commit_run (j : Job) (js : list Job) c t i o k l m :
  connectFails faults = false ->
  beginFails faults = false ->
  commitFails faults = false ->
  saveJobs env faults (Some (j :: js)) (mkWorld c t i o k l m)
  = (Returned (mkCounts (countIf (isNew) (fst (settled c (j :: js))))
                        (Z.of_nat (List.length (j :: js))
                         - countIf (isNew) (fst (settled c (j :: js))))),
     mkWorld (snd (settled c (j :: js))) None (List.length (j :: js))
             (o ++ [OpConnect; OpBegin] ++ map OpInsert (batchParams env (j :: js))
                ++ [OpCommit; OpRelease])
             (k ++ [LogSaved (countIf (isNew) (fst (settled c (j :: js))))
                             (Z.of_nat (List.length (j :: js))
                              - countIf (isNew) (fst (settled c (j :: js))))])
             l m).
Proof.
  intros Hc Hb Hm.
  run_gate. rewrite Hc. step_gate. rewrite Hb. step_gate.
  rewrite <- (map_map (insertParams env) (queryInsert env faults)).
  rewrite allSettled_inserts. step_gate.
  rewrite Hm. step_gate.
  unfold settled, settleBatch, countIf, batchParams.
  destruct (settleFrom (now env) (insertFails faults) 0 (Working c)
              (map (insertParams env) (j :: js))) as [rs [work|]];
    step_gate; rewrite length_map; repeat rewrite <- app_assoc; reflexivity.
Qed.

(** The connection cannot be acquired: the exception leaves the
    function before the [try] block is entered. *)
Lemma saveJobs_connect_run (j : Job) (js : list Job) c t i o k l m :
  connectFails faults = true ->
  saveJobs env faults (Some (j :: js)) (mkWorld c t i o k l m)
  = (Thrown (mkError "Error" "timeout exceeded when trying to connect"),
     mkWorld c t i (o ++ [OpConnect]) k l m).
Proof.
  intros Hc. run_gate. rewrite Hc. reflexivity.
Qed.

(** BEGIN fails and ROLLBACK succeeds. *)
Lemma saveJobs_begin_run (j : Job) (js : list Job) c t i o k l m :
  connectFails faults = false ->
  beginFails faults = true ->
  rollbackFails faults = false ->
  saveJobs env faults (Some (j :: js)) (mkWorld c t i o k l m)
  = (Returned (mkCounts 0 0),
     mkWorld c None 0 (o ++ [OpConnect; OpBegin; OpRollback; OpRelease])
             (k ++ [LogErrorSaving (statementFailed "BEGIN")]) l m).
Proof.
  intros Hc Hb Hr. run_gate. rewrite Hc. step_gate. rewrite Hb. step_gate.
  rewrite Hr. step_gate. repeat rewrite <- app_assoc. reflexivity.
Qed.

(** COMMIT fails and ROLLBACK succeeds. *)
Lemma saveJobs_commit_fail_run (j : Job) (js : list Job) c t i o k l m :
  connectFails faults = false ->
  beginFails faults = false ->
  commitFails faults = true ->
  rollbackFails faults = false ->
  saveJobs env faults (Some (j :: js)) (mkWorld c t i o k l m)
  = (Returned (mkCounts 0 0),
     mkWorld c None (List.length (j :: js))
             (o ++ [OpConnect; OpBegin] ++ map OpInsert (batchParams env (j :: js))
                ++ [OpCommit; OpRollback; OpRelease])
             (k ++ [LogErrorSaving (statementFailed "COMMIT")]) l m).
Proof.
  intros Hc Hb Hm Hr.
  run_gate. rewrite Hc. step_gate. rewrite Hb. step_gate.
  rewrite <- (map_map (insertParams env) (queryInsert env faults)).
  rewrite allSettled_inserts. step_gate.
  rewrite Hm. step_gate. rewrite Hr. step_gate.
  unfold batchParams. rewrite length_map. repeat rewrite <- app_assoc. reflexivity.
Qed.

(** The statement that failed inside the [try] block is followed by a
    ROLLBACK that fails too: its exception leaves the function, and
    nothing is written to the console. *)
Lemma saveJobs_rollback_fail_run (j : Job) (js : list Job) c t i o k l m :
  connectFails faults = false ->
  beginFails faults = true \/ commitFails faults = true ->
  rollbackFails faults = true ->
  exists w',
    saveJobs env faults (Some (j :: js)) (mkWorld c t i o k l m)
    = (Thrown (statementFailed "ROLLBACK"), w')
    /\ committed w' = c /\ console w' = k.
Proof.
  intros Hc Hbm Hr.
  destruct (beginFails faults) eqn:Hb.
  - run_gate. rewrite Hc. step_gate. rewrite Hb. step_gate. rewrite Hr. step_gate.
    eexists; split; [reflexivity|]. split; reflexivity.
  - destruct Hbm as [Hb'|Hm]; [discriminate|].
    run_gate. rewrite Hc. step_gate. rewrite Hb. step_gate.
    rewrite <- (map_map (insertParams env) (queryInsert env faults)).
    rewrite allSettled_inserts. step_gate.
    rewrite Hm. step_gate. rewrite Hr. step_gate.
    eexists; split; [reflexivity|]. split; reflexivity.
Qed.

End SaveJobsRuns.

(** *** The relation under INSERT ... ON CONFLICT (link) DO NOTHING *)

Lemma hasLink_In (l : string) (rs : list JobRow) :
  hasLink l rs = true <-> In l (map col_link rs).
Proof.
  unfold hasLink. rewrite existsb_exists, in_map_iff. split.
  - intros (r & Hin & Heq). apply String.eqb_eq in Heq. now exists r.
  - intros (r & Heq & Hin). exists r. split; [assumption|]. now apply String.eqb_eq.
Qed.

(** The three ways an INSERT resolves. *)
Lemma execInsert_cases (ts : Z) (db : Db) (p : InsertParams) :
  (exists e, execInsert ts db p = (db, Thrown e)
             /\ (p_title p = None \/ p_company p = None \/ p_link p = None \/ p_source p = None))
  \/ (exists l, p_link p = Some l /\ hasLink l (rows db) = true
                /\ execInsert ts db p = (db, Returned (mkResult 0 [])))
  \/ (exists l row, p_link p = Some l /\ hasLink l (rows db) = false
                    /\ col_link row = l
                    /\ execInsert ts db p
                       = (mkDb (rows db ++ [row]) (serial db + 1), Returned (mkResult 1 []))).
Proof.
  unfold execInsert.
  destruct (p_title p) as [t|]; [|left; eexists; split; [reflexivity|auto]].
  destruct (p_company p) as [c|]; [|left; eexists; split; [reflexivity|auto]].
  destruct (p_link p) as [l|]; [|left; eexists; split; [reflexivity|auto]].
  destruct (p_source p) as [s|]; [|left; eexists; split; [reflexivity|auto 6]].
  destruct (hasLink l (rows db)) eqn:Hl.
  - right; left. exists l. auto.
  - right; right. eexists l, _. repeat split; try reflexivity. assumption.
Qed.

Lemma execInsert_unique (ts : Z) (db : Db) (p : InsertParams) :
  linksUnique db -> linksUnique (fst (execInsert ts db p)).
Proof.
  intros Hu.
  destruct (execInsert_cases ts db p)
    as [(e & -> & _) | [(l & _ & _ & ->) | (l & row & _ & Hno & Hrow & ->)]];
    try assumption.
  unfold linksUnique in *. cbn. rewrite map_app. cbn.
  apply NoDup_app; [assumption| repeat constructor; intros [] |].
  intros x Hx [Hy|[]]. subst x.
  rewrite <- hasLink_In in Hx. rewrite Hrow in Hx. congruence.
Qed.

(** A link that is stored keeps its number of rows. *)
Lemma execInsert_keeps (ts : Z) (db : Db) (p : InsertParams) (l : string) :
  hasLink l (rows db) = true ->
  hasLink l (rows (fst (execInsert ts db p))) = true
  /\ rowsWithLink l (fst (execInsert ts db p)) = rowsWithLink l db.
Proof.
  intros Hl.
  destruct (execInsert_cases ts db p)
    as [(e & -> & _) | [(l' & _ & _ & ->) | (l' & row & _ & Hno & Hrow & ->)]];
    cbn; auto.
  split.
  - unfold hasLink in *. rewrite existsb_app, Hl. reflexivity.
  - unfold rowsWithLink. cbn. rewrite filter_app, length_app. cbn.
    destruct (String.eqb_spec (col_link row) l) as [Heq|Hne]; [|cbn; lia].
    exfalso. rewrite Hrow in Heq. subst l'. congruence.
Qed.

Lemma filter_none {A} (p : A -> bool) (l : list A) :
  (forall y, In y l -> p y = false) -> filter p l = [].
Proof.
  induction l as [|a r IH]; intros H; [reflexivity|].
  cbn. rewrite (H a (or_introl eq_refl)). apply IH. intros y Hy. apply H. now right.
Qed.

Lemma unique_present_once (l : string) (db : Db) :
  linksUnique db -> hasLink l (rows db) = true -> rowsWithLink l db = 1%nat.
Proof.
  unfold linksUnique, hasLink, rowsWithLink.
  induction (rows db) as [|r rs IH]; cbn; intros Hu Hl; [discriminate|].
  inversion Hu as [|x xs Hnot Hrest]; subst.
  destruct (String.eqb_spec (col_link r) l) as [Heq|Hne]; cbn.
  - f_equal. subst l.
    assert (Hnone : filter (fun r0 => String.eqb (col_link r0) (col_link r)) rs = []).
    { apply filter_none. intros y Hy.
      destruct (String.eqb_spec (col_link y) (col_link r)) as [Heq|]; [|reflexivity].
      exfalso. apply Hnot. rewrite <- Heq. now apply in_map. }
    now rewrite Hnone.
  - apply IH; assumption.
Qed.

Ltac count_settled :=
  cbn [fst snd filter isNew isSkipped isFailed rowCount Nat.eqb List.length] in *;
  rewrite ?Nat2Z.inj_succ; lia.

Section BatchFacts.

Variable ts : Z.
Variable fails : nat -> bool.

(** In an aborted block every INSERT is rejected. *)
Lemma settleFrom_aborted (ps : list InsertParams) :
  forall i,
    settleFrom ts fails i Aborted ps
    = (map (fun _ => Rejected inFailedTransaction) ps, Aborted).
Proof.
  induction ps as [|p rest IH]; intros i; [reflexivity|].
  cbn [settleFrom insertInBlock map]. now rewrite IH.
Qed.

(** One INSERT in a block with a working copy: it is rejected and the
    block is aborted, or it is fulfilled as [execInsert] says. *)
Lemma insertInBlock_cases (failed : bool) (work : Db) (p : InsertParams) :
  (exists e, insertInBlock ts failed (Working work) p = (Thrown e, Aborted)
             /\ (failed = true \/ execInsert ts work p = (work, Thrown e)))
  \/ (exists q, failed = false
                /\ snd (execInsert ts work p) = Returned q
                /\ insertInBlock ts failed (Working work) p
                   = (Returned q, Working (fst (execInsert ts work p)))).
Proof.
  cbn [insertInBlock]. destruct failed.
  { left. eexists. split; [reflexivity|now left]. }
  destruct (execInsert_cases ts work p)
    as [(e & He & _) | [(l & _ & _ & He) | (l & row & _ & _ & _ & He)]]; rewrite He; cbn.
  - left. exists e. split; [reflexivity|now right].
  - right. eexists. repeat split.
  - right. eexists. repeat split.
Qed.

(** A property of the relation that every INSERT keeps holds of the
    working copy as long as the block is not aborted. *)
Lemma settleFrom_preserves (P : Db -> Prop) :
  (forall db p, P db -> P (fst (execInsert ts db p))) ->
  forall ps i work,
    P work ->
    match snd (settleFrom ts fails i (Working work) ps) with
    | Working d => P d
    | Aborted => True
    end.
Proof.
  intros Hstep. induction ps as [|p rest IH]; intros i work HP; [exact HP|].
  cbn [settleFrom].
  destruct (insertInBlock_cases (fails i) work p) as [(e & -> & _)|(q & _ & _ & ->)].
  - rewrite settleFrom_aborted. exact I.
  - specialize (IH (S i) _ (Hstep work p HP)).
    destruct (settleFrom ts fails (S i) (Working (fst (execInsert ts work p))) rest).
    exact IH.
Qed.

Lemma settleBatch_preserves (P : Db -> Prop) :
  (forall db p, P db -> P (fst (execInsert ts db p))) ->
  forall ps i work, P work -> P (snd (settleBatch ts fails i work ps)).
Proof.
  intros Hstep ps i work HP. unfold settleBatch.
  pose proof (@settleFrom_preserves P Hstep ps i work HP) as Hfinal.
  destruct (settleFrom ts fails i (Working work) ps) as [rs [d|]]; [exact Hfinal|exact HP].
Qed.

Lemma settleBatch_unique (ps : list InsertParams) :
  forall i work, linksUnique work -> linksUnique (snd (settleBatch ts fails i work ps)).
Proof.
  intros i work. apply settleBatch_preserves.
  intros db p. apply execInsert_unique.
Qed.

Lemma settleBatch_keeps (l : string) (ps : list InsertParams) :
  forall i work,
    hasLink l (rows work) = true ->
    hasLink l (rows (snd (settleBatch ts fails i work ps))) = true
    /\ rowsWithLink l (snd (settleBatch ts fails i work ps)) = rowsWithLink l work.
Proof.
  intros i work Hl.
  apply (@settleBatch_preserves
           (fun d => hasLink l (rows d) = true /\ rowsWithLink l d = rowsWithLink l work)).
  - intros db p [Hhas Hn]. destruct (@execInsert_keeps ts db p l Hhas) as [H1 H2].
    split; [exact H1|congruence].
  - split; [exact Hl|reflexivity].
Qed.

(** Every settled INSERT is an insert, a skipped conflict or a failure. *)
Lemma settleFrom_partition (ps : list InsertParams) :
  forall i b,
    countIf isNew (fst (settleFrom ts fails i b ps))
    + countIf isSkipped (fst (settleFrom ts fails i b ps))
    + countIf isFailed (fst (settleFrom ts fails i b ps))
    = Z.of_nat (List.length ps).
Proof.
  unfold countIf.
  induction ps as [|p rest IH]; intros i b; [reflexivity|].
  cbn [settleFrom]. destruct b as [work|].
  - destruct (insertInBlock_cases (fails i) work p) as [(e & -> & _)|(q & _ & Hq & ->)].
    + specialize (IH (S i) Aborted).
      destruct (settleFrom ts fails (S i) Aborted rest) as [rs d]. count_settled.
    + specialize (IH (S i) (Working (fst (execInsert ts work p)))).
      destruct (settleFrom ts fails (S i) _ rest) as [rs d].
      destruct (execInsert_cases ts work p)
        as [(e & He & _) | [(l & _ & _ & He) | (l & row & _ & _ & _ & He)]];
        rewrite He in Hq; cbn in Hq; inversion Hq; subst q; count_settled.
  - cbn [insertInBlock]. specialize (IH (S i) Aborted).
    destruct (settleFrom ts fails (S i) Aborted rest) as [rs d]. count_settled.
Qed.

Lemma settleBatch_partition (ps : list InsertParams) :
  forall i work,
    countIf isNew (fst (settleBatch ts fails i work ps))
    + countIf isSkipped (fst (settleBatch ts fails i work ps))
    + countIf isFailed (fst (settleBatch ts fails i work ps))
    = Z.of_nat (List.length ps).
Proof.
  intros i work. unfold settleBatch.
  pose proof (settleFrom_partition ps i (Working work)) as H.
  destruct (settleFrom ts fails i (Working work) ps). exact H.
Qed.

(** A block is aborted exactly when one of its INSERTs was rejected;
    otherwise the working copy is the relation at its start followed by
    one row for each INSERT that reported an affected row. *)
Lemma settleFrom_outcome (ps : list InsertParams) :
  forall i work,
    match snd (settleFrom ts fails i (Working work) ps) with
    | Working d =>
        countIf isFailed (fst (settleFrom ts fails i (Working work) ps)) = 0
        /\ exists added,
             rows d = (rows work ++ added)%list
             /\ Z.of_nat (List.length added)
                = countIf isNew (fst (settleFrom ts fails i (Working work) ps))
    | Aborted => 0 < countIf isFailed (fst (settleFrom ts fails i (Working work) ps))
    end.
Proof.
  unfold countIf.
  induction ps as [|p rest IH]; intros i work.
  - cbn. split; [reflexivity|]. exists []. now rewrite app_nil_r.
  - cbn [settleFrom].
    destruct (insertInBlock_cases (fails i) work p) as [(e & -> & _)|(q & _ & Hq & ->)].
    + rewrite settleFrom_aborted. cbn [fst snd filter isFailed List.length]. lia.
    + specialize (IH (S i) (fst (execInsert ts work p))).
      destruct (settleFrom ts fails (S i) (Working (fst (execInsert ts work p))) rest)
        as [rs [d|]]; cbn [fst snd] in *.
      * destruct IH as (Hnone & added & Hrows & Hlen).
        split; [cbn [filter isFailed]; exact Hnone|].
        destruct (execInsert_cases ts work p)
          as [(e & He & _) | [(l & _ & _ & He) | (l & row & _ & _ & _ & He)]];
          rewrite He in Hq, Hrows; cbn in Hq; inversion Hq; subst q; cbn [fst rows] in Hrows.
        -- exists added. split; [exact Hrows|]. count_settled.
        -- exists (row :: added). rewrite Hrows, <- app_assoc.
           split; [reflexivity|]. count_settled.
      * cbn [filter isFailed]. exact IH.
Qed.

Lemma countIf_bounds {A} (p : A -> bool) (l : list A) :
  0 <= countIf p l <= Z.of_nat (List.length l).
Proof.
  unfold countIf. pose proof (filter_length_le p l). lia.
Qed.

End BatchFacts.

(** *** Claims about [saveJobs] *)

Section GateClaims.

Variable env : Env.
Variable faults : Faults.

(** Whatever the environment does, the relation after a batch is the
    one before it or the working copy that the INSERTs left. *)
Lemma saveJobs_store (js : list Job) (w : World) :
  committed (snd (saveJobs env faults (Some js) w)) = committed w
  \/ committed (snd (saveJobs env faults (Some js) w))
     = snd (settleBatch (now env) (insertFails faults) 0 (committed w) (batchParams env js)).
Proof.
  destruct js as [|j rest]; [left; reflexivity|].
  destruct w as [c t i o k l m].
  destruct (connectFails faults) eqn:Hc.
  { left. now rewrite saveJobs_connect_run. }
  destruct (rollbackFails faults) eqn:Hr.
  - destruct (beginFails faults) eqn:Hb.
    { left. destruct (@saveJobs_rollback_fail_run env faults j rest c t i o k l m Hc
                        (or_introl Hb) Hr) as (w' & -> & Hs & _). exact Hs. }
    destruct (commitFails faults) eqn:Hm.
    { left. destruct (@saveJobs_rollback_fail_run env faults j rest c t i o k l m Hc
                        (or_intror Hm) Hr) as (w' & -> & Hs & _). exact Hs. }
    right. now rewrite saveJobs_commit_run.
  - destruct (beginFails faults) eqn:Hb.
    { left. now rewrite saveJobs_begin_run. }
    destruct (commitFails faults) eqn:Hm.
    { left. now rewrite saveJobs_commit_fail_run. }
    right. now rewrite saveJobs_commit_run.
Qed.

End GateClaims.

(** C10. On the path on which the connection is acquired and BEGIN and
    COMMIT succeed, [saveJobs] returns counts with
    [newJobs + duplicates = jobs.length] and [0 <= newJobs <= jobs.length],
    however each INSERT of the batch resolved (insert, conflict, failure
    of its own). *)
Theorem C10_committed_counts_add_up
        (env : Env) (faults : Faults) (js : list Job) (w : World) :
  connectFails faults = false ->
  beginFails faults = false ->
  commitFails faults = false ->
  exists counts w',
    saveJobs env faults (Some js) w = (Returned counts, w')
    /\ newJobs counts + duplicates counts = Z.of_nat (List.length js)
    /\ 0 <= newJobs counts <= Z.of_nat (List.length js).
Proof.
  intros Hc Hb Hm.
  destruct js as [|j rest].
  - exists (mkCounts 0 0), w. cbn. repeat split; lia.
  - destruct w as [c t i o k l m].
    rewrite saveJobs_commit_run by assumption.
    eexists; eexists; split; [reflexivity|].
    cbn [newJobs duplicates].
    pose proof (countIf_bounds isNew
                  (fst (settleBatch (now env) (insertFails faults) 0 c
                          (batchParams env (j :: rest))))) as Hbound.
    rewrite settleBatch_length in Hbound.
    unfold batchParams in *. rewrite length_map in Hbound.
    split; lia.
Qed.

Lemma C10_committed_counts_add_up_witness :
  exists counts w',
    saveJobs sampleEnv noFaults (Some [backendJob; untitledJob; backendJob; frontendJob])
             (freshWorld emptyDb)
    = (Returned counts, w')
    /\ newJobs counts + duplicates counts = 4
    /\ 0 <= newJobs counts <= 4.
Proof.
  apply (@C10_committed_counts_add_up sampleEnv noFaults
           [backendJob; untitledJob; backendJob; frontendJob] (freshWorld emptyDb));
    reflexivity.
Defined.

(** C3, where the code departs from it.  [saveJobs] means to go on after an INSERT that fails on its
    own, and [Promise.allSettled] does swallow the rejection; but the
    INSERTs run inside one transaction, and the store aborts a
    transaction at the first statement it rejects.  On the path on
    which the connection, BEGIN and COMMIT succeed the call returns,
    [newJobs] is the number of fulfilled INSERTs with an affected-row
    count of 1 and [duplicates] the rest of the batch, skipped conflicts
    and rejected INSERTs together.  When an INSERT was rejected, nothing
    of the batch is stored: the relation is the one before the call,
    although [newJobs] reports the INSERTs that had succeeded before the
    rejection.  Only a batch without a rejected INSERT is stored, and
    then as many rows are added as [newJobs] says. *)
Theorem C3_rejected_insert_aborts_the_batch
        (env : Env) (faults : Faults) (j : Job) (rest : list Job) (w : World) :
  connectFails faults = false ->
  beginFails faults = false ->
  commitFails faults = false ->
  let settled := settleBatch (now env) (insertFails faults) 0 (committed w)
                             (batchParams env (j :: rest)) in
  exists w',
    saveJobs env faults (Some (j :: rest)) w
    = (Returned (mkCounts (countIf isNew (fst settled))
                          (countIf isSkipped (fst settled) + countIf isFailed (fst settled))),
       w')
    /\ ops w' = (ops w ++ [OpConnect; OpBegin] ++ map OpInsert (batchParams env (j :: rest))
                       ++ [OpCommit; OpRelease])%list
    /\ (0 < countIf isFailed (fst settled) -> committed w' = committed w)
    /\ (countIf isFailed (fst settled) = 0 ->
        exists added,
          rows (committed w') = (rows (committed w) ++ added)%list
          /\ Z.of_nat (List.length added) = countIf isNew (fst settled)).
Proof.
  intros Hc Hb Hm settled.
  destruct w as [c t i o k l m].
  rewrite saveJobs_commit_run by assumption.
  subst settled. cbn [committed ops].
  pose proof (settleBatch_partition (now env) (insertFails faults)
                (batchParams env (j :: rest)) 0 c) as Hpart.
  unfold batchParams in Hpart at 4. rewrite length_map in Hpart.
  replace (Z.of_nat (List.length (j :: rest))
           - countIf isNew (fst (settleBatch (now env) (insertFails faults) 0 c
                                   (batchParams env (j :: rest)))))
    with (countIf isSkipped (fst (settleBatch (now env) (insertFails faults) 0 c
                                    (batchParams env (j :: rest))))
          + countIf isFailed (fst (settleBatch (now env) (insertFails faults) 0 c
                                     (batchParams env (j :: rest))))) by lia.
  eexists. split; [reflexivity|]. cbn [committed ops]. split; [reflexivity|].
  pose proof (settleFrom_outcome (now env) (insertFails faults)
                (batchParams env (j :: rest)) 0 c) as Hout.
  unfold settleBatch.
  destruct (settleFrom (now env) (insertFails faults) 0 (Working c)
              (batchParams env (j :: rest))) as [rs [d|]]; cbn [fst snd afterCommit] in *.
  - destruct Hout as (Hnone & added & Hrows & Hlen). split; [lia|].
    intros _. now exists added.
  - split; [reflexivity|]. lia.
Qed.

(** The batch of three records of which the second has no title, saved
    to the empty relation: the first INSERT succeeds, the second
    violates NOT NULL and aborts the transaction, the third is rejected
    in the aborted transaction.  The call reports one new job and two
    duplicates, and the relation is still empty. *)
Lemma C3_rejected_insert_aborts_the_batch_witness :
  exists w',
    saveJobs sampleEnv noFaults (Some [backendJob; untitledJob; frontendJob])
             (freshWorld emptyDb)
    = (Returned (mkCounts 1 2), w')
    /\ committed w' = emptyDb.
Proof.
  destruct (@C3_rejected_insert_aborts_the_batch sampleEnv noFaults backendJob
              [untitledJob; frontendJob] (freshWorld emptyDb)
              eq_refl eq_refl eq_refl) as (w' & Hrun & _ & Hkept & _).
  exists w'. split; [exact Hrun|]. apply Hkept. vm_compute. reflexivity.
Defined.

(** C4, as the code has it.  When the connection was acquired, BEGIN or
    COMMIT fails and the ROLLBACK that the [catch] block sends succeeds,
    [saveJobs] returns zero counts, the relation is the one before the
    batch, no transaction stays open, and the error is written to the
    console. *)
Theorem C4_failed_transaction_reports_zero
        (env : Env) (faults : Faults) (j : Job) (rest : list Job) (w : World) :
  connectFails faults = false ->
  (beginFails faults || commitFails faults)%bool = true ->
  rollbackFails faults = false ->
  exists e w',
    saveJobs env faults (Some (j :: rest)) w = (Returned (mkCounts 0 0), w')
    /\ committed w' = committed w
    /\ txn w' = None
    /\ In OpRollback (ops w')
    /\ console w' = (console w ++ [LogErrorSaving e])%list.
Proof.
  intros Hc Hbm Hr.
  destruct w as [c t i o k l m].
  destruct (beginFails faults) eqn:Hb.
  - rewrite saveJobs_begin_run by assumption.
    eexists; eexists. split; [reflexivity|]. cbn [committed txn ops console].
    repeat split. rewrite in_app_iff. cbn. auto 10.
  - cbn in Hbm. rewrite saveJobs_commit_fail_run by assumption.
    eexists; eexists. split; [reflexivity|]. cbn [committed txn ops console].
    repeat split. rewrite !in_app_iff. cbn. auto 10.
Qed.

Lemma C4_failed_transaction_reports_zero_witness :
  exists e w',
    saveJobs sampleEnv commitDown (Some [backendJob; frontendJob]) (freshWorld emptyDb)
    = (Returned (mkCounts 0 0), w')
    /\ committed w' = committed (freshWorld emptyDb)
    /\ txn w' = None
    /\ In OpRollback (ops w')
    /\ console w' = (console (freshWorld emptyDb) ++ [LogErrorSaving e])%list.
Proof.
  apply (@C4_failed_transaction_reports_zero sampleEnv commitDown backendJob [frontendJob]
           (freshWorld emptyDb)); reflexivity.
Defined.

(** C4, as stated, fails: when the pool cannot hand out a connection the
    exception leaves [saveJobs], nothing is written to the console, and
    the crawl route answers 500 with the message of the exception. *)
Lemma C4_counterexample_connect_error_is_thrown :
  (exists e w',
     saveJobs sampleEnv connectDown (Some [backendJob]) (freshWorld emptyDb) = (Thrown e, w')
     /\ console w' = [])
  /\ exists w',
       postCrawl sampleEnv connectDown (fun _ _ _ _ => Returned [backendJob]) WithLinkedIn
                 (mkCrawlRequest (Some "backend") (Some "pune") (Text "naukri") None)
                 (freshWorld emptyDb)
       = (Returned (mkResponse 500 (ErrorBody "timeout exceeded when trying to connect")), w').
Proof.
  split.
  - eexists; eexists. split; reflexivity.
  - eexists. reflexivity.
Qed.

(** A batch of one record, nothing failing: the relation afterwards and
    the counts follow the one INSERT. *)
Lemma saveJobs_single (env : Env) (j : Job) (w : World) :
  committed (snd (saveJobs env noFaults (Some [j]) w))
  = fst (execInsert (now env) (committed w) (insertParams env j))
  /\ fst (saveJobs env noFaults (Some [j]) w)
     = Returned (match snd (execInsert (now env) (committed w) (insertParams env j)) with
                 | Returned q => if (rowCount q =? 1)%nat then mkCounts 1 0 else mkCounts 0 1
                 | Thrown _ => mkCounts 0 1
                 end).
Proof.
  destruct w as [c t i o k l m].
  rewrite saveJobs_commit_run by reflexivity.
  unfold settleBatch, batchParams. cbn -[execInsert]. unfold countIf.
  destruct (execInsert_cases (now env) c (insertParams env j))
    as [(e & -> & _) | [(l0 & _ & _ & ->) | (l0 & row & _ & _ & _ & ->)]];
    split; reflexivity.
Qed.

(** C1.  Under the uniqueness constraint a batch never adds a row for a
    link that is stored, whatever else happens to the batch: the
    constraint still holds afterwards and every stored link keeps its
    rows.  Persisting the same record twice, with nothing failing,
    leaves exactly one row with its link, and the second call reports it
    as a duplicate and not as an insert. *)
Theorem C1_persist_is_idempotent_on_link
        (env : Env) (faults : Faults) (js : list Job) (j : Job) (l : string) (w : World) :
  linksUnique (committed w) ->
  title j <> None ->
  company j <> None ->
  link j = Some l ->
  let w1 := snd (saveJobs env noFaults (Some [j]) w) in
  let second := saveJobs env noFaults (Some [j]) w1 in
  (linksUnique (committed (snd (saveJobs env faults (Some js) w)))
   /\ forall l', hasLink l' (rows (committed w)) = true ->
                 rowsWithLink l' (committed (snd (saveJobs env faults (Some js) w)))
                 = rowsWithLink l' (committed w))
  /\ rowsWithLink l (committed w1) = 1%nat
  /\ fst second = Returned (mkCounts 0 1)
  /\ committed (snd second) = committed w1
  /\ rowsWithLink l (committed (snd second)) = 1%nat.
Proof.
  intros Hu Ht Hco Hl w1 second.
  split.
  { destruct (saveJobs_store env faults js w) as [-> | ->].
    - split; [assumption|reflexivity].
    - split; [now apply settleBatch_unique|].
      intros l' Hl'. now apply settleBatch_keeps. }
  set (p := insertParams env j).
  assert (Hpl : p_link p = Some l) by exact Hl.
  assert (Hpt : p_title p <> None) by exact Ht.
  assert (Hpc : p_company p <> None) by exact Hco.
  assert (Hps : p_source p <> None) by (cbn; discriminate).
  (* the relation after the first call holds the link *)
  destruct (saveJobs_single env j w) as [H1 _]. fold w1 in H1. fold p in H1.
  assert (Hhas : hasLink l (rows (committed w1)) = true).
  { rewrite H1.
    destruct (execInsert_cases (now env) (committed w) p)
      as [(e & _ & [H|[H|[H|H]]]) | [(l0 & Hl0 & Hhas & ->) | (l0 & row & Hl0 & _ & Hrow & ->)]];
      try congruence.
    - cbn. congruence.
    - cbn. unfold hasLink. rewrite existsb_app. cbn.
      replace (col_link row) with l by congruence. rewrite String.eqb_refl.
      now rewrite orb_true_r. }
  assert (Huniq : linksUnique (committed w1)).
  { rewrite H1. now apply execInsert_unique. }
  split; [now apply unique_present_once|].
  (* the second call meets the conflict *)
  destruct (saveJobs_single env j w1) as [H2 Hr2]. fold second in H2, Hr2. fold p in H2, Hr2.
  destruct (execInsert_cases (now env) (committed w1) p)
    as [(e & _ & [H|[H|[H|H]]]) | [(l0 & Hl0 & _ & Hex) | (l0 & row & Hl0 & Hno & _ & _)]];
    try congruence.
  rewrite Hex in H2, Hr2. cbn [fst snd rowCount Nat.eqb] in H2, Hr2.
  split; [exact Hr2|]. split; [exact H2|].
  rewrite H2. now apply unique_present_once.
Qed.

Lemma C1_persist_is_idempotent_on_link_witness :
  let w1 := snd (saveJobs sampleEnv noFaults (Some [backendJob]) (freshWorld emptyDb)) in
  let second := saveJobs sampleEnv noFaults (Some [backendJob]) w1 in
  (linksUnique (committed (snd (saveJobs sampleEnv commitDown (Some [frontendJob; backendJob])
                                         (freshWorld emptyDb))))
   /\ forall l', hasLink l' (rows (committed (freshWorld emptyDb))) = true ->
                 rowsWithLink l' (committed (snd (saveJobs sampleEnv commitDown
                                                    (Some [frontendJob; backendJob])
                                                    (freshWorld emptyDb))))
                 = rowsWithLink l' (committed (freshWorld emptyDb)))
  /\ rowsWithLink "https://jobs.example/backend-1" (committed w1) = 1%nat
  /\ fst second = Returned (mkCounts 0 1)
  /\ committed (snd second) = committed w1
  /\ rowsWithLink "https://jobs.example/backend-1" (committed (snd second)) = 1%nat.
Proof.
  apply (@C1_persist_is_idempotent_on_link sampleEnv commitDown [frontendJob; backendJob]
           backendJob "https://jobs.example/backend-1" (freshWorld emptyDb)).
  - constructor.
  - discriminate.
  - discriminate.
  - reflexivity.
Defined.

(* ================================================================== *)
(** ** Date arithmetic                                                 *)
(* ================================================================== *)

Module JsDateFacts.
Import JsDate.

Ltac div_mod_lia :=
  unfold LocalTime, UTC, MakeDate, MakeTime, MakeDay, Day, TimeWithinDay,
    HourFromTime, MinFromTime, SecFromTime, msFromTime,
    msPerDay, msPerHour, msPerMinute, msPerSecond in *;
  Z.to_euclidean_division_equations; lia.

(** The fields of a time value put it together again. *)
Lemma time_fields (t : Z) :
  MakeDate (Day t) (MakeTime (HourFromTime t) (MinFromTime t) (SecFromTime t) (msFromTime t))
  = t.
Proof. div_mod_lia. Qed.

(** [d.setHours(d.getHours() - n)] moves the local time back by [n]
    hours. *)
Lemma setHours_back (z : Z -> bool -> Z) (t n : Z) :
  setHours z (Some t) (minus (getHours z (Some t)) n)
  = TimeClip (localBack z t (n * msPerHour)).
Proof.
  unfold setHours, getHours, minus, option_map, localBack.
  apply (f_equal (fun x => TimeClip (UTC z x))).
  pose proof (time_fields (LocalTime z t)) as H. revert H.
  generalize (LocalTime z t). intros local. div_mod_lia.
Qed.

Lemma setMinutes_back (z : Z -> bool -> Z) (t n : Z) :
  setMinutes z (Some t) (minus (getMinutes z (Some t)) n)
  = TimeClip (localBack z t (n * msPerMinute)).
Proof.
  unfold setMinutes, getMinutes, minus, option_map, localBack.
  apply (f_equal (fun x => TimeClip (UTC z x))).
  pose proof (time_fields (LocalTime z t)) as H. revert H.
  generalize (LocalTime z t). intros local. div_mod_lia.
Qed.

Lemma monthOfDay_range (leap d : Z) : 0 <= monthOfDay leap d <= 11.
Proof.
  unfold monthOfDay.
  repeat match goal with |- context [if ?b then _ else _] => destruct b end; lia.
Qed.

(** [MakeDay] of the fields of a day, with the date moved by [n], is
    the day moved by [n]. *)
Lemma MakeDay_back (t n : Z) :
  MakeDay (YearFromTime t) (MonthFromTime t) (DateFromTime t - n) = Day t - n.
Proof.
  unfold MakeDay, DateFromTime.
  pose proof (monthOfDay_range (InLeapYear t) (DayWithinYear t)) as Hm.
  fold (MonthFromTime t) in Hm.
  rewrite (Z.div_small (MonthFromTime t) 12) by lia.
  rewrite (Z.mod_small (MonthFromTime t) 12) by lia.
  rewrite Z.add_0_r.
  change (if DaysInYear (YearFromTime t) =? 366 then 1 else 0) with (InLeapYear t).
  unfold DayWithinYear. lia.
Qed.

(** [d.setDate(d.getDate() - n)] moves the local time back by [n]
    days. *)
Lemma setDate_back (z : Z -> bool -> Z) (t n : Z) :
  setDate z (Some t) (minus (getDate z (Some t)) n)
  = TimeClip (localBack z t (n * msPerDay)).
Proof.
  unfold setDate, getDate, minus, option_map, localBack.
  apply (f_equal (fun x => TimeClip (UTC z x))).
  rewrite MakeDay_back. generalize (LocalTime z t). intros local. div_mod_lia.
Qed.

(** Where no clock change lies between, moving the local time back is
    moving the instant back. *)
Lemma localBack_steady (z : Z -> bool -> Z) (t delta : Z) :
  steady z t delta -> localBack z t delta = t - delta.
Proof.
  unfold steady, localBack, UTC, LocalTime. intros ->. lia.
Qed.

Lemma fixedZone_steady (offset t delta : Z) : steady (fixedZone offset) t delta.
Proof. reflexivity. Qed.

End JsDateFacts.

(* ================================================================== *)
(** ** Page extraction                                                 *)
(* ================================================================== *)

Section ExtractionFacts.

Variable env : Env.

Lemma filterBoolean_app {A} (l1 l2 : list (option A)) :
  filterBoolean (l1 ++ l2) = (filterBoolean l1 ++ filterBoolean l2)%list.
Proof.
  induction l1 as [|[a|] r IH]; cbn; [reflexivity| now rewrite IH | exact IH].
Qed.

(** In an extractor with a [try] per node, a node that throws is left
    out and the nodes around it are extracted as if it were absent. *)
Lemma guarded_extraction_drops_the_failing_node
      {N : Type} (f : N -> Outcome Job) (before after : list N) (bad : N) (e : JsError) :
  f bad = Thrown e ->
  filterBoolean (map (fun n => orNull (f n)) (before ++ bad :: after))
  = (filterBoolean (map (fun n => orNull (f n)) before)
     ++ filterBoolean (map (fun n => orNull (f n)) after))%list.
Proof.
  intros Hbad. rewrite map_app, filterBoolean_app. cbn. now rewrite Hbad.
Qed.

Lemma extractLinkedInJobs_drops (before after : list LinkedInCard) bad e :
  linkedInCard env bad = Thrown e ->
  extractLinkedInJobs env (before ++ bad :: after)
  = (extractLinkedInJobs env before ++ extractLinkedInJobs env after)%list.
Proof. apply guarded_extraction_drops_the_failing_node. Qed.

Lemma extractShineJobs_drops (before after : list ShineCard) bad e :
  shineCard env bad = Thrown e ->
  extractShineJobs env (before ++ bad :: after)
  = (extractShineJobs env before ++ extractShineJobs env after)%list.
Proof. apply guarded_extraction_drops_the_failing_node. Qed.

(** In an extractor without a [try], the first node that throws ends
    the extraction of the page. *)
Lemma unguarded_extraction_aborts
      {N : Type} (f : N -> Outcome Job) (before after : list N) (bad : N) (e : JsError) :
  f bad = Thrown e ->
  exists e', mapThrowing f (before ++ bad :: after) = Thrown e'.
Proof.
  intros Hbad. induction before as [|n r [e' IH]]; cbn.
  - rewrite Hbad. now exists e.
  - destruct (f n) as [j|e0]; cbn; [|now exists e0].
    rewrite IH. now exists e'.
Qed.

(** The Naukri callback has nothing that throws: every tuple yields a
    record, with the defaults for what is missing. *)
Lemma naukriExtractJobs_total (page : list NaukriTuple) :
  exists js, naukriExtractJobs page = Returned js
             /\ List.length js = List.length page.
Proof.
  induction page as [|n r (js & Hjs & Hlen)].
  - now exists [].
  - unfold naukriExtractJobs in *. cbn. rewrite Hjs. cbn.
    eexists. split; [reflexivity|]. cbn. now rewrite Hlen.
Qed.

End ExtractionFacts.

(** Missing elements become the sentinel values. *)
Example linkedIn_defaults :
  linkedInCard sampleEnv linkedInBare
  = Returned (mkJob (Some "N/A") (Some "N/A") (Some "N/A") (Some "N/A") (Some [])
                    (Some "Not specified") (Some "#") (Some "LinkedIn") (Some "N/A")
                    (Some "2024-01-15T01:30:00.000Z")).
Proof. vm_compute. reflexivity. Qed.

Example hirist_defaults :
  hiristBox sampleEnv hiristBare
  = Returned (mkJob (Some "N/A") (Some "N/A") (Some "N/A") (Some "N/A") (Some [])
                    (Some "Not specified") (Some "#") (Some "Hirist.tech") (Some "N/A")
                    (Some "2024-01-15T01:30:00.000Z")).
Proof. vm_compute. reflexivity. Qed.

Example linkedIn_page :
  map postedDate (extractLinkedInJobs sampleEnv [linkedInRecent; linkedInFar; linkedInBare])
  = [Some "2024-01-13"; Some "N/A"].
Proof. vm_compute. reflexivity. Qed.

Example shine_page :
  map postedDate (extractShineJobs sampleEnv [shineFar; shineRecent])
  = [Some "2024-01-15"].
Proof. vm_compute. reflexivity. Qed.

(** C5, where the code departs from it.  On the Hirist.tech page below
    the second box carries the date text "Posted 200000000 days ago":
    [setDate] leaves the range of time values, [toISOString] throws a
    RangeError, and since the callback has no [try] the extraction of the
    whole page ends with that exception, although the boxes around it
    are extracted without fault on their own.  The LinkedIn extractor on
    the corresponding page drops the one card and keeps the other
    two. *)
Theorem C5_hirist_page_aborts_on_one_node :
  (exists j, hiristBox sampleEnv hiristRecent = Returned j)
  /\ (exists j, hiristBox sampleEnv hiristBare = Returned j)
  /\ hiristBox sampleEnv hiristFar = Thrown (mkError "RangeError" "Invalid time value")
  /\ hiristExtractJobs sampleEnv [hiristRecent; hiristFar; hiristBare]
     = Thrown (mkError "RangeError" "Invalid time value")
  /\ linkedInCard sampleEnv linkedInFar = Thrown (mkError "RangeError" "Invalid time value")
  /\ List.length (extractLinkedInJobs sampleEnv [linkedInRecent; linkedInFar; linkedInBare])
     = 2%nat.
Proof.
  repeat split; try (eexists; vm_compute; reflexivity); vm_compute; reflexivity.
Qed.

(* ================================================================== *)
(** ** Relative dates                                                  *)
(* ================================================================== *)

Lemma iso_in_range (x : Z) :
  Z.abs x <= JsDate.maxTime ->
  isoOrThrow (JsDate.TimeClip x) = Returned (JsDate.isoText x)
  /\ isoDayOrThrow (JsDate.TimeClip x) = Returned (JsDate.isoDay x).
Proof.
  intros Hx. unfold isoDayOrThrow, isoOrThrow, JsDate.TimeClip.
  destruct (Z.leb_spec (Z.abs x) JsDate.maxTime) as [_|Hgt]; [|lia].
  split; reflexivity.
Qed.

Section RelativeDates.

Variable env : Env.

Let t := now env.
Let back := JsDate.localBack (tza env) t.

(** What [extractLinkedInJobs] makes of the text of the [time]
    element, with the [Date] setters replaced by the move of the local
    time that they amount to. *)
Lemma linkedInPostedDate_subtracts (text : string) :
  let s := JsString.toLowerCase (JsString.trim text) in
  let n := countOrOne s in
  linkedInPostedDate env (Some text)
  = if JsString.includes "hour" s then
      isoOrThrow (JsDate.TimeClip (back (n * JsDate.msPerHour)))
    else if JsString.includes "day" s then
      isoDayOrThrow (JsDate.TimeClip (back (n * JsDate.msPerDay)))
    else if JsString.includes "week" s then
      isoDayOrThrow (JsDate.TimeClip (back ((n * 7) * JsDate.msPerDay)))
    else if JsString.includes "month" s then
      isoDayOrThrow (JsDate.setMonth (tza env) (Some t)
                       (Some (JsDate.MonthFromTime (JsDate.LocalTime (tza env) t) - n)))
    else if JsString.includes "minute" s then
      isoOrThrow (JsDate.TimeClip (back (n * JsDate.msPerMinute)))
    else Returned (JsString.trim text).
Proof.
  intros s n. unfold linkedInPostedDate, newDate, zone, back. fold s. fold n. fold t.
  rewrite JsDateFacts.setHours_back, !JsDateFacts.setDate_back,
    JsDateFacts.setMinutes_back.
  reflexivity.
Qed.

(** What [extractShineJobs] makes of the text of the posted-date
    element. *)
Lemma shinePostedDate_subtracts (text : string) :
  let s := JsString.trim (JsString.removeAll ["posted"; "Posted"; "ago"; newline]
                            (JsString.trim text)) in
  shinePostedDate env (Some text)
  = match JsString.matchCount "day" s with
    | Some ds => isoDayOrThrow (JsDate.TimeClip (back (countOf ds * JsDate.msPerDay)))
    | None =>
        match JsString.matchCount "week" s with
        | Some ws =>
            isoDayOrThrow (JsDate.TimeClip (back ((countOf ws * 7) * JsDate.msPerDay)))
        | None =>
            match JsString.matchCount "hour" s, JsString.matchCount "minute" s with
            | None, None => Returned s
            | _, _ => Returned (JsDate.isoDay t)
            end
        end
    end.
Proof.
  intros s. unfold shinePostedDate, relativeDay, newDate, zone, back. fold s. fold t.
  destruct (JsString.matchCount "day" s) as [ds|].
  { now rewrite JsDateFacts.setDate_back. }
  destruct (JsString.matchCount "week" s) as [ws|].
  { now rewrite JsDateFacts.setDate_back. }
  reflexivity.
Qed.

End RelativeDates.

(** C6, as the code has it.  The [Date] setters work on the local wall
    clock: [back delta] is the instant whose local time lies [delta]
    milliseconds before the local time of the evaluation instant, and
    it is the instant [delta] milliseconds earlier where no clock change
    of the host's zone lies between the two ([steady]).  In
    [extractLinkedInJobs] the trimmed, lower-cased text is searched for
    the words hour, day, week, month and minute, in this order, and [n]
    is its leading integer, 1 when there is none or when it is 0: an
    hour or minute text yields the ISO instant [n] hours or minutes
    back, a day or week text the UTC calendar date of the instant [n]
    or [7 n] days back, a month text the date that [setMonth] reaches
    [n] months back, and any other text is passed through trimmed.  So,
    without a clock change in between, "2 days" yields the date exactly
    2 days before and "3 hours" the instant exactly 3 hours before.  In
    [extractShineJobs] a text with "N day" or "N week" yields the date
    of the instant [N] or [7 N] days back; a text with "N hour" or
    "N minute" yields the date of the evaluation instant itself, nothing
    being subtracted; months are not recognised, and any other text is
    passed through, stripped of "posted", "Posted", "ago" and line
    breaks. *)
Theorem C6_relative_date_normalisation (env : Env) (text : string) :
  let t := now env in
  let back := JsDate.localBack (tza env) t in
  let s := JsString.toLowerCase (JsString.trim text) in
  let n := countOrOne s in
  let s' := JsString.trim (JsString.removeAll ["posted"; "Posted"; "ago"; newline]
                             (JsString.trim text)) in
  linkedInPostedDate env (Some text)
  = (if JsString.includes "hour" s then
       isoOrThrow (JsDate.TimeClip (back (n * JsDate.msPerHour)))
     else if JsString.includes "day" s then
       isoDayOrThrow (JsDate.TimeClip (back (n * JsDate.msPerDay)))
     else if JsString.includes "week" s then
       isoDayOrThrow (JsDate.TimeClip (back ((n * 7) * JsDate.msPerDay)))
     else if JsString.includes "month" s then
       isoDayOrThrow (JsDate.setMonth (tza env) (Some t)
                        (Some (JsDate.MonthFromTime (JsDate.LocalTime (tza env) t) - n)))
     else if JsString.includes "minute" s then
       isoOrThrow (JsDate.TimeClip (back (n * JsDate.msPerMinute)))
     else Returned (JsString.trim text))
  /\ shinePostedDate env (Some text)
     = match JsString.matchCount "day" s' with
       | Some ds => isoDayOrThrow (JsDate.TimeClip (back (countOf ds * JsDate.msPerDay)))
       | None =>
           match JsString.matchCount "week" s' with
           | Some ws =>
               isoDayOrThrow (JsDate.TimeClip (back ((countOf ws * 7) * JsDate.msPerDay)))
           | None =>
               match JsString.matchCount "hour" s', JsString.matchCount "minute" s' with
               | None, None => Returned s'
               | _, _ => Returned (JsDate.isoDay t)
               end
           end
       end
  /\ (forall delta, JsDate.steady (tza env) t delta -> back delta = t - delta)
  /\ (JsDate.steady (tza env) t (2 * JsDate.msPerDay) ->
      Z.abs (t - 2 * JsDate.msPerDay) <= JsDate.maxTime ->
      linkedInPostedDate env (Some "2 days") = Returned (JsDate.isoDay (t - 2 * JsDate.msPerDay))
      /\ shinePostedDate env (Some "2 days")
         = Returned (JsDate.isoDay (t - 2 * JsDate.msPerDay)))
  /\ (JsDate.steady (tza env) t (3 * JsDate.msPerHour) ->
      Z.abs (t - 3 * JsDate.msPerHour) <= JsDate.maxTime ->
      linkedInPostedDate env (Some "3 hours")
      = Returned (JsDate.isoText (t - 3 * JsDate.msPerHour)))
  /\ shinePostedDate env (Some "3 hours") = Returned (JsDate.isoDay t)
  /\ linkedInPostedDate env (Some " Just now ") = Returned "Just now"
  /\ shinePostedDate env (Some "Posted 1 month ago") = Returned "1 month".
Proof.
  cbv zeta. split; [apply linkedInPostedDate_subtracts|].
  split; [apply shinePostedDate_subtracts|].
  split; [intros delta; apply JsDateFacts.localBack_steady|].
  split; [|split; [|split; [|split]]].
  - intros Hsteady Hr.
    assert (Hl : linkedInPostedDate env (Some "2 days")
                 = isoDayOrThrow (JsDate.TimeClip (JsDate.localBack (tza env) (now env)
                                                     (2 * JsDate.msPerDay))))
      by (rewrite linkedInPostedDate_subtracts; reflexivity).
    assert (Hs : shinePostedDate env (Some "2 days")
                 = isoDayOrThrow (JsDate.TimeClip (JsDate.localBack (tza env) (now env)
                                                     (2 * JsDate.msPerDay))))
      by (rewrite shinePostedDate_subtracts; reflexivity).
    rewrite Hl, Hs, (JsDateFacts.localBack_steady Hsteady).
    destruct (iso_in_range _ Hr) as [_ Hd].
    split; exact Hd.
  - intros Hsteady Hr.
    assert (Hl : linkedInPostedDate env (Some "3 hours")
                 = isoOrThrow (JsDate.TimeClip (JsDate.localBack (tza env) (now env)
                                                  (3 * JsDate.msPerHour))))
      by (rewrite linkedInPostedDate_subtracts; reflexivity).
    rewrite Hl, (JsDateFacts.localBack_steady Hsteady).
    destruct (iso_in_range _ Hr) as [Hi _]. exact Hi.
  - rewrite shinePostedDate_subtracts. reflexivity.
  - rewrite linkedInPostedDate_subtracts. reflexivity.
  - rewrite shinePostedDate_subtracts. reflexivity.
Qed.

Lemma C6_relative_date_normalisation_witness :
  linkedInPostedDate sampleEnv (Some "2 days") = Returned "2024-01-13"
  /\ shinePostedDate sampleEnv (Some "2 days") = Returned "2024-01-13"
  /\ linkedInPostedDate sampleEnv (Some "3 hours") = Returned "2024-01-14T22:30:00.000Z".
Proof.
  destruct (C6_relative_date_normalisation sampleEnv "2 days")
    as (_ & _ & _ & Hdays & Hhours & _).
  assert (H2 : Z.abs (now sampleEnv - 2 * JsDate.msPerDay) <= JsDate.maxTime)
    by (vm_compute; discriminate).
  assert (H3 : Z.abs (now sampleEnv - 3 * JsDate.msPerHour) <= JsDate.maxTime)
    by (vm_compute; discriminate).
  destruct (Hdays (@JsDateFacts.fixedZone_steady _ _ _) H2) as [Hl Hs].
  split; [exact Hl|]. split; [exact Hs|].
  exact (Hhours (@JsDateFacts.fixedZone_steady _ _ _) H3).
Defined.

(** C6, as stated, fails.  In the Shine extractor, at 01:30 UTC on 15
    January 2024, the text "3 hours" yields the date of that day,
    neither the instant three hours earlier nor its date, which is the
    day before.  In the LinkedIn extractor the hours are taken off the
    wall clock of the host: at 06:00 UTC on 29 October 2023, five hours
    after the clocks of the host were put back, the text "10 hours"
    yields the instant eleven hours earlier. *)
Lemma C6_counterexample_hours_not_subtracted :
  shinePostedDate sampleEnv (Some "3 hours") = Returned "2024-01-15"
  /\ JsDate.isoText (now sampleEnv - 3 * JsDate.msPerHour) = "2024-01-14T22:30:00.000Z"
  /\ shinePostedDate sampleEnv (Some "3 hours")
     <> Returned (JsDate.isoText (now sampleEnv - 3 * JsDate.msPerHour))
  /\ shinePostedDate sampleEnv (Some "3 hours")
     <> Returned (JsDate.isoDay (now sampleEnv - 3 * JsDate.msPerHour))
  /\ linkedInPostedDate autumnEnv (Some "10 hours") = Returned "2023-10-28T19:00:00.000Z"
  /\ JsDate.isoText (now autumnEnv - 10 * JsDate.msPerHour) = "2023-10-28T20:00:00.000Z"
  /\ JsDate.isoText (now autumnEnv - 11 * JsDate.msPerHour) = "2023-10-28T19:00:00.000Z".
Proof.
  repeat split; try (vm_compute; reflexivity); vm_compute; discriminate.
Qed.

(* ================================================================== *)
(** ** The routes                                                      *)
(* ================================================================== *)

(** C7, where the code departs from it. A crawl request without a role or
    without a location (missing or empty) is answered 400, whatever its
    source is; a request whose source is a string that, lower-cased, is not
    a [case] of the [switch] is answered 400 as well, and when role and
    location are given the error message is the one that lists the sources
    of the variant. The message names every source that the variant routes,
    and the variant routes exactly these. The route does not look at the
    type of the source before it calls [source.toLowerCase()]: a source that
    is present and is no string ([null], a number, a boolean, an array or an
    object) makes the call throw a TypeError inside the [try] block, and the
    request, when it carries role and location, is answered 500 with the
    message of that error instead of 400 with the list of the sources. In
    all these cases the world is left as it was: no browser is launched and
    no storage operation is performed. *)
Theorem C7_crawl_request_validation
        (env : Env) (faults : Faults)
        (web : Source -> string -> string -> option string -> Outcome (list Job))
        (v : Variant) (req : CrawlRequest) (w : World) :
  ((falsy (cr_role req) || falsy (cr_location req))%bool = true ->
   postCrawl env faults web v req w
   = (Returned (mkResponse 400 (ErrorBody "Role and location are required")), w))
  /\ (forall given,
         requestedSource req = Text given ->
         switchSource v (JsString.toLowerCase given) = None ->
         exists message,
           postCrawl env faults web v req w
           = (Returned (mkResponse 400 (ErrorBody message)), w)
           /\ ((falsy (cr_role req) || falsy (cr_location req))%bool = false ->
               message = invalidSourceMessage v))
  /\ (forall name, In name (sourceNames v) ->
                   JsString.includes (quoted name) (invalidSourceMessage v) = true)
  /\ (forall lowered, In lowered (sourceNames v) <-> switchSource v lowered <> None)
  /\ ((forall given, requestedSource req <> Text given) ->
      exists e, lowerCased (requestedSource req) = Thrown e
                /\ errName e = "TypeError")
  /\ (forall e,
         (falsy (cr_role req) || falsy (cr_location req))%bool = false ->
         lowerCased (requestedSource req) = Thrown e ->
         postCrawl env faults web v req w
         = (Returned (mkResponse 500 (ErrorBody (errMessage e))), w)).
Proof.
  assert (Hmissing :
            (falsy (cr_role req) || falsy (cr_location req))%bool = true ->
            postCrawl env faults web v req w
            = (Returned (mkResponse 400 (ErrorBody "Role and location are required")), w)).
  { unfold postCrawl, tryCatch, falsy.
    destruct (cr_role req) as [role|], (cr_location req) as [location|];
      intros Hf; try reflexivity.
    rewrite Hf. reflexivity. }
  split; [exact Hmissing|]. split; [|split; [|split; [|split]]].
  - intros given Hgiven Hsw.
    destruct (falsy (cr_role req) || falsy (cr_location req))%bool eqn:Hf.
    + eexists. split; [now apply Hmissing|discriminate].
    + exists (invalidSourceMessage v). split; [|reflexivity].
      unfold postCrawl, tryCatch, bind, evaluated, caseOf, lowerCased, falsy in *.
      destruct (cr_role req) as [role|], (cr_location req) as [location|];
        cbn in Hf; rewrite ?orb_true_r in Hf; try discriminate.
      rewrite Hf, Hgiven, Hsw. reflexivity.
  - intros name Hin. destruct v; cbn in Hin;
      repeat (destruct Hin as [<-|Hin]; [vm_compute; reflexivity|]); destruct Hin.
  - intros lowered. unfold switchSource. split.
    + intros Hin. destruct v; cbn in Hin;
        repeat (destruct Hin as [<-|Hin]; [cbn; discriminate|]); destruct Hin.
    + destruct (String.eqb_spec lowered "naukri") as [->|_];
        [intros _; destruct v; cbn; auto|].
      destruct (String.eqb_spec lowered "shine") as [->|_];
        [intros _; destruct v; cbn; auto|].
      destruct (String.eqb_spec lowered "hirist") as [->|_];
        [intros _; destruct v; cbn; auto|].
      destruct (String.eqb_spec lowered "linkedin") as [->|_]; [|congruence].
      destruct v; [intros _; cbn; auto 6|congruence].
  - intros Hno. destruct (requestedSource req) as [| |b|n|s|] eqn:Hsrc;
      try (eexists; split; reflexivity).
    now destruct (Hno s).
  - intros e Hf Hthrown.
    unfold postCrawl, tryCatch, bind, evaluated, caseOf, falsy in *.
    destruct (cr_role req) as [role|], (cr_location req) as [location|];
      cbn in Hf; rewrite ?orb_true_r in Hf; try discriminate.
    rewrite Hf, Hthrown. reflexivity.
Qed.

(** A request without location; a request for "LinkedIn" to the
    variant that does not route it; and two requests with role and
    location whose source is [null] and the number 7. *)
Lemma C7_crawl_request_validation_witness :
  postCrawl sampleEnv noFaults (fun _ _ _ _ => Returned [backendJob]) WithoutLinkedIn
            (mkCrawlRequest (Some "backend") None (Text "naukri") None) (freshWorld emptyDb)
  = (Returned (mkResponse 400 (ErrorBody "Role and location are required")),
     freshWorld emptyDb)
  /\ (exists message,
         postCrawl sampleEnv noFaults (fun _ _ _ _ => Returned [backendJob]) WithoutLinkedIn
                   (mkCrawlRequest (Some "backend") (Some "pune") (Text "LinkedIn") None)
                   (freshWorld emptyDb)
         = (Returned (mkResponse 400 (ErrorBody message)), freshWorld emptyDb)
         /\ message = invalidSourceMessage WithoutLinkedIn)
  /\ postCrawl sampleEnv noFaults (fun _ _ _ _ => Returned [backendJob]) WithLinkedIn
               (mkCrawlRequest (Some "backend") (Some "pune") Null None) (freshWorld emptyDb)
     = (Returned (mkResponse 500
                    (ErrorBody "Cannot read properties of null (reading 'toLowerCase')")),
        freshWorld emptyDb)
  /\ postCrawl sampleEnv noFaults (fun _ _ _ _ => Returned [backendJob]) WithLinkedIn
               (mkCrawlRequest (Some "backend") (Some "pune") (Number 7) None)
               (freshWorld emptyDb)
     = (Returned (mkResponse 500 (ErrorBody "source.toLowerCase is not a function")),
        freshWorld emptyDb).
Proof.
  split; [|split; [|split]].
  - apply (@C7_crawl_request_validation sampleEnv noFaults (fun _ _ _ _ => Returned [backendJob])
             WithoutLinkedIn (mkCrawlRequest (Some "backend") None (Text "naukri") None)
             (freshWorld emptyDb)).
    reflexivity.
  - destruct (@C7_crawl_request_validation sampleEnv noFaults
                (fun _ _ _ _ => Returned [backendJob]) WithoutLinkedIn
                (mkCrawlRequest (Some "backend") (Some "pune") (Text "LinkedIn") None)
                (freshWorld emptyDb)) as (_ & Hsrc & _).
    destruct (Hsrc "LinkedIn" eq_refl eq_refl) as (message & Hrun & Hmsg).
    exists message. split; [exact Hrun|]. apply Hmsg. reflexivity.
  - destruct (@C7_crawl_request_validation sampleEnv noFaults
                (fun _ _ _ _ => Returned [backendJob]) WithLinkedIn
                (mkCrawlRequest (Some "backend") (Some "pune") Null None)
                (freshWorld emptyDb)) as (_ & _ & _ & _ & _ & Hthrown).
    exact (Hthrown _ eq_refl eq_refl).
  - destruct (@C7_crawl_request_validation sampleEnv noFaults
                (fun _ _ _ _ => Returned [backendJob]) WithLinkedIn
                (mkCrawlRequest (Some "backend") (Some "pune") (Number 7) None)
                (freshWorld emptyDb)) as (_ & _ & _ & _ & _ & Hthrown).
    exact (Hthrown _ eq_refl eq_refl).
Defined.

(** *** ILIKE with a literal between two [%] is a substring test *)

Section LikeFacts.

Lemma parseLike_literal (s r : string) :
  wildcardFree s = true -> parseLike (s ++ r) = (litItems s ++ parseLike r)%list.
Proof.
  induction s as [|c s IH]; intros Hs; [reflexivity|].
  cbn in Hs. apply andb_prop in Hs as [Hc Hrest].
  apply andb_prop in Hc as [Hc Hb]. apply andb_prop in Hc as [Hp Hu].
  apply negb_true_iff in Hp, Hu, Hb.
  cbn [append parseLike]. rewrite Hp, Hu, Hb. unfold litItems in *. cbn.
  now rewrite IH.
Qed.

Lemma likeItems_any (h : string) : likeItems [AnyString] h = true.
Proof.
  induction h as [|c h IH]; [reflexivity|].
  cbn in *. exact IH.
Qed.

Lemma lowerChar_eqb (c d : ascii) :
  Ascii.eqb (JsString.lowerChar c) (JsString.lowerChar d) = true
  <-> JsString.lowerChar c = JsString.lowerChar d.
Proof. apply Ascii.eqb_eq. Qed.

Lemma likeItems_prefix (s h : string) :
  likeItems (litItems s ++ [AnyString]) h
  = prefix (JsString.toLowerCase s) (JsString.toLowerCase h).
Proof.
  revert h. induction s as [|c s IH]; intros h.
  - cbn [litItems list_ascii_of_string map app]. rewrite likeItems_any.
    destruct h; reflexivity.
  - destruct h as [|d h]; [reflexivity|].
    unfold litItems in *. cbn [list_ascii_of_string map app likeItems].
    cbn [JsString.toLowerCase prefix].
    destruct (ascii_dec (JsString.lowerChar c) (JsString.lowerChar d)) as [Heq|Hne].
    + rewrite Heq, Ascii.eqb_refl. cbn. apply IH.
    + apply Ascii.eqb_neq in Hne. rewrite Hne. reflexivity.
Qed.

Lemma likeItems_contains (s h : string) :
  likeItems (AnyString :: litItems s ++ [AnyString]) h
  = JsString.includes (JsString.toLowerCase s) (JsString.toLowerCase h).
Proof.
  induction h as [|d h IH].
  - cbn [likeItems]. rewrite likeItems_prefix. reflexivity.
  - cbn [likeItems] in *. rewrite likeItems_prefix.
    cbn [JsString.toLowerCase JsString.includes]. f_equal. exact IH.
Qed.

(** [value ILIKE '%s%'] for a text [s] without wildcards. *)
Theorem ilike_literal_is_substring (s h : string) :
  wildcardFree s = true ->
  ilike (Some h) (likeParam s)
  = JsString.includes (JsString.toLowerCase s) (JsString.toLowerCase h).
Proof.
  intros Hs. unfold ilike, likeParam.
  change ("%" ++ s ++ "%") with (String "%" (s ++ "%")).
  cbn [parseLike]. cbn [Ascii.eqb Bool.eqb].
  rewrite parseLike_literal by assumption.
  apply likeItems_contains.
Qed.

Lemma includes_empty (h : string) : JsString.includes "" h = true.
Proof. destruct h; reflexivity. Qed.

Lemma wildcardFree_toLowerCase (s : string) :
  wildcardFree (JsString.toLowerCase s) = wildcardFree s.
Proof.
  induction s as [|c s IH]; [reflexivity|].
  cbn [JsString.toLowerCase wildcardFree]. rewrite IH. f_equal.
  unfold JsString.lowerChar.
  destruct (JsString.isUpper c) eqn:Hup; [|reflexivity].
  unfold JsString.isUpper, JsString.code in Hup.
  apply andb_prop in Hup as [Hlo Hhi].
  apply Nat.leb_le in Hlo, Hhi.
  assert (Hc : c = ascii_of_nat (nat_of_ascii c)) by now rewrite ascii_nat_embedding.
  remember (nat_of_ascii c) as n eqn:Hn. clear Hn.
  do 65 (destruct n as [|n]; [exfalso; lia|]).
  do 26 (destruct n as [|n]; [subst c; reflexivity|]).
  exfalso; lia.
Qed.

End LikeFacts.

(** *** The query routes *)

Lemma Sorted_skipn {A} (R : A -> A -> Prop) (n : nat) (l : list A) :
  Sorted R l -> Sorted R (skipn n l).
Proof.
  revert l. induction n as [|n IH]; intros l Hl; [exact Hl|].
  destruct l as [|a l]; [constructor|].
  cbn. apply IH. now inversion Hl.
Qed.

Lemma Sorted_firstn {A} (R : A -> A -> Prop) (n : nat) (l : list A) :
  Sorted R l -> Sorted R (firstn n l).
Proof.
  revert l. induction n as [|n IH]; intros l Hl; [constructor|].
  destruct l as [|a l]; [constructor|].
  cbn. inversion Hl as [|x xs Hs Hh]; subst.
  constructor; [now apply IH|].
  destruct l as [|b l]; [destruct n; constructor|].
  destruct n; [constructor|]. cbn. constructor. now inversion Hh.
Qed.

Lemma In_firstn {A} (n : nat) (l : list A) (x : A) : In x (firstn n l) -> In x l.
Proof.
  revert l. induction n as [|n IH]; intros [|a l]; cbn; try tauto.
  intros [->|H]; [now left|right; now apply IH].
Qed.

Lemma In_skipn {A} (n : nat) (l : list A) (x : A) : In x (skipn n l) -> In x l.
Proof.
  revert l. induction n as [|n IH]; intros [|a l]; cbn; try tauto.
  intros H. right. now apply IH.
Qed.

Lemma posted_sort_sorted (l : list JobRow) : Sorted postedDescRel (PostedSort.sort l).
Proof. exact (PostedSort.Sorted_sort l). Qed.

Lemma posted_sort_In (l : list JobRow) (r : JobRow) : In r (PostedSort.sort l) <-> In r l.
Proof.
  split; intros H.
  - eapply Permutation_in; [apply Permutation_sym, PostedSort.Permuted_sort|exact H].
  - eapply Permutation_in; [apply PostedSort.Permuted_sort|exact H].
Qed.

Section QueryFacts.

(** An optional clause built from a filter without wildcards is the
    substring test of the specification. *)
Lemma optionalClause_contains (c : Column) (x : option string) (r : JobRow) :
  wildcardFreeOpt x = true ->
  forallb (fun cl => evalClause cl r) (optionalClause c x)
  = containsCI x (columnOf c r).
Proof.
  intros Hx. unfold optionalClause, containsCI.
  destruct x as [s|]; [|reflexivity].
  destruct (String.eqb s ""); [reflexivity|].
  cbn. rewrite andb_true_r.
  destruct (columnOf c r) as [h|]; [|reflexivity].
  now apply ilike_literal_is_substring.
Qed.

Lemma jobsWhere_is_substringFilter (q : JobsQuery) (rs : list JobRow) :
  wildcardFreeOpt (jq_role q) = true ->
  wildcardFreeOpt (jq_location q) = true ->
  wildcardFreeOpt (jq_source q) = true ->
  selectWhere (jobsWhere q) rs
  = filter (substringFilter (jq_role q) (jq_location q) (jq_source q)) rs.
Proof.
  intros Hr Hl Hs. unfold selectWhere, jobsWhere. apply filter_ext. intros r.
  rewrite !forallb_app, !optionalClause_contains by assumption.
  unfold substringFilter. cbn. now rewrite andb_assoc.
Qed.

(** The clauses of GET /api/jobs compare text with text. *)
Lemma optionalClause_wellTyped (c : Column) (x : option string) :
  forallb wellTyped (optionalClause c x) = true.
Proof.
  unfold optionalClause. destruct x as [s|]; [|reflexivity].
  destruct (String.eqb s ""); reflexivity.
Qed.

Lemma jobsWhere_wellTyped (q : JobsQuery) : forallb wellTyped (jobsWhere q) = true.
Proof.
  unfold jobsWhere. now rewrite !forallb_app, !optionalClause_wellTyped.
Qed.

End QueryFacts.

Ltac run_query :=
  unfold getJobs, postAlert, sendEmailAlert, sendMail, tryCatch, bind, querySelect,
    queryCount, record, getWorld, throw, ret.

(** C8, as the code has it.  For filters that contain none of the LIKE
    wildcards [%] and [_] and no backslash, and for a page and a limit
    that give a non-negative LIMIT and OFFSET, GET /api/jobs answers 200
    with the rows that satisfy the case-insensitive substring tests on
    title, location and source, all of them together, ordered by
    posted_date descending and cut to the page, and with [total] the
    number of stored rows that satisfy the same tests.  A role whose
    lower-case form is "engineer" matches "Backend Engineer" and
    "Frontend Engineer"; one whose lower-case form is "backend" matches
    the first and not the second. *)
Theorem C8_jobs_filters_are_substring_matches
        (faults : Faults) (q : JobsQuery) (w : World) :
  wildcardFreeOpt (jq_role q) = true ->
  wildcardFreeOpt (jq_location q) = true ->
  wildcardFreeOpt (jq_source q) = true ->
  selectFails faults = false ->
  countFails faults = false ->
  0 <= limitOf q ->
  0 <= (pageOf q - 1) * limitOf q ->
  let matching := filter (substringFilter (jq_role q) (jq_location q) (jq_source q))
                         (rows (committed w)) in
  let total := Z.of_nat (List.length matching) in
  (exists jobs w',
     getJobs faults q w
     = (Returned (mkResponse 200
                    (JobsBody (Z.of_nat (List.length jobs)) total (pageOf q)
                              (pageCount total (limitOf q)) jobs)), w')
     /\ jobs = firstn (Z.to_nat (limitOf q))
                 (skipn (Z.to_nat ((pageOf q - 1) * limitOf q)) (PostedSort.sort matching))
     /\ Sorted postedDescRel jobs
     /\ (forall r, In r jobs ->
                   In r (rows (committed w))
                   /\ substringFilter (jq_role q) (jq_location q) (jq_source q) r = true)
     /\ committed w' = committed w)
  /\ (forall role,
        (JsString.toLowerCase role = "engineer" ->
         ilike (Some "Backend Engineer") (likeParam role) = true
         /\ ilike (Some "Frontend Engineer") (likeParam role) = true)
        /\ (JsString.toLowerCase role = "backend" ->
            ilike (Some "Backend Engineer") (likeParam role) = true
            /\ ilike (Some "Frontend Engineer") (likeParam role) = false)).
Proof.
  intros Hr Hl Hs Hsel Hcnt Hlim Hoff matching total.
  split.
  - run_query. cbn -[jobsWhere]. rewrite Hsel, jobsWhere_wellTyped. cbn -[jobsWhere].
    destruct (Z.ltb_spec (limitOf q) 0) as [Hneg|_]; [lia|].
    destruct (Z.ltb_spec ((pageOf q - 1) * limitOf q) 0) as [Hneg|_]; [lia|].
    cbn -[jobsWhere]. rewrite Hcnt. cbn -[jobsWhere].
    rewrite jobsWhere_is_substringFilter by assumption.
    fold matching. fold total.
    eexists; eexists. split; [reflexivity|].
    split; [reflexivity|]. split; [|split; [|reflexivity]].
    + apply Sorted_firstn, Sorted_skipn, posted_sort_sorted.
    + intros r Hin.
      apply In_firstn, In_skipn in Hin. apply (proj1 (posted_sort_In _ _)) in Hin.
      subst matching. apply filter_In in Hin. exact Hin.
  - intros role. split; intros Hlow.
    + assert (Hw : wildcardFree role = true)
        by (rewrite <- wildcardFree_toLowerCase, Hlow; reflexivity).
      rewrite !ilike_literal_is_substring, Hlow by assumption.
      split; reflexivity.
    + assert (Hw : wildcardFree role = true)
        by (rewrite <- wildcardFree_toLowerCase, Hlow; reflexivity).
      rewrite !ilike_literal_is_substring, Hlow by assumption.
      split; reflexivity.
Qed.

Lemma C8_jobs_filters_are_substring_matches_witness :
  exists jobs w',
    getJobs noFaults
            (mkJobsQuery (Some "ENGINEER") None None None None) (freshWorld twoRows)
    = (Returned (mkResponse 200 (JobsBody (Z.of_nat (List.length jobs)) 2 1 (Some 1) jobs)), w')
    /\ jobs = [frontendRow; backendRow].
Proof.
  destruct (@C8_jobs_filters_are_substring_matches noFaults
              (mkJobsQuery (Some "ENGINEER") None None None None) (freshWorld twoRows)
              eq_refl eq_refl eq_refl eq_refl eq_refl)
    as [(jobs & w' & Hrun & Hjobs & _) _].
  - vm_compute. discriminate.
  - vm_compute. discriminate.
  - exists jobs, w'. split; [exact Hrun|]. rewrite Hjobs. vm_compute. reflexivity.
Defined.

(** C8, as stated, fails: the role filter "b_ckend" selects the posting
    "Backend Engineer", whose title does not contain it in any case; the
    underscore of the ILIKE pattern stands for any character. *)
Lemma C8_counterexample_wildcard_in_filter :
  containsCI (Some "b_ckend") (Some "Backend Engineer") = false
  /\ exists w',
       getJobs noFaults
               (mkJobsQuery (Some "b_ckend") None None None None) (freshWorld twoRows)
       = (Returned (mkResponse 200 (JobsBody 1 1 1 (Some 1) [backendRow])), w').
Proof.
  split; [vm_compute; reflexivity|].
  eexists. vm_compute. reflexivity.
Qed.

(** C9, where the code departs from it.  The relation of [db.js] declares [posted_date] as TEXT, and
    the query of the route compares it with [NOW() - INTERVAL '24
    HOURS']: the store has no operator for the two types and rejects the
    statement.  So every request that carries an email and a role is
    answered 500: whatever is stored, no posting is selected, no mail is
    handed to the transport, and the answer with [sent] 0 for an empty
    selection is never given either. *)
Theorem C9_alert_query_is_rejected
        (faults : Faults) (req : AlertRequest) (email role : string) (w : World) :
  ar_email req = Some email ->
  ar_role req = Some role ->
  (String.eqb email "" || String.eqb role "")%bool = false ->
  exists message w',
    postAlert faults req w = (Returned (mkResponse 500 (ErrorBody message)), w')
    /\ (selectFails faults = false -> message = errMessage noSuchOperator)
    /\ mails w' = mails w
    /\ committed w' = committed w
    /\ ops w' = (ops w ++ [OpSelect])%list.
Proof.
  intros Hemail Hrole Hne. run_query. rewrite Hemail, Hrole, Hne.
  cbn -[forallb alertWhere].
  destruct (selectFails faults).
  - eexists; eexists. split; [reflexivity|]. cbn. repeat split. discriminate.
  - replace (forallb wellTyped (alertWhere role req)) with false by reflexivity.
    cbn. eexists; eexists. split; [reflexivity|]. cbn. repeat split.
Qed.

(** Two postings of the last day are stored and both match the role
    "engineer"; the alert is answered 500 and no mail is sent. *)
Lemma C9_alert_query_is_rejected_witness :
  exists w',
    postAlert noFaults (mkAlertRequest (Some "hr@example.com") (Some "engineer") None None)
              (freshWorld twoRows)
    = (Returned (mkResponse 500
                   (ErrorBody "operator does not exist: text >= timestamp with time zone")),
       w')
    /\ mails w' = [].
Proof.
  destruct (@C9_alert_query_is_rejected noFaults
              (mkAlertRequest (Some "hr@example.com") (Some "engineer") None None)
              "hr@example.com" "engineer" (freshWorld twoRows) eq_refl eq_refl eq_refl)
    as (message & w' & Hrun & Hmessage & Hmails & _).
  exists w'. rewrite (Hmessage eq_refl) in Hrun. split; [exact Hrun|exact Hmails].
Defined.

(* ================================================================== *)
(** * Further properties of the code                                   *)
(* ================================================================== *)

(** ** The persistence gate and the relation *)

Lemma execInsert_grows (ts : Z) (db : Db) (p : InsertParams) :
  exists added,
    rows (fst (execInsert ts db p)) = (rows db ++ added)%list
    /\ Z.of_nat (List.length added)
       = match snd (execInsert ts db p) with
         | Returned q => Z.of_nat (rowCount q)
         | Thrown _ => 0
         end
    /\ (snd (execInsert ts db p) = Returned (mkResult 1 [])
        \/ snd (execInsert ts db p) = Returned (mkResult 0 [])
        \/ exists e, execInsert ts db p = (db, Thrown e)).
Proof.
  destruct (execInsert_cases ts db p)
    as [(e & He & _) | [(l & _ & _ & He) | (l & row & _ & _ & _ & He)]]; rewrite He; cbn.
  - exists []. rewrite app_nil_r. repeat split. right; right. now exists e.
  - exists []. rewrite app_nil_r. repeat split. auto.
  - exists [row]. repeat split. auto.
Qed.

Section BatchGrowth.

Variable ts : Z.
Variable fails : nat -> bool.

(** The relation that COMMIT leaves is the one at BEGIN followed by new
    rows; when no INSERT was rejected there are as many of them as
    INSERTs reported one affected row. *)
Lemma settleBatch_grows (ps : list InsertParams) :
  forall i work,
  exists added,
    rows (snd (settleBatch ts fails i work ps)) = (rows work ++ added)%list
    /\ (countIf isFailed (fst (settleBatch ts fails i work ps)) = 0 ->
        Z.of_nat (List.length added) = countIf isNew (fst (settleBatch ts fails i work ps))).
Proof.
  intros i work. unfold settleBatch.
  pose proof (settleFrom_outcome ts fails ps i work) as Hout.
  destruct (settleFrom ts fails i (Working work) ps) as [rs [d|]];
    cbn [fst snd afterCommit] in *.
  - destruct Hout as (_ & added & Hrows & Hlen). exists added. split; [exact Hrows|].
    intros _. exact Hlen.
  - exists []. rewrite app_nil_r. split; [reflexivity|]. lia.
Qed.

(** A rejected INSERT leaves nothing of the batch. *)
Lemma settleBatch_aborted (ps : list InsertParams) :
  forall i work,
    0 < countIf isFailed (fst (settleBatch ts fails i work ps)) ->
    snd (settleBatch ts fails i work ps) = work.
Proof.
  intros i work. unfold settleBatch.
  pose proof (settleFrom_outcome ts fails ps i work) as Hout.
  destruct (settleFrom ts fails i (Working work) ps) as [rs [d|]];
    cbn [fst snd afterCommit] in *; [|reflexivity].
  destruct Hout as [Hnone _]. lia.
Qed.

(** With records that carry title, company, link and source, and no
    failure from outside, no INSERT of a batch is rejected. *)
Lemma settleFrom_no_failure (ps : list InsertParams) :
  (forall i, fails i = false) ->
  Forall (fun p => p_title p <> None /\ p_company p <> None
                   /\ p_link p <> None /\ p_source p <> None) ps ->
  forall i work, countIf isFailed (fst (settleFrom ts fails i (Working work) ps)) = 0.
Proof.
  intros Hf Hall. unfold countIf.
  induction Hall as [|p rest (Ht & Hc & Hl & Hs) _ IH]; intros i work; [reflexivity|].
  cbn [settleFrom].
  destruct (insertInBlock_cases ts (fails i) work p)
    as [(e & _ & [Hfail|Hex])|(q & _ & _ & ->)].
  - rewrite Hf in Hfail. discriminate.
  - destruct (execInsert_cases ts work p)
      as [(e' & _ & [H|[H|[H|H]]]) | [(l & _ & _ & He) | (l & row & _ & _ & _ & He)]];
      congruence.
  - specialize (IH (S i) (fst (execInsert ts work p))).
    destruct (settleFrom ts fails (S i) _ rest) as [rs d]. cbn in *. exact IH.
Qed.

Lemma settleBatch_no_failure (ps : list InsertParams) :
  (forall i, fails i = false) ->
  Forall (fun p => p_title p <> None /\ p_company p <> None
                   /\ p_link p <> None /\ p_source p <> None) ps ->
  forall i work, countIf isFailed (fst (settleBatch ts fails i work ps)) = 0.
Proof.
  intros Hf Hall i work. unfold settleBatch.
  pose proof (settleFrom_no_failure Hf Hall i work) as Hnone.
  destruct (settleFrom ts fails i (Working work) ps). exact Hnone.
Qed.

(** As long as the block is not aborted, the link of every record sent
    is in the working copy. *)
Lemma settleFrom_stores (ps : list InsertParams) :
  forall i work p l,
    In p ps ->
    p_link p = Some l ->
    match snd (settleFrom ts fails i (Working work) ps) with
    | Working d => hasLink l (rows d) = true
    | Aborted => True
    end.
Proof.
  induction ps as [|p0 rest IH]; intros i work p l Hin Hl; [destruct Hin|].
  cbn [settleFrom].
  destruct (insertInBlock_cases ts (fails i) work p0) as [(e & -> & _)|(q & _ & Hq & ->)].
  { rewrite settleFrom_aborted. exact I. }
  destruct Hin as [->|Hin].
  - assert (Hhas : hasLink l (rows (fst (execInsert ts work p))) = true).
    { destruct (execInsert_cases ts work p)
        as [(e & He & _) | [(l0 & Hl0 & Hhas & He) | (l0 & row & Hl0 & _ & Hrow & He)]];
        rewrite He in *; cbn in *.
      - discriminate.
      - congruence.
      - unfold hasLink. rewrite existsb_app. cbn.
        replace (col_link row) with l by congruence.
        now rewrite String.eqb_refl, orb_true_r. }
    pose proof (@settleFrom_preserves ts fails (fun d => hasLink l (rows d) = true)
                  (fun db p' H => proj1 (@execInsert_keeps ts db p' l H))
                  rest (S i) _ Hhas) as Hkeep.
    destruct (settleFrom ts fails (S i) _ rest). exact Hkeep.
  - specialize (IH (S i) (fst (execInsert ts work p0)) p l Hin Hl).
    destruct (settleFrom ts fails (S i) _ rest). exact IH.
Qed.

(** After a batch that nothing makes fail and whose records all carry
    the required columns, the link of each record is stored. *)
Lemma settleBatch_stores (ps : list InsertParams) :
  (forall i, fails i = false) ->
  Forall (fun p => p_title p <> None /\ p_company p <> None
                   /\ p_link p <> None /\ p_source p <> None) ps ->
  forall i work p l,
    In p ps ->
    p_link p = Some l ->
    hasLink l (rows (snd (settleBatch ts fails i work ps))) = true.
Proof.
  intros Hf Hall i work p l Hin Hl. unfold settleBatch.
  pose proof (settleFrom_no_failure Hf Hall i work) as Hnone.
  pose proof (settleFrom_outcome ts fails ps i work) as Hout.
  pose proof (@settleFrom_stores ps i work p l Hin Hl) as Hst.
  destruct (settleFrom ts fails i (Working work) ps) as [rs [d|]];
    cbn [fst snd afterCommit] in *; [exact Hst|lia].
Qed.

End BatchGrowth.

(** X1.  Whatever the batch and whatever fails, [saveJobs] only appends
    to the relation: the rows stored before the call are still there,
    unchanged and in the same order, and nothing is removed. *)
Theorem saveJobs_only_appends (env : Env) (faults : Faults) (jobs : option (list Job))
        (w : World) :
  isPrefixOf (rows (committed w)) (rows (committed (snd (saveJobs env faults jobs w)))).
Proof.
  destruct jobs as [js|]; [|exists []; cbn; now rewrite app_nil_r].
  destruct (saveJobs_store env faults js w) as [-> | ->].
  - exists []. now rewrite app_nil_r.
  - destruct (settleBatch_grows (now env) (insertFails faults) (batchParams env js) 0
                (committed w)) as (added & Hrows & _).
    now exists added.
Qed.

(** X2.  Once the connection is acquired it is released exactly once, as
    the last operation, whichever of BEGIN, the INSERTs, COMMIT and
    ROLLBACK the store rejects; when the pool hands out no connection
    there is nothing to release and nothing else is sent.  The failures
    are those of [Faults], statements that are answered with an error:
    the loss of the connection itself, on which the process ends, is
    not among them. *)
Theorem saveJobs_releases_the_client
        (env : Env) (faults : Faults) (j : Job) (rest : list Job) (w : World) :
  let w' := snd (saveJobs env faults (Some (j :: rest)) w) in
  if connectFails faults
  then ops w' = (ops w ++ [OpConnect])%list
  else exists mid,
      ops w' = (ops w ++ [OpConnect; OpBegin] ++ mid ++ [OpRelease])%list
      /\ ~ In OpRelease mid /\ ~ In OpConnect mid.
Proof.
  destruct w as [c t i o k l m]. cbv zeta.
  assert (Hins : forall ps, ~ In OpRelease (map OpInsert ps) /\ ~ In OpConnect (map OpInsert ps)).
  { intros ps. split; intros Hin; apply in_map_iff in Hin as (p & Hp & _); discriminate. }
  destruct (connectFails faults) eqn:Hc.
  { now rewrite saveJobs_connect_run. }
  destruct (beginFails faults) eqn:Hb.
  - destruct (rollbackFails faults) eqn:Hr.
    + exists [OpRollback].
      run_gate. rewrite Hc. step_gate. rewrite Hb. step_gate. rewrite Hr. step_gate.
      repeat rewrite <- app_assoc. split; [reflexivity|].
      split; intros [H|[]]; discriminate.
    + rewrite saveJobs_begin_run by assumption. exists [OpRollback].
      split; [reflexivity|]. split; intros [H|[]]; discriminate.
  - destruct (commitFails faults) eqn:Hm.
    + destruct (rollbackFails faults) eqn:Hr.
      * exists (map OpInsert (batchParams env (j :: rest)) ++ [OpCommit; OpRollback])%list.
        run_gate. rewrite Hc. step_gate. rewrite Hb. step_gate.
        rewrite <- (map_map (insertParams env) (queryInsert env faults)).
        rewrite allSettled_inserts. step_gate.
        rewrite Hm. step_gate. rewrite Hr. step_gate.
        repeat rewrite <- app_assoc. split; [reflexivity|].
        destruct (Hins (batchParams env (j :: rest))) as [H1 H2].
        split; intros Hin; apply in_app_or in Hin as [Hin|[Hin|[Hin|[]]]];
          try discriminate; auto.
      * rewrite saveJobs_commit_fail_run by assumption.
        exists (map OpInsert (batchParams env (j :: rest)) ++ [OpCommit; OpRollback])%list.
        repeat rewrite <- app_assoc. split; [reflexivity|].
        destruct (Hins (batchParams env (j :: rest))) as [H1 H2].
        split; intros Hin; apply in_app_or in Hin as [Hin|[Hin|[Hin|[]]]];
          try discriminate; auto.
    + rewrite saveJobs_commit_run by assumption.
      exists (map OpInsert (batchParams env (j :: rest)) ++ [OpCommit])%list.
      repeat rewrite <- app_assoc. split; [reflexivity|].
      destruct (Hins (batchParams env (j :: rest))) as [H1 H2].
      split; intros Hin; apply in_app_or in Hin as [Hin|[Hin|[]]];
        try discriminate; auto.
Qed.

Lemma insertable_params (env : Env) (j : Job) :
  insertable j = true ->
  p_title (insertParams env j) <> None /\ p_company (insertParams env j) <> None
  /\ p_link (insertParams env j) <> None /\ p_source (insertParams env j) <> None.
Proof.
  unfold insertable. cbn.
  destruct (title j), (company j), (link j); try discriminate.
  intros _. repeat split; discriminate.
Qed.

(** X3.  A batch whose records all carry title, company and link, saved
    with nothing failing over a relation that satisfies the uniqueness
    constraint, leaves the link of each of its records stored exactly
    once, however often the link occurs in the batch or occurred
    before. *)
Theorem saveJobs_stores_each_link_once
        (env : Env) (js : list Job) (w : World) (j : Job) (l : string) :
  linksUnique (committed w) ->
  forallb insertable js = true ->
  In j js ->
  link j = Some l ->
  rowsWithLink l (committed (snd (saveJobs env noFaults (Some js) w))) = 1%nat.
Proof.
  intros Hu Hall Hin Hl.
  destruct js as [|j0 rest]; [destruct Hin|].
  destruct w as [c t i o k lau m]. cbn [committed] in Hu.
  rewrite saveJobs_commit_run by reflexivity. cbn [snd committed].
  apply unique_present_once.
  - now apply settleBatch_unique.
  - apply settleBatch_stores with (p := insertParams env j).
    + reflexivity.
    + unfold batchParams. apply Forall_map, Forall_forall. intros x Hx.
      apply insertable_params. rewrite forallb_forall in Hall. now apply Hall.
    + unfold batchParams. now apply in_map.
    + exact Hl.
Qed.

Lemma saveJobs_stores_each_link_once_witness :
  rowsWithLink "https://jobs.example/backend-1"
    (committed (snd (saveJobs sampleEnv noFaults
                       (Some [backendJob; frontendJob; backendJob])
                       (freshWorld twoRows)))) = 1%nat.
Proof.
  apply (@saveJobs_stores_each_link_once sampleEnv
           [backendJob; frontendJob; backendJob] (freshWorld twoRows)
           backendJob "https://jobs.example/backend-1").
  - repeat constructor; cbn; intuition discriminate.
  - reflexivity.
  - cbn. auto.
  - reflexivity.
Defined.

Ltac run_reader :=
  unfold getHealth, readJobs, querySelectAll, queryCount, tryCatch, bind,
    record, getWorld, setCommitted, throw, ret.

(** X4.  GET /health reports the number of stored rows.  After a batch
    whose COMMIT succeeded the number it reports has grown by exactly
    the [newJobs] that [saveJobs] returned when no INSERT of the batch
    was rejected, and it has not grown at all when one was, whatever
    [newJobs] says. *)
Theorem health_count_grows_by_newJobs
        (env : Env) (faults : Faults) (js : list Job) (w : World) :
  connectFails faults = false ->
  beginFails faults = false ->
  commitFails faults = false ->
  countFails faults = false ->
  let rejected := countIf isFailed
                    (fst (settleBatch (now env) (insertFails faults) 0 (committed w)
                            (batchParams env js))) in
  exists counts w1,
    saveJobs env faults (Some js) w = (Returned counts, w1)
    /\ fst (getHealth faults w)
       = Returned (mkHealth 200 true (Some (Z.of_nat (List.length (rows (committed w))))))
    /\ fst (getHealth faults w1)
       = Returned (mkHealth 200 true
                     (Some (Z.of_nat (List.length (rows (committed w)))
                            + (if rejected =? 0 then newJobs counts else 0)))).
Proof.
  intros Hc Hb Hm Hcnt rejected.
  assert (Hhealth : forall x,
             fst (getHealth faults x)
             = Returned (mkHealth 200 true (Some (Z.of_nat (List.length (rows (committed x))))))).
  { intros x. run_reader. cbn. rewrite Hcnt. cbn.
    unfold selectWhere. cbn. now rewrite filter_true. }
  destruct js as [|j rest].
  - exists (mkCounts 0 0), w. split; [reflexivity|]. rewrite !Hhealth. cbn.
    split; [reflexivity|]. now rewrite Z.add_0_r.
  - destruct w as [c t i o k l m].
    rewrite saveJobs_commit_run by assumption.
    eexists; eexists. split; [reflexivity|]. rewrite !Hhealth.
    split; [reflexivity|]. cbn [committed newJobs] in *.
    destruct (Z.eqb_spec rejected 0) as [Hnone|Hsome].
    + destruct (settleBatch_grows (now env) (insertFails faults)
                  (batchParams env (j :: rest)) 0 c) as (added & Hrows & Hlen).
      rewrite Hrows, length_app, Nat2Z.inj_add, (Hlen Hnone). reflexivity.
    + rewrite settleBatch_aborted, Z.add_0_r; [reflexivity|].
      pose proof (countIf_bounds isFailed
                    (fst (settleBatch (now env) (insertFails faults) 0 c
                            (batchParams env (j :: rest))))) as Hbound.
      fold rejected in Hbound. fold rejected. lia.
Qed.

(** The second record has no title: the call reports one new job, and
    the count stays 0. *)
Lemma health_count_grows_by_newJobs_witness :
  fst (saveJobs sampleEnv noFaults (Some [backendJob; untitledJob; frontendJob])
                (freshWorld emptyDb)) = Returned (mkCounts 1 2)
  /\ exists counts w1,
       saveJobs sampleEnv noFaults (Some [backendJob; untitledJob; frontendJob])
                (freshWorld emptyDb) = (Returned counts, w1)
       /\ fst (getHealth noFaults w1) = Returned (mkHealth 200 true (Some (0 + 0))).
Proof.
  split; [vm_compute; reflexivity|].
  pose proof (@health_count_grows_by_newJobs sampleEnv noFaults
                [backendJob; untitledJob; frontendJob] (freshWorld emptyDb)
                eq_refl eq_refl eq_refl eq_refl) as Hgrow.
  cbv zeta in Hgrow. destruct Hgrow as (counts & w1 & Hrun & _ & Hafter).
  assert (Hrejected :
            (countIf isFailed
               (fst (settleBatch (now sampleEnv) (insertFails noFaults) 0
                       (committed (freshWorld emptyDb))
                       (batchParams sampleEnv [backendJob; untitledJob; frontendJob])))
             =? 0) = false) by (vm_compute; reflexivity).
  rewrite Hrejected in Hafter.
  exists counts, w1. split; [exact Hrun|exact Hafter].
Defined.

(** ** [readJobs] *)

(** X5.  [readJobs] never throws: when the query fails it returns the
    empty list.  When the query succeeds and the filters hold no LIKE
    wildcard, it returns every stored row that contains the given role,
    location and source (case-insensitively) and no other row, ordered
    by posted_date descending; the relation is not changed. *)
Theorem readJobs_returns_all_matches
        (faults : Faults) (filters : ReadFilters) (w : World) :
  wildcardFreeOpt (rf_role filters) = true ->
  wildcardFreeOpt (rf_location filters) = true ->
  wildcardFreeOpt (rf_source filters) = true ->
  exists found w',
    readJobs faults filters w = (Returned found, w')
    /\ committed w' = committed w
    /\ (selectFails faults = true -> found = [])
    /\ (selectFails faults = false ->
        Sorted postedDescRel found
        /\ Permutation found
             (filter (substringFilter (rf_role filters) (rf_location filters)
                                      (rf_source filters))
                     (rows (committed w)))).
Proof.
  intros Hr Hl Hs. run_reader. cbn -[PostedSort.sort].
  destruct (selectFails faults) eqn:Hsel; cbn -[PostedSort.sort].
  - eexists; eexists. split; [reflexivity|]. split; [reflexivity|].
    split; [reflexivity|discriminate].
  - eexists; eexists. split; [reflexivity|]. split; [reflexivity|].
    split; [discriminate|]. intros _.
    split; [apply posted_sort_sorted|].
    apply Permutation_sym.
    replace (filter (substringFilter (rf_role filters) (rf_location filters) (rf_source filters))
                    (rows (committed w)))
      with (selectWhere (readWhere filters) (rows (committed w))).
    + apply PostedSort.Permuted_sort.
    + apply (jobsWhere_is_substringFilter
               (mkJobsQuery (rf_role filters) (rf_location filters) (rf_source filters)
                            None None)); assumption.
Qed.

Lemma readJobs_returns_all_matches_witness :
  exists found w',
    readJobs noFaults
             (mkReadFilters (Some "engineer") None (Some "shine")) (freshWorld twoRows)
    = (Returned found, w')
    /\ found = [frontendRow].
Proof.
  destruct (@readJobs_returns_all_matches noFaults
              (mkReadFilters (Some "engineer") None (Some "shine")) (freshWorld twoRows)
              eq_refl eq_refl eq_refl) as (found & w' & Hrun & _).
  exists found, w'. split; [exact Hrun|].
  vm_compute in Hrun. now inversion Hrun.
Defined.

(** ** The crawl route beyond validation *)

Section CrawlRoute.

Variable env : Env.
Variable faults : Faults.
Variable web : Source -> string -> string -> option string -> Outcome (list Job).

Lemma postCrawl_dispatch (v : Variant) (req : CrawlRequest) (role location : string)
      (s : Source) (w : World) :
  cr_role req = Some role ->
  cr_location req = Some location ->
  (String.eqb role "" || String.eqb location "")%bool = false ->
  caseOf v (requestedSource req) = Returned (Some s) ->
  postCrawl env faults web v req w
  = tryCatch
      (jobs <- crawl web s role location (passedExperience s req) ;;
       counts <- saveJobs env faults (Some jobs) ;;
       ret (mkResponse 200
              (CrawlBody (requestedSource req) role location (Z.of_nat (List.length jobs))
                         (newJobs counts) (duplicates counts) (firstn 50 jobs))))
      (fun error => ret (mkResponse 500 (ErrorBody (errMessage error)))) w.
Proof.
  intros Hr Hl Hne Hsw. unfold postCrawl, tryCatch. rewrite Hr, Hl, Hne.
  unfold bind at 1. unfold evaluated. rewrite Hsw. reflexivity.
Qed.

(** X7.  When the crawler of a valid request ends with an exception, the
    route answers 500 with the message of that exception; the jobs seen
    before the failure are not persisted: no storage operation is
    performed. *)
Theorem postCrawl_crawler_failure_persists_nothing
        (v : Variant) (req : CrawlRequest) (role location : string) (s : Source)
        (e : JsError) (w : World) :
  cr_role req = Some role ->
  cr_location req = Some location ->
  (String.eqb role "" || String.eqb location "")%bool = false ->
  caseOf v (requestedSource req) = Returned (Some s) ->
  web s role location (passedExperience s req) = Thrown e ->
  exists w',
    postCrawl env faults web v req w
    = (Returned (mkResponse 500 (ErrorBody (errMessage e))), w')
    /\ ops w' = ops w /\ committed w' = committed w
    /\ launches w' = (launches w ++ [s])%list.
Proof.
  intros Hr Hl Hne Hsw Hweb.
  rewrite (postCrawl_dispatch v req w Hr Hl Hne Hsw).
  unfold tryCatch, bind, crawl. rewrite Hweb. cbn.
  eexists. split; [reflexivity|]. repeat split.
Qed.

(** X8.  For a valid request whose crawl succeeds and whose transaction
    commits, the answer is 200, [totalJobs] is the number of crawled
    jobs, at most 50 of them (the first ones) are returned, and
    [newJobs + duplicates = totalJobs].  When BEGIN or COMMIT fails and
    the ROLLBACK succeeds the answer is still 200, with [newJobs] and
    [duplicates] both 0 beside the same [totalJobs], and nothing is
    stored. *)
Theorem postCrawl_answer_counts
        (v : Variant) (req : CrawlRequest) (role location : string) (s : Source)
        (jobs : list Job) (w : World) :
  cr_role req = Some role ->
  cr_location req = Some location ->
  (String.eqb role "" || String.eqb location "")%bool = false ->
  caseOf v (requestedSource req) = Returned (Some s) ->
  web s role location (passedExperience s req) = Returned jobs ->
  connectFails faults = false ->
  rollbackFails faults = false ->
  exists n d w',
    postCrawl env faults web v req w
    = (Returned (mkResponse 200
                   (CrawlBody (requestedSource req) role location
                              (Z.of_nat (List.length jobs)) n d (firstn 50 jobs))), w')
    /\ (List.length (firstn 50 jobs) <= 50)%nat
    /\ (if (beginFails faults || commitFails faults)%bool
        then (n = 0 /\ d = 0 /\ committed w' = committed w)
        else n + d = Z.of_nat (List.length jobs)).
Proof.
  intros Hr Hl Hne Hsw Hweb Hc Hrb.
  rewrite (postCrawl_dispatch v req w Hr Hl Hne Hsw).
  unfold tryCatch, bind, crawl. rewrite Hweb.
  destruct w as [c t i o k l m]. cbn [committed txn insertsSent ops console launches mails].
  destruct jobs as [|j rest].
  - cbn. exists 0, 0. eexists. split; [reflexivity|]. split; [lia|].
    destruct (beginFails faults || commitFails faults)%bool; cbn; auto.
  - destruct (beginFails faults || commitFails faults)%bool eqn:Hbm.
    + assert (Hrun : exists w', saveJobs env faults (Some (j :: rest))
                                   (mkWorld c t i o k (l ++ [s]) m)
                                 = (Returned (mkCounts 0 0), w')
                                 /\ committed w' = c).
      { destruct (beginFails faults) eqn:Hb.
        - rewrite saveJobs_begin_run by assumption. eexists. split; reflexivity.
        - cbn in Hbm. rewrite saveJobs_commit_fail_run by assumption.
          eexists. split; reflexivity. }
      destruct Hrun as (w' & Hrun & Hdb).
      rewrite Hrun. cbn -[firstn List.length Z.of_nat].
      exists 0, 0, w'. split; [reflexivity|]. split; [apply firstn_le_length|].
      repeat split. exact Hdb.
    + apply orb_false_iff in Hbm as [Hb Hm].
      rewrite saveJobs_commit_run by assumption. cbn -[firstn List.length Z.of_nat].
      eexists; eexists; eexists. split; [reflexivity|].
      split; [apply firstn_le_length|]. lia.
Qed.

End CrawlRoute.

Lemma postCrawl_crawler_failure_persists_nothing_witness :
  exists w',
    postCrawl sampleEnv noFaults sampleWeb WithLinkedIn
              (mkCrawlRequest (Some "qa") (Some "delhi") (Text "SHINE") (Some "3"))
              (freshWorld twoRows)
    = (Returned (mkResponse 500 (ErrorBody "Navigation timeout of 60000 ms exceeded")), w')
    /\ ops w' = ops (freshWorld twoRows) /\ committed w' = committed (freshWorld twoRows)
    /\ launches w' = (launches (freshWorld twoRows) ++ [Shine])%list.
Proof.
  apply (@postCrawl_crawler_failure_persists_nothing sampleEnv noFaults sampleWeb WithLinkedIn
           (mkCrawlRequest (Some "qa") (Some "delhi") (Text "SHINE") (Some "3"))
           "qa" "delhi" Shine
           (mkError "TimeoutError" "Navigation timeout of 60000 ms exceeded")
           (freshWorld twoRows)); reflexivity.
Defined.

Lemma postCrawl_answer_counts_witness :
  exists n d w',
    postCrawl sampleEnv commitDown sampleWeb WithLinkedIn
              (mkCrawlRequest (Some "backend") (Some "pune") Missing None) (freshWorld emptyDb)
    = (Returned (mkResponse 200
                   (CrawlBody (Text "naukri") "backend" "pune" 61 n d (repeat backendJob 50))), w')
    /\ n = 0 /\ d = 0 /\ committed w' = emptyDb.
Proof.
  destruct (@postCrawl_answer_counts sampleEnv commitDown sampleWeb WithLinkedIn
              (mkCrawlRequest (Some "backend") (Some "pune") Missing None)
              "backend" "pune" Naukri (repeat backendJob 60 ++ [frontendJob])%list
              (freshWorld emptyDb) eq_refl eq_refl eq_refl eq_refl eq_refl eq_refl eq_refl)
    as (n & d & w' & Hrun & _ & Hzero).
  exists n, d, w'. split; [exact Hrun|]. exact Hzero.
Defined.

(** ** Paging of GET /api/jobs *)

Lemma skipn_skipn {A} (a b : nat) (l : list A) : skipn a (skipn b l) = skipn (b + a) l.
Proof.
  revert l. induction b as [|b IH]; intros l; [reflexivity|].
  destruct l as [|x l]; [now rewrite !skipn_nil|]. cbn. apply IH.
Qed.

(** Cutting a list into [k] consecutive pieces of [n] elements loses
    nothing when [k * n] reaches its length. *)
Lemma pages_cover {A} (n : nat) (k : nat) :
  forall l : list A,
    (List.length l <= k * n)%nat ->
    List.concat (map (fun i => firstn n (skipn (i * n) l)) (seq 0 k)) = l.
Proof.
  induction k as [|k IH]; intros l Hlen.
  - cbn in *. destruct l; [reflexivity|cbn in Hlen; lia].
  - cbn [seq map List.concat]. rewrite <- seq_shift, map_map.
    transitivity (firstn n l ++ skipn n l)%list; [|apply firstn_skipn].
    f_equal.
    assert (Hrest : (List.length (skipn n l) <= k * n)%nat)
      by (rewrite length_skipn; cbn in Hlen; lia).
    etransitivity; [|apply (IH (skipn n l) Hrest)].
    f_equal. apply map_ext. intros i. f_equal.
    rewrite skipn_skipn. reflexivity.
Qed.

Lemma pageCount_is_ceiling (total limit : Z) :
  0 < limit -> 0 <= total ->
  exists k, pageCount total limit = Some k
            /\ 0 <= k /\ (k - 1) * limit < total + (if total =? 0 then 1 else 0)
            /\ total <= k * limit.
Proof.
  intros Hl Ht. unfold pageCount.
  destruct (Z.eqb_spec limit 0) as [->|_]; [lia|].
  eexists. split; [reflexivity|].
  destruct (Z.eqb_spec total 0) as [->|Hnz].
  - rewrite Z.opp_0, Z.div_0_l by lia. lia.
  - Z.to_euclidean_division_equations. nia.
Qed.

Section Paging.

Variable faults : Faults.

(** The jobs of one page, for a page number from 1 on. *)
Lemma jobsOfPage_slice (q : JobsQuery) (w : World) (p : Z) :
  selectFails faults = false ->
  countFails faults = false ->
  0 <= limitOf q ->
  1 <= p ->
  jobsOfPage faults q w p
  = firstn (Z.to_nat (limitOf q))
      (skipn (Z.to_nat ((p - 1) * limitOf q))
         (PostedSort.sort (selectWhere (jobsWhere q) (rows (committed w))))).
Proof.
  intros Hsel Hcnt Hlim Hp. unfold jobsOfPage. run_query.
  unfold pageOf, limitOf in *. cbn [jq_page jq_limit].
  cbn -[firstn skipn PostedSort.sort selectWhere Z.to_nat Z.mul Z.sub Z.ltb pageCount
        jobsWhere forallb].
  rewrite Hsel, !jobsWhere_wellTyped.
  cbn -[firstn skipn PostedSort.sort selectWhere Z.to_nat Z.mul Z.sub Z.ltb pageCount].
  destruct (Z.ltb_spec (match jq_limit q with Some l => l | None => 20 end) 0) as [Hneg|_];
    [lia|].
  destruct (Z.ltb_spec ((p - 1) * match jq_limit q with Some l => l | None => 20 end) 0)
    as [Hneg|_]; [nia|].
  cbn -[firstn skipn PostedSort.sort selectWhere Z.to_nat Z.mul Z.sub Z.ltb pageCount].
  rewrite Hcnt.
  cbn -[firstn skipn PostedSort.sort selectWhere Z.to_nat Z.mul Z.sub Z.ltb pageCount].
  reflexivity.
Qed.

(** X9.  [ORDER BY posted_date DESC] has no tie-breaker, and each page
    is a query of its own: rows with the same posted_date may come in
    any order, and in a different one for each page.  Where the
    matching rows have pairwise different posted dates the order is
    determined, and with a positive limit the pages of GET /api/jobs
    partition the result: [pages] is the ceiling of [total / limit]; the
    jobs of pages 1 to [pages], one after the other, are all the
    matching rows in posted_date order, each once; and every later page
    is empty. *)
Theorem getJobs_pages_partition_the_matches (q : JobsQuery) (w : World) :
  selectFails faults = false ->
  countFails faults = false ->
  0 < limitOf q ->
  NoDup (map col_posted_date (selectWhere (jobsWhere q) (rows (committed w)))) ->
  let sorted := PostedSort.sort (selectWhere (jobsWhere q)
                                             (rows (committed w))) in
  let total := Z.of_nat (List.length sorted) in
  exists pages,
    pageCount total (limitOf q) = Some pages
    /\ 0 <= pages
    /\ total <= pages * limitOf q
    /\ (0 < total -> (pages - 1) * limitOf q < total)
    /\ List.concat (map (jobsOfPage faults q w) (pageNumbers (Z.to_nat pages)))
       = sorted
    /\ forall p, pages < p -> jobsOfPage faults q w p = [].
Proof.
  intros Hsel Hcnt Hlim _ sorted total.
  destruct (@pageCount_is_ceiling total (limitOf q) Hlim) as (pages & Hpc & H0 & Hlow & Hup);
    [subst total; lia|].
  exists pages. split; [exact Hpc|]. split; [exact H0|]. split; [exact Hup|].
  split; [|split].
  - intros Hpos. destruct (Z.eqb_spec total 0); lia.
  - unfold pageNumbers. rewrite map_map.
    erewrite map_ext.
    + apply (pages_cover (Z.to_nat (limitOf q)) (Z.to_nat pages) sorted).
      subst total. nia.
    + intros i. cbv beta. rewrite jobsOfPage_slice by (assumption || lia). fold sorted.
      f_equal. f_equal. lia.
  - intros p Hp. rewrite jobsOfPage_slice by (assumption || lia). fold sorted.
    rewrite skipn_all2; [now rewrite firstn_nil|].
    subst total. nia.
Qed.

End Paging.

Lemma getJobs_pages_partition_the_matches_witness :
  exists pages,
    pageCount 2 1 = Some pages
    /\ List.concat (map (jobsOfPage noFaults
                                    (mkJobsQuery (Some "engineer") None None None (Some 1))
                                    (freshWorld twoRows))
                        (pageNumbers (Z.to_nat pages)))
       = [frontendRow; backendRow].
Proof.
  destruct (@getJobs_pages_partition_the_matches noFaults
              (mkJobsQuery (Some "engineer") None None None (Some 1)) (freshWorld twoRows)
              eq_refl eq_refl eq_refl) as (pages & Hpc & _ & _ & _ & Hcat & _).
  { vm_compute. repeat constructor; cbn; intuition discriminate. }
  exists pages. split; [exact Hpc|]. rewrite Hcat. vm_compute. reflexivity.
Defined.

(** X10.  Edge cases of GET /api/jobs.  A page and limit that give a
    negative LIMIT or OFFSET (page 0 with a positive limit, a negative
    limit) make the SELECT fail: the answer is 500 and the count query
    is never sent.  A limit of 0 is answered 200 with no jobs and no
    page count, [total] still being the number of matching rows. *)
Theorem getJobs_edge_cases
        (faults : Faults) (q : JobsQuery) (w : World) :
  selectFails faults = false ->
  countFails faults = false ->
  ((limitOf q < 0 \/ (pageOf q - 1) * limitOf q < 0) ->
   exists message w',
     getJobs faults q w
     = (Returned (mkResponse 500 (ErrorBody message)), w')
     /\ ops w' = (ops w ++ [OpSelect])%list)
  /\ (limitOf q = 0 ->
      exists w',
        getJobs faults q w
        = (Returned (mkResponse 200
                       (JobsBody 0
                          (Z.of_nat (List.length (selectWhere (jobsWhere q)
                                                              (rows (committed w)))))
                          (pageOf q) None [])), w')).
Proof.
  intros Hsel Hcnt. split.
  - intros Hneg. run_query.
    cbn -[firstn skipn PostedSort.sort selectWhere Z.to_nat Z.mul Z.sub Z.ltb pageCount
          jobsWhere forallb].
    rewrite Hsel, jobsWhere_wellTyped.
    cbn -[firstn skipn PostedSort.sort selectWhere Z.to_nat Z.mul Z.sub Z.ltb pageCount].
    destruct (Z.ltb_spec (limitOf q) 0) as [H1|H1].
    + cbn. eexists; eexists. split; reflexivity.
    + destruct (Z.ltb_spec ((pageOf q - 1) * limitOf q) 0) as [H2|H2]; [|lia].
      cbn. eexists; eexists. split; reflexivity.
  - intros Hzero. run_query.
    cbn -[firstn skipn PostedSort.sort selectWhere Z.to_nat Z.mul Z.sub Z.ltb pageCount
          jobsWhere forallb].
    rewrite Hsel, !jobsWhere_wellTyped, Hzero. rewrite Z.mul_0_r.
    cbn -[PostedSort.sort selectWhere jobsWhere]. rewrite Hcnt.
    cbn -[PostedSort.sort selectWhere jobsWhere]. eexists. reflexivity.
Qed.

Lemma getJobs_edge_cases_witness :
  (exists message w',
     getJobs noFaults
             (mkJobsQuery None None None (Some 0) None) (freshWorld twoRows)
     = (Returned (mkResponse 500 (ErrorBody message)), w')
     /\ ops w' = [OpSelect])
  /\ exists w',
       getJobs noFaults
               (mkJobsQuery None None None (Some 3) (Some 0)) (freshWorld twoRows)
       = (Returned (mkResponse 200 (JobsBody 0 2 3 None [])), w').
Proof.
  split.
  - destruct (@getJobs_edge_cases noFaults
                (mkJobsQuery None None None (Some 0) None) (freshWorld twoRows)
                eq_refl eq_refl) as [Hneg _].
    apply Hneg. right. vm_compute. reflexivity.
  - destruct (@getJobs_edge_cases noFaults
                (mkJobsQuery None None None (Some 3) (Some 0)) (freshWorld twoRows)
                eq_refl eq_refl) as [_ Hzero].
    apply Hzero. reflexivity.
Defined.

(** X11.  POST /api/alert without an email or without a role (missing
    or empty) is answered 400 and nothing happens: no query is sent and
    no mail is handed over.  When the SELECT fails the answer is 500
    with the message of the failure and no mail is handed over. *)
Theorem postAlert_rejects_without_delivery
        (faults : Faults) (req : AlertRequest) (w : World) :
  ((falsy (ar_email req) || falsy (ar_role req))%bool = true ->
   postAlert faults req w
   = (Returned (mkResponse 400 (ErrorBody "Email and role are required")), w))
  /\ ((falsy (ar_email req) || falsy (ar_role req))%bool = false ->
      selectFails faults = true ->
      exists message w',
        postAlert faults req w
        = (Returned (mkResponse 500 (ErrorBody message)), w')
        /\ mails w' = mails w /\ committed w' = committed w).
Proof.
  unfold falsy. split.
  - intros Hf. unfold postAlert, tryCatch.
    destruct (ar_email req) as [email|], (ar_role req) as [role|]; try reflexivity.
    rewrite Hf. reflexivity.
  - intros Hf Hsel. run_query.
    destruct (ar_email req) as [email|], (ar_role req) as [role|];
      cbn in Hf; rewrite ?orb_true_r in Hf; try discriminate.
    rewrite Hf. cbn -[firstn PostedSort.sort selectWhere alertWhere Z.to_nat].
    rewrite Hsel. cbn. eexists; eexists. split; [reflexivity|]. split; reflexivity.
Qed.

Lemma postAlert_rejects_without_delivery_witness :
  postAlert noFaults
            (mkAlertRequest (Some "") (Some "engineer") None None) (freshWorld twoRows)
  = (Returned (mkResponse 400 (ErrorBody "Email and role are required")), freshWorld twoRows).
Proof.
  apply (@postAlert_rejects_without_delivery noFaults
           (mkAlertRequest (Some "") (Some "engineer") None None) (freshWorld twoRows)).
  reflexivity.
Defined.

(** ** What the extractors hand to the gate *)

Lemma orElse_filled (x : option string) (d : string) :
  String.eqb d "" = false -> filled (Some (orElse x d)) = true.
Proof.
  intros Hd. unfold filled, orElse.
  destruct x as [s|]; [|now rewrite Hd].
  destruct (String.eqb s "") eqn:Hs; [now rewrite Hd|now rewrite Hs].
Qed.

Lemma textOr_filled (x : option string) (d : string) :
  String.eqb d "" = false -> filled (Some (textOr x d)) = true.
Proof. intros Hd. unfold textOr. now apply orElse_filled. Qed.

Ltac fill_fields :=
  unfold coreFilled; cbn [title company experience location link];
  rewrite ?textOr_filled, ?orElse_filled by reflexivity; reflexivity.

(** The two guarded callbacks fill the core fields. *)
Lemma extracted_core_aux (env : Env) :
  (forall c j, linkedInCard env c = Returned j -> coreFilled j = true)
  /\ (forall c j, shineCard env c = Returned j -> coreFilled j = true).
Proof.
  split.
  - intros c j. unfold linkedInCard.
    destruct (linkedInPostedDate env (li_time c)) as [d|e]; [|discriminate].
    cbn -[textOr orElse]. intros Hj. inversion Hj. fill_fields.
  - intros c j. unfold shineCard.
    destruct (shinePostedDate env (sh_posted c)) as [d|e];
      [|destruct (sh_details c) as [|? [|? [|? ?]]]; discriminate].
    destruct (sh_details c) as [|d0 [|d1 [|d2 ds]]]; cbn -[textOr orElse];
      intros Hj; inversion Hj; fill_fields.
Qed.

(** X12.  Every record that an extractor produces has a non-empty
    title, company, experience, location and link, whatever the node
    lacks, and names its source where the callback sets one. *)
Theorem extracted_records_have_core_fields (env : Env) :
  (forall c j, linkedInCard env c = Returned j ->
               coreFilled j = true /\ source j = Some "LinkedIn")
  /\ (forall c j, shineCard env c = Returned j ->
                  coreFilled j = true /\ source j = Some "Shine")
  /\ (forall c j, hiristBox env c = Returned j ->
                  coreFilled j = true /\ source j = Some "Hirist.tech")
  /\ (forall c j j', naukriTuple c = Returned j -> naukriFinish env j = Returned j' ->
                     coreFilled j' = true /\ source j' = Some "Naukri").
Proof.
  split; [|split; [|split]].
  - intros c j. unfold linkedInCard.
    destruct (linkedInPostedDate env (li_time c)) as [d|e]; [|discriminate].
    cbn -[textOr orElse]. intros Hj. inversion Hj. split; [fill_fields|reflexivity].
  - intros c j. unfold shineCard.
    destruct (shinePostedDate env (sh_posted c)) as [d|e];
      [|destruct (sh_details c) as [|? [|? [|? ?]]]; discriminate].
    destruct (sh_details c) as [|d0 [|d1 [|d2 ds]]]; cbn -[textOr orElse];
      intros Hj; inversion Hj; (split; [fill_fields|reflexivity]).
  - intros c j. unfold hiristBox.
    destruct (hiristPostedDate env (hi_date c)) as [d|e]; [|discriminate].
    cbn -[textOr orElse]. intros Hj. inversion Hj. split; [fill_fields|reflexivity].
  - intros c j j' Hj Hf. unfold naukriTuple in Hj. inversion Hj. subst j. clear Hj.
    unfold naukriFinish in Hf. cbn -[textOr orElse] in Hf. inversion Hf.
    split; [fill_fields|reflexivity].
Qed.

Lemma extracted_records_have_core_fields_witness :
  coreFilled (mkJob (Some "N/A") (Some "N/A") (Some "N/A") (Some "N/A") (Some [])
                    (Some "Not specified") (Some "#") (Some "LinkedIn") (Some "N/A")
                    (Some "2024-01-15T01:30:00.000Z")) = true.
Proof.
  destruct (extracted_records_have_core_fields sampleEnv) as [Hli _].
  apply (Hli linkedInBare). vm_compute. reflexivity.
Defined.

Lemma coreFilled_insertable (j : Job) : coreFilled j = true -> insertable j = true.
Proof.
  unfold coreFilled, insertable, filled.
  destruct (title j), (company j), (link j); cbn; try discriminate;
    rewrite ?andb_false_r; try discriminate; reflexivity.
Qed.

Lemma guarded_all {N : Type} (f : N -> Outcome Job) (P : Job -> Prop) (page : list N) :
  (forall n j, f n = Returned j -> P j) ->
  Forall P (filterBoolean (map (fun n => orNull (f n)) page)).
Proof.
  intros Hf. induction page as [|n rest IH]; cbn; [constructor|].
  destruct (f n) as [j|e] eqn:Hn; cbn; [|exact IH].
  constructor; [now apply (Hf n)|exact IH].
Qed.

(** X13.  Saving what [extractLinkedInJobs] or [extractShineJobs]
    returned for a page, with nothing failing from outside, rejects no
    INSERT: the call returns, [newJobs + duplicates] is the number of
    extracted records, and [duplicates] is exactly the number of
    records skipped for a link conflict. *)
Theorem saving_an_extracted_page_counts_conflicts (env : Env) (w : World) :
  forall js,
    (exists page, js = extractLinkedInJobs env page)
    \/ (exists page, js = extractShineJobs env page) ->
    let settled := settleBatch (now env) (insertFails noFaults) 0 (committed w)
                               (batchParams env js) in
    exists counts w',
      saveJobs env noFaults (Some js) w = (Returned counts, w')
      /\ countIf isFailed (fst settled) = 0
      /\ duplicates counts = countIf isSkipped (fst settled)
      /\ newJobs counts + duplicates counts = Z.of_nat (List.length js).
Proof.
  intros js Hfrom settled.
  assert (Hall : Forall (fun j => insertable j = true) js).
  { destruct (extracted_core_aux env) as [Hli Hsh].
    destruct Hfrom as [(page & ->)|(page & ->)].
    - apply guarded_all. intros n j Hj. apply coreFilled_insertable. now apply (Hli n).
    - apply guarded_all. intros n j Hj. apply coreFilled_insertable. now apply (Hsh n). }
  assert (Hnone : countIf isFailed (fst settled) = 0).
  { subst settled. apply settleBatch_no_failure; [reflexivity|].
    unfold batchParams. apply Forall_map.
    eapply Forall_impl; [|exact Hall]. intros j Hj. now apply insertable_params. }
  destruct js as [|j rest].
  - exists (mkCounts 0 0), w. repeat split; reflexivity.
  - destruct w as [c t i o k l m].
    rewrite saveJobs_commit_run by reflexivity.
    eexists; eexists. split; [reflexivity|]. split; [exact Hnone|].
    cbn [newJobs duplicates committed] in *.
    pose proof (settleBatch_partition (now env) (insertFails noFaults)
                  (batchParams env (j :: rest)) 0 c) as Hpart.
    unfold batchParams in Hpart at 4. rewrite length_map in Hpart.
    subst settled. split; lia.
Qed.

Lemma saving_an_extracted_page_counts_conflicts_witness :
  exists counts w',
    saveJobs sampleEnv noFaults
             (Some (extractLinkedInJobs sampleEnv [linkedInBare; linkedInFar; linkedInBare]))
             (freshWorld emptyDb) = (Returned counts, w')
    /\ newJobs counts = 1 /\ duplicates counts = 1.
Proof.
  destruct (@saving_an_extracted_page_counts_conflicts sampleEnv (freshWorld emptyDb)
              (extractLinkedInJobs sampleEnv [linkedInBare; linkedInFar; linkedInBare])
              (or_introl (ex_intro _ [linkedInBare; linkedInFar; linkedInBare] eq_refl)))
    as (counts & w' & Hrun & _).
  exists counts, w'. split; [exact Hrun|].
  vm_compute in Hrun. inversion Hrun. split; reflexivity.
Defined.

(** X14.  The two extractors that guard each node with a [try] satisfy
    what the specification asks of all four: a card whose extraction
    throws is left out, and the cards before and after it are extracted
    exactly as if it were not on the page. *)
Theorem guarded_extractors_drop_only_the_failing_card (env : Env) :
  (forall before bad after e,
      linkedInCard env bad = Thrown e ->
      extractLinkedInJobs env (before ++ bad :: after)
      = extractLinkedInJobs env (before ++ after))
  /\ (forall before bad after e,
         shineCard env bad = Thrown e ->
         extractShineJobs env (before ++ bad :: after)
         = extractShineJobs env (before ++ after)).
Proof.
  split; intros before bad after e Hbad.
  - unfold extractLinkedInJobs. rewrite !map_app, !filterBoolean_app. cbn. now rewrite Hbad.
  - unfold extractShineJobs. rewrite !map_app, !filterBoolean_app. cbn. now rewrite Hbad.
Qed.

Lemma guarded_extractors_drop_only_the_failing_card_witness :
  extractLinkedInJobs sampleEnv ([linkedInRecent] ++ linkedInFar :: [linkedInBare])
  = extractLinkedInJobs sampleEnv ([linkedInRecent] ++ [linkedInBare]).
Proof.
  destruct (guarded_extractors_drop_only_the_failing_card sampleEnv) as [Hli _].
  apply (Hli [linkedInRecent] linkedInFar [linkedInBare]
             (mkError "RangeError" "Invalid time value")).
  vm_compute. reflexivity.
Defined.

(** ** Counts read by the regular expressions *)

Lemma span_digits (s : string) :
  allDigits (fst (JsString.span JsString.isDigit s)) = true.
Proof.
  induction s as [|c r IH]; [reflexivity|].
  cbn. destruct (JsString.isDigit c) eqn:Hc; [|reflexivity].
  destruct (JsString.span JsString.isDigit r) as [a b]. cbn in *. now rewrite Hc, IH.
Qed.

Lemma matchCountAt_numeral (unit s ds : string) :
  JsString.matchCountAt unit s = Some ds -> isNumeral ds = true.
Proof.
  unfold JsString.matchCountAt, isNumeral.
  pose proof (span_digits s) as Hd.
  destruct (JsString.span JsString.isDigit s) as [a b]. cbn in Hd.
  destruct a as [|c a']; [discriminate|].
  destruct (JsString.span JsString.isWhite b) as [ws r'].
  destruct ws; [discriminate|].
  destruct (prefix unit r'); [|discriminate].
  intros Heq. inversion Heq. subst ds. now rewrite Hd.
Qed.

Lemma matchCount_numeral (unit s ds : string) :
  JsString.matchCount unit s = Some ds -> isNumeral ds = true.
Proof.
  induction s as [|c r IH]; cbn [JsString.matchCount].
  - destruct (JsString.matchCountAt unit "") eqn:Hat; [|discriminate].
    intros Heq. inversion Heq. subst. now apply (matchCountAt_numeral unit "").
  - destruct (JsString.matchCountAt unit (String c r)) eqn:Hat.
    + intros Heq. inversion Heq. subst. now apply (matchCountAt_numeral unit (String c r)).
    + exact IH.
Qed.

Lemma decimalFrom_nonneg (s : string) :
  allDigits s = true -> forall acc, 0 <= acc -> 0 <= JsString.decimalFrom acc s.
Proof.
  induction s as [|c r IH]; intros Hs acc Hacc; [exact Hacc|].
  cbn [allDigits JsString.decimalFrom] in *.
  apply andb_prop in Hs as [Hc Hr]. apply IH; [assumption|].
  unfold JsString.digitValue, JsString.isDigit in *.
  apply andb_prop in Hc as [Hlo _]. apply Nat.leb_le in Hlo. lia.
Qed.

Lemma span_all_digits (s : string) :
  allDigits s = true -> JsString.span JsString.isDigit s = (s, EmptyString).
Proof.
  induction s as [|c r IH]; intros Hs; [reflexivity|].
  cbn in *. apply andb_prop in Hs as [Hc Hr]. now rewrite Hc, IH.
Qed.

(** [parseInt] of a numeral is its decimal value. *)
Lemma parseInt_numeral (ds : string) :
  isNumeral ds = true ->
  JsString.parseInt ds = Some (JsString.decimal ds) /\ 0 <= JsString.decimal ds.
Proof.
  unfold isNumeral. intros Hn. apply andb_prop in Hn as [Hd Hne].
  split; [|now apply decimalFrom_nonneg].
  destruct ds as [|c r]; [discriminate|].
  assert (Hc : JsString.isDigit c = true) by (cbn in Hd; now apply andb_prop in Hd as [H _]).
  assert (Hspan := span_all_digits _ Hd).
  unfold JsString.parseInt.
  assert (Hw : JsString.isWhite c = false).
  { unfold JsString.isDigit, JsString.isWhite in *.
    apply andb_prop in Hc as [Hlo Hhi]. apply Nat.leb_le in Hlo, Hhi.
    apply orb_false_iff. split.
    - apply andb_false_iff. right. apply Nat.leb_gt. lia.
    - apply Nat.eqb_neq. lia. }
  cbn [JsString.trimStart]. rewrite Hw.
  assert (Hsign : c <> "-"%char /\ c <> "+"%char).
  { split; intros ->; discriminate. }
  destruct Hsign as [Hm Hp].
  assert (Hun : JsString.parseIntUnsigned (String c r) = Some (JsString.decimal (String c r))).
  { unfold JsString.parseIntUnsigned.
    destruct (Ascii.eqb_spec c "0") as [->|Hz].
    - destruct r as [|x r'].
      + reflexivity.
      + assert (Hx : JsString.isDigit x = true).
        { cbn in Hd. apply andb_prop in Hd as [_ Hd]. now apply andb_prop in Hd as [H _]. }
        assert (Hnx : (Ascii.eqb x "x" || Ascii.eqb x "X")%bool = false).
        { apply orb_false_iff. split; apply Ascii.eqb_neq; intros ->; discriminate. }
        cbn [Ascii.eqb]. rewrite Hnx, Hspan. reflexivity.
    - rewrite Hspan.
      destruct c as [[] [] [] [] [] [] [] []]; try reflexivity; congruence. }
  destruct c as [[] [] [] [] [] [] [] []]; try exact Hun; congruence.
Qed.

Lemma countOf_nonneg (unit s ds : string) :
  JsString.matchCount unit s = Some ds -> 0 <= countOf ds.
Proof.
  intros Hm. apply matchCount_numeral in Hm.
  destruct (parseInt_numeral ds Hm) as [Hp Hn]. unfold countOf. now rewrite Hp.
Qed.

Lemma isoDay_of_clip (x : Z) (s : string) :
  isoDayOrThrow (JsDate.TimeClip x) = Returned s -> s = JsDate.isoDay x.
Proof.
  unfold JsDate.TimeClip. destruct (Z.abs x <=? JsDate.maxTime); [|discriminate].
  cbn. intros H. now inversion H.
Qed.

(** The text before the first [T] of a text without [T] that is
    followed by more text. *)
Lemma splitHead_app (a b : string) :
  JsString.splitHead "T" a = a ->
  JsString.splitHead "T" (a ++ b) = (a ++ JsString.splitHead "T" b)%string.
Proof.
  induction a as [|c r IH]; intros Ha; [reflexivity|].
  cbn [JsString.splitHead String.append] in *.
  destruct (Ascii.eqb c "T"); [discriminate|].
  injection Ha as Hr. now rewrite IH.
Qed.

Lemma splitHead_whole (a b : string) :
  JsString.splitHead "T" a = a -> JsString.splitHead "T" b = b ->
  JsString.splitHead "T" (a ++ b) = (a ++ b)%string.
Proof. intros Ha Hb. now rewrite splitHead_app, Hb. Qed.

Lemma digitChar_plain (d : Z) : Ascii.eqb (JsString.digitChar d) "T" = false.
Proof.
  unfold JsString.digitChar.
  pose proof (Z.mod_pos_bound d 10 ltac:(lia)) as Hm.
  assert (Hcases : d mod 10 = 0 \/ d mod 10 = 1 \/ d mod 10 = 2 \/ d mod 10 = 3
                   \/ d mod 10 = 4 \/ d mod 10 = 5 \/ d mod 10 = 6 \/ d mod 10 = 7
                   \/ d mod 10 = 8 \/ d mod 10 = 9) by lia.
  repeat (destruct Hcases as [->|Hcases]; [reflexivity|]). now rewrite Hcases.
Qed.

Lemma digitsFrom_plain (fuel : nat) (n : Z) (acc : string) :
  JsString.splitHead "T" acc = acc ->
  JsString.splitHead "T" (JsString.digitsFrom fuel n acc) = JsString.digitsFrom fuel n acc.
Proof.
  revert n acc. induction fuel as [|k IH]; intros n acc Hacc; [exact Hacc|].
  cbn [JsString.digitsFrom].
  assert (Hstep : JsString.splitHead "T" (String (JsString.digitChar n) acc)
                  = String (JsString.digitChar n) acc).
  { cbn [JsString.splitHead]. now rewrite digitChar_plain, Hacc. }
  destruct (n / 10 =? 0); [exact Hstep|now apply IH].
Qed.

Lemma zeros_plain (k : nat) :
  JsString.splitHead "T" (JsString.zeros k) = JsString.zeros k.
Proof. induction k as [|j IH]; [reflexivity|]. cbn. now rewrite IH. Qed.

Lemma padZero_plain (width : nat) (n : Z) :
  JsString.splitHead "T" (JsString.padZero width n) = JsString.padZero width n.
Proof.
  unfold JsString.padZero, JsString.natToString.
  apply splitHead_whole; [apply zeros_plain|now apply digitsFrom_plain].
Qed.

Lemma isoYear_plain (y : Z) :
  JsString.splitHead "T" (JsDate.isoYear y) = JsDate.isoYear y.
Proof.
  unfold JsDate.isoYear.
  destruct ((0 <=? y) && (y <=? 9999)); [apply padZero_plain|].
  destruct (y <? 0); cbn [JsString.splitHead String.append Ascii.eqb Bool.eqb];
    now rewrite padZero_plain.
Qed.

Lemma append_nothing (s : string) : (s ++ EmptyString)%string = s.
Proof. induction s as [|c r IH]; [reflexivity|]. cbn. now rewrite IH. Qed.

(** The date of [toISOString] is the text of the day number. *)
Lemma isoDay_text (t : Z) :
  JsDate.isoDay t
  = (JsDate.isoYear (JsDate.YearFromTime t) ++ "-"
       ++ JsString.padZero 2 (JsDate.MonthFromTime t + 1) ++ "-"
       ++ JsString.padZero 2 (JsDate.DateFromTime t))%string.
Proof.
  unfold JsDate.isoDay, JsDate.isoText.
  rewrite splitHead_app by apply isoYear_plain.
  cbn [JsString.splitHead String.append Ascii.eqb Bool.eqb].
  rewrite splitHead_app by apply padZero_plain.
  cbn [JsString.splitHead String.append Ascii.eqb Bool.eqb].
  rewrite splitHead_app by apply padZero_plain.
  cbn [JsString.splitHead String.append Ascii.eqb Bool.eqb].
  now rewrite append_nothing.
Qed.

Lemma isoDay_same_day (a b : Z) :
  JsDate.Day a = JsDate.Day b -> JsDate.isoDay a = JsDate.isoDay b.
Proof.
  intros H. rewrite !isoDay_text.
  unfold JsDate.MonthFromTime, JsDate.DateFromTime, JsDate.MonthFromTime,
    JsDate.InLeapYear, JsDate.DayWithinYear, JsDate.YearFromTime.
  now rewrite H.
Qed.

(** The date of an instant that does not lie after [t] is the date of
    the instant a whole number of days before [t]. *)
Lemma isoDay_not_after (t r : Z) :
  r <= t -> exists k, 0 <= k /\ JsDate.isoDay r = JsDate.isoDay (t - k * JsDate.msPerDay).
Proof.
  intros Hle. exists (JsDate.Day t - JsDate.Day r). split.
  - unfold JsDate.Day, JsDate.msPerDay.
    pose proof (Z.div_le_mono r t 86400000 ltac:(lia) Hle). lia.
  - apply isoDay_same_day. unfold JsDate.Day.
    replace (t - (t / JsDate.msPerDay - r / JsDate.msPerDay) * JsDate.msPerDay)
      with (t + (r / JsDate.msPerDay - t / JsDate.msPerDay) * JsDate.msPerDay) by lia.
    rewrite Z.div_add by (unfold JsDate.msPerDay; lia). lia.
Qed.

Lemma relativeDay_results (env : Env) (text other s : string) :
  (forall n, 0 <= n ->
             JsDate.localBack (tza env) (now env) (n * JsDate.msPerDay) <= now env) ->
  relativeDay env text other = Returned s ->
  s = other
  \/ exists k, 0 <= k /\ s = JsDate.isoDay (now env - k * JsDate.msPerDay).
Proof.
  intros Hback. unfold relativeDay, newDate, zone.
  destruct (JsString.matchCount "day" text) as [ds|] eqn:Hd.
  { rewrite JsDateFacts.setDate_back. intros H. apply isoDay_of_clip in H.
    right. subst s. apply isoDay_not_after, Hback.
    now apply (countOf_nonneg "day" text). }
  destruct (JsString.matchCount "week" text) as [ws|] eqn:Hw.
  { rewrite JsDateFacts.setDate_back. intros H. apply isoDay_of_clip in H.
    right. subst s. apply isoDay_not_after, Hback.
    pose proof (countOf_nonneg "week" text Hw). lia. }
  assert (Htoday : isoDayOrThrow (Some (now env)) = Returned s ->
                   exists k, 0 <= k /\ s = JsDate.isoDay (now env - k * JsDate.msPerDay)).
  { cbn. intros H. inversion H. exists 0. split; [lia|]. now rewrite Z.sub_0_r. }
  destruct (JsString.matchCount "hour" text), (JsString.matchCount "minute" text);
    intros H; try (right; now apply Htoday).
  left. now inversion H.
Qed.

(** X15.  The dates that the Shine and the Hirist.tech callbacks compute
    never lie after the evaluation instant: the count is read by
    [(\d+)], so it is not negative, and the result is the UTC date of
    the instant a whole number [k >= 0] of days before now.  Apart from
    such a date, Shine yields the stripped text of the element and
    Hirist.tech yields "N/A": the Hirist.tech callback never passes the
    text of the site through.  The host's zone may change its clocks;
    what is asked of it is that a wall-clock time whole days back is
    not an instant after now, which holds in every zone without clock
    changes. *)
Theorem shine_and_hirist_dates (env : Env) (posted : option string) (s : string) :
  (forall n, 0 <= n ->
             JsDate.localBack (tza env) (now env) (n * JsDate.msPerDay) <= now env) ->
  (shinePostedDate env posted = Returned s ->
   s = "N/A"
   \/ (exists text, posted = Some text
                    /\ s = JsString.trim (JsString.removeAll
                                            ["posted"; "Posted"; "ago"; newline]
                                            (JsString.trim text)))
   \/ exists k, 0 <= k /\ s = JsDate.isoDay (now env - k * JsDate.msPerDay))
  /\ (hiristPostedDate env posted = Returned s ->
      s = "N/A"
      \/ exists k, 0 <= k /\ s = JsDate.isoDay (now env - k * JsDate.msPerDay)).
Proof.
  intros Hback. split.
  - unfold shinePostedDate. destruct posted as [text|].
    + intros H. apply (relativeDay_results _ _ _ Hback) in H as [->|Hk].
      * right; left. now exists text.
      * right; right. exact Hk.
    + intros H. left. now inversion H.
  - unfold hiristPostedDate. intros H. now apply (relativeDay_results _ _ _ Hback) in H.
Qed.

Lemma shine_and_hirist_dates_witness :
  "2024-01-13" = "N/A"
  \/ exists k, 0 <= k /\ "2024-01-13" = JsDate.isoDay (now sampleEnv - k * JsDate.msPerDay).
Proof.
  assert (Hback : forall n, 0 <= n ->
            JsDate.localBack (tza sampleEnv) (now sampleEnv) (n * JsDate.msPerDay)
            <= now sampleEnv).
  { intros n Hn.
    rewrite (@JsDateFacts.localBack_steady (tza sampleEnv) (now sampleEnv)
               (n * JsDate.msPerDay) (JsDateFacts.fixedZone_steady 0 _ _)).
    unfold JsDate.msPerDay. lia. }
  destruct (shine_and_hirist_dates sampleEnv (Some "Posted 2 days ago") "2024-01-13" Hback)
    as [_ Hhi].
  apply Hhi. vm_compute. reflexivity.
Defined.

(* ================================================================== *)
(** ** The crawlers                                                    *)
(* ================================================================== *)

(** *** Search URLs *)

Lemma lowerChar_facts (c : ascii) :
  JsString.lowerChar (JsString.lowerChar c) = JsString.lowerChar c
  /\ JsString.isWhite (JsString.lowerChar c) = JsString.isWhite c
  /\ JsString.isUpper (JsString.lowerChar c) = false.
Proof.
  destruct c as [[] [] [] [] [] [] [] []]; vm_compute; repeat split; reflexivity.
Qed.

Lemma hyphenate_slugChars (s : string) :
  allChars (fun c => negb (JsString.isUpper c)) s = true ->
  forall b, allChars slugChar (hyphenateFrom b s) = true.
Proof.
  induction s as [|c r IH]; intros Hs b; [reflexivity|].
  cbn [allChars] in Hs. apply andb_prop in Hs as [Hc Hr].
  cbn [hyphenateFrom]. destruct (JsString.isWhite c) eqn:Hw.
  - destruct b; [now apply IH|]. cbn [allChars]. now rewrite IH.
  - cbn [allChars]. unfold slugChar at 1. rewrite Hw, Hc. cbn. now apply IH.
Qed.

Lemma toLowerCase_noUpper (s : string) :
  allChars (fun c => negb (JsString.isUpper c)) (JsString.toLowerCase s) = true.
Proof.
  induction s as [|c r IH]; [reflexivity|].
  cbn. destruct (lowerChar_facts c) as (_ & _ & ->). exact IH.
Qed.

Lemma slugChars_fixed (s : string) :
  allChars slugChar s = true ->
  JsString.toLowerCase s = s /\ forall b, hyphenateFrom b s = s.
Proof.
  induction s as [|c r IH]; intros Hs; [split; reflexivity|].
  cbn [allChars] in Hs. apply andb_prop in Hs as [Hc Hr].
  unfold slugChar in Hc. apply andb_prop in Hc as [Hw Hu].
  apply negb_true_iff in Hw, Hu.
  destruct (IH Hr) as [Hlow Hhyp]. split.
  - cbn. unfold JsString.lowerChar. now rewrite Hu, Hlow.
  - intros b. cbn. now rewrite Hw, Hhyp.
Qed.

(** X16.  The slug under which role and location enter the Naukri, Shine
    and Hirist.tech URLs contains no white space and no upper-case
    letter, and slugging is idempotent: a text that is already a slug is
    left as it is. *)
Theorem slug_is_normal_form (text : string) :
  allChars slugChar (slug text) = true
  /\ slug (slug text) = slug text.
Proof.
  assert (Hs : allChars slugChar (slug text) = true).
  { unfold slug. apply hyphenate_slugChars, toLowerCase_noUpper. }
  split; [exact Hs|].
  destruct (slugChars_fixed _ Hs) as [Hlow Hhyp].
  unfold slug at 1. rewrite Hlow. apply Hhyp.
Qed.

Example slug_ex : slug "  Senior   Node JS
Developer " = "-senior-node-js-developer-".
Proof. reflexivity. Qed.

Example shine_url_ex :
  shinePageUrl "Node Developer" "New Delhi" None 2
  = "https://www.shine.com/job-search/node-developer-jobs-in-new-delhi&page=2"
  /\ naukriPageUrl "Node Developer" "New Delhi" (Some "3") 2
     = "https://www.naukri.com/node-developer-jobs-in-new-delhi-2?experience=3".
Proof. split; reflexivity. Qed.

(** *** [crawlNaukri] *)

Section NaukriCrawl.

Variable env : Env.
Variable site : string -> NaukriAnswer.
Variables role location : string.
Variable experience : option string.

Let url := naukriPageUrl role location experience.

(** The tuples that page [n] shows once it is loaded. *)
Let tuplesOf (n : nat) : list NaukriTuple :=
  match site (url n) with
  | NaukriListing tuples => tuples
  | NaukriUnreachable _ => []
  end.

(** The records that [extractJobs] returns on page [n]. *)
Let yield (n : nat) : list Job :=
  match naukriExtractJobs (tuplesOf n) with
  | Returned pageJobs => pageJobs
  | Thrown _ => []
  end.

(** The loop entered on the loaded page [p] with [k] pages allowed: it
    extracts [n] pages and asks for the page after each of them. *)
Lemma naukriPages_run (k : nat) :
  forall p current acc,
    site (url p) = NaukriListing current ->
    exists n,
      (n <= k)%nat
      /\ snd (naukriPages site role location experience k p current acc)
         = map url (seq (S p) n)
      /\ (forall i, (i < n)%nat -> tuplesOf (p + i)%nat <> [])
      /\ ((fst (naukriPages site role location experience k p current acc)
           = Returned (acc ++ List.concat (map yield (seq p n)))%list
           /\ (n = k \/ exists e, site (url (p + n)%nat) = NaukriUnreachable e))
          \/ ((n < k)%nat
              /\ site (url (p + n)%nat) = NaukriListing []
              /\ fst (naukriPages site role location experience k p current acc)
                 = Thrown (selectorTimeout ".srp-jobtuple-wrapper"))).
Proof.
  induction k as [|k IH]; intros p current acc Hsite.
  - exists 0%nat. cbn. split; [lia|]. split; [reflexivity|]. split; [intros i Hi; lia|].
    left. split; [now rewrite app_nil_r|now left].
  - assert (Htuples : tuplesOf p = current) by (unfold tuplesOf; now rewrite Hsite).
    cbn [naukriPages]. destruct current as [|t ts].
    + exists 0%nat. cbn [fst snd seq map]. split; [lia|]. split; [reflexivity|].
      split; [intros i Hi; lia|]. right. split; [lia|]. split; [|reflexivity].
      now rewrite Nat.add_0_r.
    + destruct (naukriExtractJobs_total (t :: ts)) as (pageJobs & Hex & _).
      assert (Hy : yield p = pageJobs) by (unfold yield; now rewrite Htuples, Hex).
      rewrite Hex. fold url.
      destruct (site (url (S p))) as [e|next] eqn:Hnext.
      * exists 1%nat. cbn [fst snd seq map List.concat]. split; [lia|].
        split; [reflexivity|]. split.
        -- intros i Hi. replace (p + i)%nat with p by lia. rewrite Htuples. discriminate.
        -- left. split; [now rewrite Hy, app_nil_r|]. right. exists e.
           now replace (p + 1)%nat with (S p) by lia.
      * destruct (IH (S p) next (acc ++ pageJobs)%list Hnext)
          as (n & Hn & Hurls & Hfull & Hres).
        destruct (naukriPages site role location experience k (S p) next (acc ++ pageJobs)%list)
          as [result urls].
        cbn [fst snd] in *.
        exists (S n). split; [lia|]. split; [cbn [seq map]; now rewrite Hurls|]. split.
        -- intros i Hi. destruct i as [|i].
           ++ rewrite Nat.add_0_r, Htuples. discriminate.
           ++ replace (p + S i)%nat with (S p + i)%nat by lia. apply Hfull. lia.
        -- replace (p + S n)%nat with (S p + n)%nat by lia.
           destruct Hres as [[Hjobs Hstop]|(Hlt & Hempty & Hthrown)].
           ++ left. split.
              ** rewrite Hjobs. cbn [seq map List.concat]. now rewrite Hy, <- app_assoc.
              ** destruct Hstop as [->|Hlast]; [now left|now right].
           ++ right. split; [lia|]. split; [exact Hempty|exact Hthrown].
Qed.

(** X20.  [crawlNaukri] closes the browser it launched.  When the first
    navigation fails it throws that failure.  Otherwise it extracts the
    pages 1 to [n] in order, [n] being at most 10, each of them showing
    tuples, and it has asked for page [n + 1] as well.  It returns the
    jobs of these pages when ten pages were read (the eleventh page is
    loaded and never read) or when page [n + 1] could not be reached.
    When page [n + 1] loads without a tuple (page 1 of a search without
    result included) the wait for the tuples times out: the crawl throws
    and the jobs of the pages before are lost. *)
Theorem crawlNaukri_pagination :
  let run := crawlNaukri env site role location experience false in
  browserClosed run = true
  /\ match site (url 1) with
     | NaukriUnreachable e => crawlResult run = Thrown e /\ visited run = [url 1]
     | NaukriListing _ =>
         exists n,
           (n <= naukriMaxPages)%nat
           /\ visited run = map url (seq 1 (S n))
           /\ (forall i, (1 <= i <= n)%nat -> tuplesOf i <> [])
           /\ ((crawlResult run
                = mapThrowing (naukriFinish env) (List.concat (map yield (seq 1 n)))
                /\ (1 <= n)%nat
                /\ (n = naukriMaxPages \/ exists e, site (url (S n)) = NaukriUnreachable e))
               \/ ((n < naukriMaxPages)%nat
                   /\ site (url (S n)) = NaukriListing []
                   /\ crawlResult run = Thrown (selectorTimeout ".srp-jobtuple-wrapper")))
     end.
Proof.
  cbv zeta. unfold crawlNaukri, withBrowser. fold url.
  split; [destruct (site (url 1)); reflexivity|].
  destruct (site (url 1)) as [e|first] eqn:Hfirst.
  { cbn [crawlResult visited fst snd]. split; reflexivity. }
  destruct (@naukriPages_run naukriMaxPages 1%nat first [] Hfirst)
    as (n & Hn & Hurls & Hfull & Hres).
  destruct (naukriPages site role location experience naukriMaxPages 1 first [])
    as [result urls].
  cbn [crawlResult visited fst snd] in *.
  exists n. split; [exact Hn|]. split; [cbn [seq map]; now rewrite Hurls|]. split.
  - intros i Hi. replace i with (1 + (i - 1))%nat by lia. apply Hfull. lia.
  - destruct Hres as [[Hjobs Hstop]|(Hlt & Hempty & Hthrown)].
    + left. subst result. cbn [bindO app]. split; [reflexivity|]. split.
      * destruct Hstop as [->|[e He]]; [unfold naukriMaxPages; lia|].
        destruct n as [|n]; [|lia].
        cbn [Nat.add] in He. rewrite Hfirst in He. discriminate.
      * destruct Hstop as [->|Hlast]; [now left|now right].
    + right. subst result. split; [exact Hlt|]. split; [exact Hempty|reflexivity].
Qed.

End NaukriCrawl.

(** *** A search without results *)

Lemma mapThrowing_length {A B} (f : A -> Outcome B) (l : list A) :
  forall bs, mapThrowing f l = Returned bs -> List.length bs = List.length l.
Proof.
  induction l as [|a r IH]; intros bs; cbn [mapThrowing].
  - intros H. now inversion H.
  - destruct (f a) as [b|e]; cbn [bindO]; [|discriminate].
    destruct (mapThrowing f r) as [rest|e]; cbn [bindO]; [|discriminate].
    intros H. inversion H. cbn. now rewrite (IH rest eq_refl).
Qed.

(** Every turn of the loop of [crawlNaukri] that does not throw adds the
    tuples of a page, and no page that it reads is without tuples. *)
Lemma naukriPages_returned (site : string -> NaukriAnswer) (role location : string)
      (experience : option string) (k : nat) :
  forall p current acc r,
    fst (naukriPages site role location experience k p current acc) = Returned r ->
    (List.length acc <= List.length r)%nat
    /\ (k <> 0%nat -> (List.length acc < List.length r)%nat).
Proof.
  induction k as [|k IH]; intros p current acc r; cbn [naukriPages].
  - cbn. intros H. inversion H. split; [lia|congruence].
  - destruct current as [|t ts]; [discriminate|].
    destruct (naukriExtractJobs_total (t :: ts)) as (pageJobs & Hex & Hlen).
    rewrite Hex. cbn [List.length] in Hlen.
    destruct (site (naukriPageUrl role location experience (S p))) as [e|next].
    + cbn. intros H. inversion H. rewrite length_app. lia.
    + specialize (IH (S p) next (acc ++ pageJobs)%list).
      destruct (naukriPages site role location experience k (S p) next (acc ++ pageJobs)%list)
        as [result urls].
      cbn [fst] in *. intros H. destruct (IH r H) as [Hle _].
      rewrite length_app in Hle. lia.
Qed.

(** [crawlNaukri] never comes back with an empty list. *)
Lemma crawlNaukri_finds_a_job (env : Env) (site : string -> NaukriAnswer)
      (role location : string) (experience : option string) (launchFails : bool)
      (js : list Job) :
  crawlResult (crawlNaukri env site role location experience launchFails) = Returned js ->
  js <> [].
Proof.
  unfold crawlNaukri, withBrowser. destruct launchFails; [discriminate|].
  destruct (site (naukriPageUrl role location experience 1)) as [e|first]; [discriminate|].
  pose proof (naukriPages_returned site role location experience naukriMaxPages
                1%nat first []) as Hpages.
  destruct (naukriPages site role location experience naukriMaxPages 1 first [])
    as [result urls].
  cbn [crawlResult fst snd] in *. destruct result as [r|e]; cbn [bindO]; [|discriminate].
  intros Hfinish Hnil. subst js. apply mapThrowing_length in Hfinish.
  destruct (Hpages r eq_refl) as [_ Hlt].
  specialize (Hlt ltac:(unfold naukriMaxPages; congruence)). cbn in Hfinish, Hlt. lia.
Qed.

(** C2, where the code departs from it. For the empty batch [saveJobs]
    returns zero counts and leaves the world as it was: no storage operation
    is performed, whatever the store would do. A crawl request whose crawler
    comes back with no job is answered 200 with zero jobs, zero inserted and
    zero duplicates, without a storage operation. [crawlNaukri], the crawler
    of the default source, never comes back with an empty list: the wait for
    the tuples of a page is outside the inner [try], and on a search without
    results it times out, so that the request is answered 500 with the
    message of the time-out instead of the zero counts. *)
Theorem C2_naukri_search_without_results_is_answered_500
        (env : Env) (faults : Faults) (site : string -> NaukriAnswer)
        (others : Source -> string -> string -> option string -> Outcome (list Job))
        (v : Variant) (req : CrawlRequest) (role location : string) (w : World) :
  cr_role req = Some role ->
  cr_location req = Some location ->
  (String.eqb role "" || String.eqb location "")%bool = false ->
  caseOf v (requestedSource req) = Returned (Some Naukri) ->
  site (naukriPageUrl role location (cr_experience req) 1) = NaukriListing [] ->
  saveJobs env faults (Some []) w = (Returned (mkCounts 0 0), w)
  /\ (forall web,
         web Naukri role location (cr_experience req) = Returned [] ->
         exists w',
           postCrawl env faults web v req w
           = (Returned (mkResponse 200
                          (CrawlBody (requestedSource req) role location 0 0 0 [])), w')
           /\ ops w' = ops w /\ committed w' = committed w)
  /\ (forall launchFails js,
         crawlResult (crawlNaukri env site role location (cr_experience req) launchFails)
         = Returned js ->
         js <> [])
  /\ exists w',
       postCrawl env faults (crawlers env site others) v req w
       = (Returned (mkResponse 500
                      (ErrorBody (errMessage (selectorTimeout ".srp-jobtuple-wrapper")))), w')
       /\ ops w' = ops w /\ committed w' = committed w.
Proof.
  intros Hr Hl Hne Hsw Hsite. split; [reflexivity|]. split; [|split].
  - intros web Hweb. rewrite (postCrawl_dispatch env faults web v req w Hr Hl Hne Hsw).
    unfold tryCatch, bind, crawl, passedExperience. rewrite Hweb. cbn.
    eexists. split; [reflexivity|]. split; reflexivity.
  - intros launchFails js. apply crawlNaukri_finds_a_job.
  - rewrite (postCrawl_dispatch env faults (crawlers env site others) v req w Hr Hl Hne Hsw).
    unfold tryCatch, bind, crawl, passedExperience, crawlers, crawlNaukri, withBrowser.
    rewrite Hsite. cbn.
    eexists. split; [reflexivity|]. split; reflexivity.
Qed.

Lemma C2_naukri_search_without_results_is_answered_500_witness :
  exists w',
    postCrawl sampleEnv noFaults (crawlers sampleEnv naukriWithoutResults sampleWeb)
              WithLinkedIn
              (mkCrawlRequest (Some "node developer") (Some "pune") Missing None)
              (freshWorld emptyDb)
    = (Returned (mkResponse 500
                   (ErrorBody "Waiting for selector .srp-jobtuple-wrapper failed")), w')
    /\ ops w' = [] /\ committed w' = emptyDb.
Proof.
  apply (@C2_naukri_search_without_results_is_answered_500 sampleEnv noFaults
           naukriWithoutResults sampleWeb WithLinkedIn
           (mkCrawlRequest (Some "node developer") (Some "pune") Missing None)
           "node developer" "pune" (freshWorld emptyDb));
    reflexivity.
Defined.

(** *** [crawlShine] *)

Section ShineCrawl.

Variable env : Env.
Variable site : string -> ShinePage.
Variables role location : string.
Variable experience : option string.

Let url := shinePageUrl role location experience.
Let page (n : nat) := site (url n).
Let yield := shineYield env site role location experience.
Let loop := shinePages env site role location experience.

(** What one turn of the loop comes to on page [p]. *)
Lemma shineTurn_cases (p : nat) (acc : list Job) :
  (shineRead (page p) /\ yield p <> [] /\ shineTurn env (page p) acc = LeadsOn (yield p))
  \/ (shineEmpty env (page p) /\ shineTurn env (page p) acc = Ends (Settles (Returned acc)))
  \/ (exists e, shineFails (page p) e
                /\ shineTurn env (page p) acc = Ends (Settles (Thrown e)))
  \/ (shineHangs (page p) /\ shineTurn env (page p) acc = Ends NeverSettles).
Proof.
  unfold yield, shineYield, shineTurn, shineEmpty, shineFails, shineHangs, shineRead.
  fold url. fold (page p).
  destruct (sp_goto (page p)) as [e|].
  { right; right; left. exists e. split; [now left|reflexivity]. }
  destruct (sp_noJobs (page p)) as [[|]|e].
  - right; left. split; [|reflexivity]. split; [reflexivity|now left].
  - destruct (sp_scroll (page p)) as [[[]|e]|].
    + destruct (sp_cards (page p)) as [cards|e].
      * destruct (extractShineJobs env cards) as [|j js] eqn:Hex.
        -- right; left. split; [|reflexivity]. split; [reflexivity|]. right.
           split; [|now exists cards]. repeat split. now exists cards.
        -- left. split; [|split; [discriminate|reflexivity]].
           repeat split. now exists cards.
      * right; right; left. exists e. split; [|reflexivity].
        right. split; [reflexivity|]. right. split; [reflexivity|]. right. now split.
    + right; right; left. exists e. split; [|reflexivity].
      right. split; [reflexivity|]. right. split; [reflexivity|]. now left.
    + right; right; right. now repeat split.
  - right; right; left. exists e. split; [|reflexivity].
    right. split; [reflexivity|]. now left.
Qed.

(** The loop from page [p] with [k] pages allowed: it reads [n] pages
    and then either has used up its pages or is ended by the page after
    them. *)
Lemma shinePages_run (k : nat) :
  forall p acc,
  exists n,
    (n <= k)%nat
    /\ (forall i, (i < n)%nat -> shineRead (page (p + i)) /\ yield (p + i)%nat <> [])
    /\ ((n = k
         /\ loop k p acc
            = (Settles (Returned (acc ++ List.concat (map yield (seq p n)))%list),
               map url (seq p n)))
        \/ ((n < k)%nat
            /\ snd (loop k p acc) = map url (seq p (S n))
            /\ ((shineEmpty env (page (p + n))
                 /\ fst (loop k p acc)
                    = Settles (Returned (acc ++ List.concat (map yield (seq p n)))%list))
                \/ (exists e, shineFails (page (p + n)) e
                              /\ fst (loop k p acc) = Settles (Thrown e))
                \/ (shineHangs (page (p + n)) /\ fst (loop k p acc) = NeverSettles)))).
Proof.
  induction k as [|k IH]; intros p acc.
  - exists 0%nat. split; [lia|]. split; [intros i Hi; lia|]. left.
    split; [reflexivity|]. cbn. now rewrite app_nil_r.
  - unfold loop in *. cbn [shinePages]. fold url. fold (page p).
    destruct (shineTurn_cases p acc)
      as [(Hread & Hjobs & Hturn)|[(Hempty & Hturn)|[(e & Hfails & Hturn)|(Hhangs & Hturn)]]];
      rewrite Hturn.
    + destruct (IH (S p) (acc ++ yield p)%list) as (n & Hn & Hfull & Hres).
      exists (S n). split; [lia|]. split.
      { intros i Hi. destruct i as [|i]; [rewrite Nat.add_0_r; now split|].
        replace (p + S i)%nat with (S p + i)%nat by lia. apply Hfull. lia. }
      replace (p + S n)%nat with (S p + n)%nat by lia.
      cbn [seq map List.concat]. rewrite app_assoc.
      destruct (shinePages env site role location experience k (S p) (acc ++ yield p)%list)
        as [result urls].
      cbn [fst snd] in *.
      destruct Hres as [[-> Hrun]|(Hlt & Hurls & Hend)].
      * left. split; [reflexivity|]. now inversion Hrun.
      * right. split; [lia|]. split; [now rewrite Hurls|exact Hend].
    + exists 0%nat. split; [lia|]. split; [intros i Hi; lia|]. right.
      rewrite Nat.add_0_r. cbn [fst snd seq map List.concat]. rewrite app_nil_r.
      split; [lia|]. split; [reflexivity|]. now left.
    + exists 0%nat. split; [lia|]. split; [intros i Hi; lia|]. right.
      rewrite Nat.add_0_r. cbn [fst snd seq map List.concat].
      split; [lia|]. split; [reflexivity|]. right; left. now exists e.
    + exists 0%nat. split; [lia|]. split; [intros i Hi; lia|]. right.
      rewrite Nat.add_0_r. cbn [fst snd seq map List.concat].
      split; [lia|]. split; [reflexivity|]. right; right. now split.
Qed.

(** X17.  [crawlShine] asks for the pages 1, 2, ... in order and never
    for more than [maxPages] of them.  It reads the pages 1 to [n], each
    of which is loaded, scrolled to its end and yields jobs, and then
    one of four things happens.  The ceiling is reached: the crawl
    returns the jobs of the [n] pages.  Page [n + 1] shows the "no jobs
    found" container or yields no job: the crawl returns the jobs of
    the [n] pages.  An awaited call on page [n + 1] ([goto], the search
    for the container, [autoScroll] or the extraction) is rejected: the
    crawl throws that error and the jobs of the [n] pages are lost.  The
    [autoScroll] of page [n + 1] never settles: neither does the crawl,
    and [browser.close()] is never called.  In the three other cases
    the browser is closed. *)
Theorem crawlShine_pagination (maxPages : nat) :
  let run := crawlShine env site role location experience false maxPages in
  let asked := shineVisited env site role location experience maxPages in
  exists n,
    (n <= maxPages)%nat
    /\ (forall i, (1 <= i <= n)%nat -> shineRead (page i) /\ yield i <> [])
    /\ ((n = maxPages
         /\ asked = map url (seq 1 n)
         /\ run = mkSession (Settles (Returned (List.concat (map yield (seq 1 n))))) true true)
        \/ ((n < maxPages)%nat
            /\ asked = map url (seq 1 (S n))
            /\ ((shineEmpty env (page (S n))
                 /\ run = mkSession (Settles (Returned (List.concat (map yield (seq 1 n)))))
                                    true true)
                \/ (exists e, shineFails (page (S n)) e
                              /\ run = mkSession (Settles (Thrown e)) true true)
                \/ (shineHangs (page (S n))
                    /\ run = mkSession NeverSettles true false)))).
Proof.
  cbv zeta. unfold crawlShine, shineVisited, inBrowser.
  destruct (shinePages_run maxPages 1 []) as (n & Hn & Hfull & Hres).
  unfold loop in Hres. cbn [app] in Hres.
  exists n. split; [exact Hn|]. split.
  { intros i Hi. replace i with (1 + (i - 1))%nat by lia. apply Hfull. lia. }
  destruct Hres as [[-> Hrun]|(Hlt & Hurls & Hend)].
  - left. rewrite Hrun. cbn [fst snd]. now repeat split.
  - right. split; [exact Hlt|]. split; [exact Hurls|].
    replace (1 + n)%nat with (S n) in Hend by lia.
    destruct Hend as [(Hempty & ->)|[(e & Hfails & ->)|(Hhangs & ->)]].
    + left. now split.
    + right; left. exists e. now split.
    + right; right. now split.
Qed.

End ShineCrawl.

(** A search whose third page is never scrolled to its end: the crawl
    asks for three pages and never settles, and the browser stays
    open. *)
Example crawlShine_stuck :
  crawlShine sampleEnv shineStuck "node developer" "pune" None false 5
  = mkSession NeverSettles true false
  /\ List.length (shineVisited sampleEnv shineStuck "node developer" "pune" None 5) = 3%nat.
Proof. split; vm_compute; reflexivity. Qed.

(** *** [crawlLinkedIn] *)

Section LinkedInCrawl.

Variable env : Env.
Variable pages : nat -> LinkedInPage.

Let yield := linkedInYield env pages.

Lemma linkedInTurn_cases (p : nat) (acc : list Job) (atCeiling : bool) :
  (linkedInRead (pages p) /\ atCeiling = false /\ lp_next (pages p) = NextShown
   /\ linkedInTurn env (pages p) acc atCeiling = LeadsOn (yield p))
  \/ (linkedInRead (pages p) /\ (atCeiling = true \/ lp_next (pages p) <> NextShown)
      /\ linkedInTurn env (pages p) acc atCeiling
         = Ends (Settles (Returned (acc ++ yield p)%list)))
  \/ (exists e, linkedInFails (pages p) e
                /\ linkedInTurn env (pages p) acc atCeiling = Ends (Settles (Thrown e)))
  \/ (lp_scroll (pages p) = NeverSettles
      /\ linkedInTurn env (pages p) acc atCeiling = Ends NeverSettles).
Proof.
  unfold yield, linkedInYield, linkedInTurn, linkedInRead, linkedInFails.
  destruct (lp_scroll (pages p)) as [[[]|e]|].
  - destruct (lp_cards (pages p)) as [cards|e].
    + destruct atCeiling.
      * right; left. split; [split; [reflexivity|now exists cards]|]. split; [now left|reflexivity].
      * destruct (lp_next (pages p)) eqn:Hnext;
          try (right; left; split; [split; [reflexivity|now exists cards]|];
               split; [right; discriminate|reflexivity]).
        left. split; [split; [reflexivity|now exists cards]|]. now repeat split.
    + right; right; left. exists e. split; [right; now split|reflexivity].
  - right; right; left. exists e. split; [now left|reflexivity].
  - right; right; right. now split.
Qed.

Lemma linkedInPages_run (k : nat) :
  forall p acc,
  exists n,
    (n <= k)%nat
    /\ (forall i, (i < n)%nat -> linkedInRead (pages (p + i)))
    /\ (forall i, (i + 1 < n)%nat -> lp_next (pages (p + i)) = NextShown)
    /\ ((linkedInPages env pages k p acc
         = Settles (Returned (acc ++ List.concat (map yield (seq p n)))%list)
         /\ (n = k \/ ((1 <= n)%nat /\ lp_next (pages (p + n - 1)) <> NextShown)))
        \/ ((n < k)%nat
            /\ (forall i, (i < n)%nat -> lp_next (pages (p + i)) = NextShown)
            /\ ((exists e, linkedInFails (pages (p + n)) e
                           /\ linkedInPages env pages k p acc = Settles (Thrown e))
                \/ (lp_scroll (pages (p + n)) = NeverSettles
                    /\ linkedInPages env pages k p acc = NeverSettles)))).
Proof.
  induction k as [|k IH]; intros p acc.
  - exists 0%nat. split; [lia|]. split; [intros i Hi; lia|]. split; [intros i Hi; lia|].
    left. cbn. split; [now rewrite app_nil_r|now left].
  - cbn [linkedInPages].
    destruct (linkedInTurn_cases p acc (match k with O => true | S _ => false end))
      as [(Hread & Hceil & Hnext & Hturn)|[(Hread & Hstop & Hturn)
          |[(e & Hfails & Hturn)|(Hhangs & Hturn)]]];
      rewrite Hturn.
    + destruct (IH (S p) (acc ++ yield p)%list) as (n & Hn & Hfull & Hshown & Hres).
      exists (S n). split; [lia|]. split.
      { intros i Hi. destruct i as [|i]; [now rewrite Nat.add_0_r|].
        replace (p + S i)%nat with (S p + i)%nat by lia. apply Hfull. lia. }
      split.
      { intros i Hi. destruct i as [|i]; [now rewrite Nat.add_0_r|].
        replace (p + S i)%nat with (S p + i)%nat by lia. apply Hshown. lia. }
      cbn [seq map List.concat]. rewrite app_assoc.
      replace (p + S n)%nat with (S p + n)%nat by lia.
      destruct Hres as [[Hrun Hwhy]|(Hlt & Hall & Hend)].
      * left. split; [exact Hrun|].
        destruct Hwhy as [->|[H1 Hlast]]; [now left|right]. split; [lia|].
        replace (p + S n - 1)%nat with (S p + n - 1)%nat by lia. exact Hlast.
      * right. split; [lia|]. split; [|exact Hend].
        intros i Hi. destruct i as [|i]; [now rewrite Nat.add_0_r|].
        replace (p + S i)%nat with (S p + i)%nat by lia. apply Hall. lia.
    + exists 1%nat. split; [lia|]. split.
      { intros i Hi. replace i with 0%nat by lia. now rewrite Nat.add_0_r. }
      split; [intros i Hi; lia|]. left.
      cbn [seq map List.concat]. rewrite app_nil_r. split; [reflexivity|].
      destruct Hstop as [Hceil|Hnext].
      * left. destruct k; [reflexivity|discriminate].
      * right. split; [lia|]. now replace (p + 1 - 1)%nat with p by lia.
    + exists 0%nat. split; [lia|]. split; [intros i Hi; lia|]. split; [intros i Hi; lia|].
      right. rewrite Nat.add_0_r. split; [lia|]. split; [intros i Hi; lia|].
      left. now exists e.
    + exists 0%nat. split; [lia|]. split; [intros i Hi; lia|]. split; [intros i Hi; lia|].
      right. rewrite Nat.add_0_r. split; [lia|]. split; [intros i Hi; lia|].
      right. now split.
Qed.

(** X18.  [crawlLinkedIn] throws the failure of the first load.  Once
    the first result page is loaded it reads the pages 1 to [n], with
    [n <= maxPages], each of them scrolled to its end and every one
    before the last leading on to the next, and then one of three
    things happens.  It returns the jobs of the [n] pages, because the
    ceiling is reached or because page [n] does not lead on: a missing
    "Next" button, a failing click or wait and the rate-limit toast all
    end the pagination with the jobs gathered so far.  Or the
    [autoScroll] or the extraction of page [n + 1] is rejected: the
    crawl throws that error and the jobs of the [n] pages are lost.  Or
    the [autoScroll] of page [n + 1] never settles: neither does the
    crawl, and [browser.close()] is never called. *)
Theorem crawlLinkedIn_pagination (maxPages : nat) :
  let run := crawlLinkedIn env pages false None maxPages in
  (forall e, crawlLinkedIn env pages false (Some e) maxPages
             = mkSession (Settles (Thrown e)) true true)
  /\ exists n,
       (n <= maxPages)%nat
       /\ (forall i, (1 <= i <= n)%nat -> linkedInRead (pages i))
       /\ (forall i, (1 <= i < n)%nat -> lp_next (pages i) = NextShown)
       /\ ((run = mkSession (Settles (Returned (List.concat (map yield (seq 1 n))))) true true
            /\ (n = maxPages \/ ((1 <= n)%nat /\ lp_next (pages n) <> NextShown)))
           \/ ((n < maxPages)%nat
               /\ (forall i, (1 <= i <= n)%nat -> lp_next (pages i) = NextShown)
               /\ ((exists e, linkedInFails (pages (S n)) e
                              /\ run = mkSession (Settles (Thrown e)) true true)
                   \/ (lp_scroll (pages (S n)) = NeverSettles
                       /\ run = mkSession NeverSettles true false)))).
Proof.
  cbv zeta. unfold crawlLinkedIn, inBrowser. split; [reflexivity|].
  destruct (linkedInPages_run maxPages 1 []) as (n & Hn & Hfull & Hshown & Hres).
  cbn [app] in Hres.
  exists n. split; [exact Hn|]. split.
  { intros i Hi. replace i with (1 + (i - 1))%nat by lia. apply Hfull. lia. }
  split.
  { intros i Hi. replace i with (1 + (i - 1))%nat by lia. apply Hshown. lia. }
  destruct Hres as [[Hrun Hwhy]|(Hlt & Hall & Hend)].
  - left. rewrite Hrun. split; [reflexivity|].
    destruct Hwhy as [->|[H1 Hlast]]; [now left|right]. split; [exact H1|].
    now replace (1 + n - 1)%nat with n in Hlast by lia.
  - right. split; [exact Hlt|]. split.
    { intros i Hi. replace i with (1 + (i - 1))%nat by lia. apply Hall. lia. }
    replace (1 + n)%nat with (S n) in Hend by lia.
    destruct Hend as [(e & Hfails & ->)|(Hhangs & ->)].
    + left. exists e. now split.
    + right. now split.
Qed.

End LinkedInCrawl.

(** Three result pages with one card each, the third without a "Next"
    button: the crawl returns three jobs although five pages are
    allowed. *)
Example crawlLinkedIn_three_pages :
  exists jobs,
    crawlLinkedIn sampleEnv linkedInThree false None 5
    = mkSession (Settles (Returned jobs)) true true
    /\ List.length jobs = 3%nat.
Proof. eexists. split; vm_compute; reflexivity. Qed.

(** *** [crawlHirist] *)

Section HiristScroll.

Variable env : Env.
Variable counts : nat -> Outcome nat.
Variable scrolls : nat -> Awaited unit.
Variable boxes : nat -> Outcome (list HiristBox).

(** [page.$$] answers, and lazy loading only adds boxes. *)
Variable shown : nat -> nat.
Hypothesis counts_answer : forall i, counts i = Returned (shown i).
Hypothesis counts_grow : forall i, (shown i <= shown (S i))%nat.

(** The number of boxes before the scroll that led to the page after [n]
    scrolls; the loop starts from 0. *)
Let before (n : nat) : nat := match n with O => 0%nat | S m => shown m end.

Lemma hiristLoading_run (fuel : nat) :
  forall scrolled prevCount,
    (prevCount <= shown scrolled)%nat ->
    (prevCount <= hiristTarget)%nat ->
    (hiristTarget + 1 <= fuel + prevCount)%nat ->
    exists n,
      (scrolled <= n)%nat
      /\ (n - scrolled <= hiristTarget - prevCount)%nat
      /\ (forall i, (scrolled <= i < n)%nat -> scrolls i = Settles (Returned tt))
      /\ (((hiristTarget <= shown n)%nat
           \/ shown n = (if (n =? scrolled)%nat then prevCount else shown (n - 1)))
          /\ (forall extra,
                hiristLoading counts scrolls (fuel + extra) scrolled prevCount
                = Some (Settles (Returned n)))
          \/ (exists e, scrolls n = Settles (Thrown e)
                        /\ forall extra,
                             hiristLoading counts scrolls (fuel + extra) scrolled prevCount
                             = Some (Settles (Thrown e)))
          \/ (scrolls n = NeverSettles
              /\ forall extra,
                   hiristLoading counts scrolls (fuel + extra) scrolled prevCount
                   = Some NeverSettles)).
Proof.
  induction fuel as [|fuel IH]; intros scrolled prevCount Hprev Hbelow Hfuel; [lia|].
  cbn [hiristLoading Nat.add]. rewrite counts_answer.
  destruct (Nat.leb_spec hiristTarget (shown scrolled)) as [Hreach|Hshort].
  { exists scrolled. split; [lia|]. split; [lia|]. split; [intros i Hi; lia|].
    left. split; [now left|reflexivity]. }
  destruct (Nat.eqb_spec (shown scrolled) prevCount) as [Hsame|Hmore].
  { exists scrolled. split; [lia|]. split; [lia|]. split; [intros i Hi; lia|].
    left. split; [right; now rewrite Nat.eqb_refl|reflexivity]. }
  destruct (scrolls scrolled) as [[[]|e]|] eqn:Hscroll.
  - destruct (IH (S scrolled) (shown scrolled)) as (n & Hn & Hsteps & Hdone & Hres);
      [apply counts_grow | lia | lia |].
    exists n. split; [lia|]. split; [lia|]. split.
    { intros i Hi. destruct (Nat.eq_dec i scrolled) as [->|Hne]; [exact Hscroll|].
      apply Hdone. lia. }
    destruct Hres as [[Hstop Hrun]|[(e & He & Hrun)|(Hhang & Hrun)]].
    + left. split; [|exact Hrun].
      destruct Hstop as [Hreach|Hsame]; [now left|right].
      destruct (Nat.eqb_spec n scrolled) as [->|_]; [lia|].
      destruct (Nat.eqb_spec n (S scrolled)) as [->|_]; [|exact Hsame].
      rewrite Hsame. f_equal. lia.
    + right; left. exists e. now split.
    + right; right. now split.
  - exists scrolled. split; [lia|]. split; [lia|]. split; [intros i Hi; lia|].
    right; left. exists e. now split.
  - exists scrolled. split; [lia|]. split; [lia|]. split; [intros i Hi; lia|].
    right; right. now split.
Qed.

(** X19.  When [page.$$] answers and scrolling never removes job boxes
    from the Hirist.tech page, the loading loop of [crawlHirist] cannot
    run for ever by itself: within 100 scrolls, all of which were
    fulfilled, one of three things happens.  The loop is left, because
    100 boxes are shown or because the last scroll added nothing (or
    the page had no box to begin with), and the crawl comes to what the
    extraction of the boxes then shown comes to.  Or the next
    [autoScroll] is rejected and the crawl throws that error.  Or the
    next [autoScroll] never settles: neither does the crawl, and
    [browser.close()] is never called. *)
Theorem crawlHirist_scrolling_ends :
  exists n,
    (n <= hiristTarget)%nat
    /\ (forall i, (i < n)%nat -> scrolls i = Settles (Returned tt))
    /\ (((hiristTarget <= shown n)%nat \/ shown n = before n)
         /\ (forall extra,
               crawlHirist env counts scrolls boxes false None (hiristTarget + 1 + extra)
               = Some (mkSession (Settles (bindO (boxes n) (hiristExtractJobs env)))
                                 true true))
        \/ (exists e, scrolls n = Settles (Thrown e)
                      /\ forall extra,
                           crawlHirist env counts scrolls boxes false None
                                       (hiristTarget + 1 + extra)
                           = Some (mkSession (Settles (Thrown e)) true true))
        \/ (scrolls n = NeverSettles
            /\ forall extra,
                 crawlHirist env counts scrolls boxes false None (hiristTarget + 1 + extra)
                 = Some (mkSession NeverSettles true false))).
Proof.
  destruct (@hiristLoading_run (hiristTarget + 1) 0%nat 0%nat)
    as (n & _ & Hsteps & Hdone & Hres); [lia | lia | lia |].
  exists n. split; [lia|]. split; [intros i Hi; apply Hdone; lia|].
  unfold crawlHirist, inBrowser.
  destruct Hres as [[Hstop Hrun]|[(e & He & Hrun)|(Hhang & Hrun)]].
  - left. split.
    + destruct Hstop as [Hreach|Hsame]; [now left|right].
      unfold before. destruct n as [|m]; [exact Hsame|].
      cbn [Nat.eqb] in Hsame. rewrite Hsame. f_equal. lia.
    + intros extra. now rewrite Hrun.
  - right; left. exists e. split; [exact He|]. intros extra. now rewrite Hrun.
  - right; right. split; [exact Hhang|]. intros extra. now rewrite Hrun.
Qed.

End HiristScroll.

(** A page that shows 10, 35, 60, 60 boxes as it is scrolled: the loop
    is left after three scrolls and the boxes shown then are
    extracted.  A page with no box at all is never scrolled, and the
    crawl returns no job. *)
Lemma crawlHirist_scrolling_ends_witness :
  (exists n,
      (n <= hiristTarget)%nat
      /\ crawlHirist sampleEnv (fun i => Returned (Nat.min (25 * i + 10) 60))
                     (fun _ => Settles (Returned tt))
                     (fun i => Returned (if (i =? 3)%nat then [hiristRecent; hiristBare] else []))
                     false None (hiristTarget + 1 + 0)
         = Some (mkSession
                   (Settles (hiristExtractJobs sampleEnv
                               (if (n =? 3)%nat then [hiristRecent; hiristBare] else [])))
                   true true))
  /\ crawlHirist sampleEnv (fun _ => Returned 0%nat) (fun _ => NeverSettles)
                 (fun _ => Returned []) false None (hiristTarget + 1)
     = Some (mkSession (Settles (Returned [])) true true).
Proof.
  split; [|vm_compute; reflexivity].
  assert (Hgrow : forall i, (Nat.min (25 * i + 10) 60 <= Nat.min (25 * S i + 10) 60)%nat)
    by (intros i; lia).
  destruct (@crawlHirist_scrolling_ends sampleEnv
              (fun i => Returned (Nat.min (25 * i + 10) 60))
              (fun _ => Settles (Returned tt))
              (fun i => Returned (if (i =? 3)%nat then [hiristRecent; hiristBare] else []))
              (fun i => Nat.min (25 * i + 10) 60)
              (fun _ => eq_refl) Hgrow)
    as (n & Hn & _ & [[_ Hrun]|[(e & He & _)|(Hhang & _)]]); try discriminate.
  exists n. split; [exact Hn|]. exact (Hrun 0%nat).
Defined.

(** *** [autoScroll] *)

Section AutoScroll.

Variable scrollHeight : nat -> Z.
Variable innerHeight : Z.

Lemma autoScrollTicks_first (fuel : nat) :
  forall tick n,
    autoScrollTicks scrollHeight innerHeight fuel tick (100 * Z.of_nat tick) = Some n
    <-> ((tick < n <= tick + fuel)%nat
         /\ scrollHeight (n - 1)%nat - innerHeight <= 100 * Z.of_nat n
         /\ forall i, (tick <= i < n - 1)%nat ->
                      100 * Z.of_nat (S i) < scrollHeight i - innerHeight).
Proof.
  induction fuel as [|fuel IH]; intros tick n.
  - cbn. split; [discriminate|]. intros [Hn _]. lia.
  - cbn [autoScrollTicks]. unfold scrollDistance.
    replace (100 * Z.of_nat tick + 100) with (100 * Z.of_nat (S tick)) by lia.
    destruct (Z.geb_spec (100 * Z.of_nat (S tick)) (scrollHeight tick - innerHeight))
      as [Hcover|Hshort].
    + split.
      * intros Hres. inversion Hres. subst n.
        replace (S tick - 1)%nat with tick by lia.
        split; [lia|]. split; [lia|]. intros i Hi. lia.
      * intros (Hn & _ & Hbefore).
        destruct (Nat.eq_dec n (S tick)) as [->|Hne]; [reflexivity|].
        specialize (Hbefore tick ltac:(lia)). lia.
    + rewrite IH. split.
      * intros (Hn & Hlast & Hbefore). split; [lia|]. split; [exact Hlast|].
        intros i Hi. destruct (Nat.eq_dec i tick) as [->|Hne]; [lia|].
        apply Hbefore. lia.
      * intros (Hn & Hlast & Hbefore).
        assert (n <> S tick).
        { intros ->. replace (S tick - 1)%nat with tick in Hlast by lia. lia. }
        split; [lia|]. split; [exact Hlast|]. intros i Hi. apply Hbefore. lia.
Qed.

Lemma autoScrollTicks_covered (height : Z) (fuel : nat) :
  (forall i, scrollHeight i <= height) ->
  forall tick,
    (1 <= fuel)%nat ->
    height - innerHeight <= 100 * Z.of_nat (tick + fuel) ->
    exists n, autoScrollTicks scrollHeight innerHeight fuel tick (100 * Z.of_nat tick) = Some n.
Proof.
  intros Hbound. induction fuel as [|fuel IH]; intros tick Hfuel Hcover; [lia|].
  cbn [autoScrollTicks]. unfold scrollDistance.
  replace (100 * Z.of_nat tick + 100) with (100 * Z.of_nat (S tick)) by lia.
  destruct (Z.geb_spec (100 * Z.of_nat (S tick)) (scrollHeight tick - innerHeight))
    as [_|Hshort]; [now exists (S tick)|].
  apply IH.
  - destruct fuel as [|fuel]; [|lia]. specialize (Hbound tick). lia.
  - replace (S tick + fuel)%nat with (tick + S fuel)%nat by lia. exact Hcover.
Qed.

(** X21.  [autoScroll] resolves at the first tick whose accumulated
    distance, 100 pixels per tick, reaches the height of the document
    less the height of the window, as that tick reads it, and at no
    other.  So on a page whose height stays below a bound it resolves
    within the number of ticks that cover the bound (one tick at
    least), and on a page that always grows ahead of the scrolling it
    never resolves. *)
Theorem autoScroll_resolves_at_the_first_covering_tick :
  (forall fuel n,
      autoScroll scrollHeight innerHeight fuel = Some n
      <-> ((1 <= n <= fuel)%nat
           /\ scrollHeight (n - 1)%nat - innerHeight <= 100 * Z.of_nat n
           /\ forall i, (i < n - 1)%nat ->
                        100 * Z.of_nat (S i) < scrollHeight i - innerHeight))
  /\ (forall height,
         (forall i, scrollHeight i <= height) ->
         exists n,
           (1 <= n <= ticksFor height innerHeight)%nat
           /\ forall extra,
                autoScroll scrollHeight innerHeight (ticksFor height innerHeight + extra)
                = Some n)
  /\ ((forall i, 100 * Z.of_nat (S i) < scrollHeight i - innerHeight) ->
      forall fuel, autoScroll scrollHeight innerHeight fuel = None).
Proof.
  assert (Hfirst : forall fuel n,
             autoScroll scrollHeight innerHeight fuel = Some n
             <-> ((1 <= n <= fuel)%nat
                  /\ scrollHeight (n - 1)%nat - innerHeight <= 100 * Z.of_nat n
                  /\ forall i, (i < n - 1)%nat ->
                               100 * Z.of_nat (S i) < scrollHeight i - innerHeight)).
  { intros fuel n. unfold autoScroll.
    rewrite (autoScrollTicks_first fuel 0 n). cbn [Nat.add]. split.
    - intros (Hn & Hlast & Hbefore). split; [lia|]. split; [exact Hlast|].
      intros i Hi. apply Hbefore. lia.
    - intros (Hn & Hlast & Hbefore). split; [lia|]. split; [exact Hlast|].
      intros i Hi. apply Hbefore. lia. }
  split; [exact Hfirst|]. split.
  - intros height Hbound.
    assert (Hticks : (1 <= ticksFor height innerHeight)%nat) by (unfold ticksFor; lia).
    destruct (@autoScrollTicks_covered height (ticksFor height innerHeight) Hbound 0%nat Hticks)
      as [n Hn].
    { cbn [Nat.add]. unfold ticksFor.
      rewrite Z2Nat.id by lia.
      pose proof (Z.div_mod (height - innerHeight + 99) 100 ltac:(lia)) as Hdm.
      pose proof (Z.mod_pos_bound (height - innerHeight + 99) 100 ltac:(lia)) as Hm.
      lia. }
    exists n. change (autoScroll scrollHeight innerHeight (ticksFor height innerHeight) = Some n)
      in Hn.
    pose proof (proj1 (Hfirst _ _) Hn) as (Hle & Hlast & Hbefore).
    split; [exact Hle|]. intros extra. apply Hfirst.
    split; [lia|]. split; [exact Hlast|exact Hbefore].
  - intros Hgrow fuel.
    destruct (autoScroll scrollHeight innerHeight fuel) as [n|] eqn:Hrun; [|reflexivity].
    apply Hfirst in Hrun. destruct Hrun as (Hn & Hlast & _).
    specialize (Hgrow (n - 1)%nat). replace (S (n - 1)) with n in Hgrow by lia. lia.
Qed.

End AutoScroll.

Lemma autoScroll_resolves_at_the_first_covering_tick_witness :
  autoScroll (fun _ => 2000) 800 12 = Some 12%nat
  /\ autoScroll (fun i => 2000 + 150 * Z.of_nat i) 800 500 = None.
Proof.
  destruct (autoScroll_resolves_at_the_first_covering_tick (fun _ => 2000) 800)
    as (Hfirst & _ & _).
  destruct (autoScroll_resolves_at_the_first_covering_tick
              (fun i => 2000 + 150 * Z.of_nat i) 800) as (_ & _ & Hnever).
  split.
  - apply Hfirst. split; [lia|]. split; [cbn; lia|]. intros i Hi. lia.
  - apply Hnever. intros i. lia.
Defined.

(** *** The routes that only read *)

Section ReadingRoutes.

Variable env : Env.
Variable faults : Faults.

Ltac answered := do 2 eexists; split; [reflexivity|]; cbn; unfold storeUntouched; cbn; auto 10.

(** X22.  POST /api/alert, GET /health and [readJobs] send every value
    of the request as a parameter of a fixed statement, and they always
    answer, whatever the request and whichever statement is rejected:
    no exception leaves them.  None of them changes the relation, opens
    a transaction or launches a browser, and none hands a mail to the
    transport: POST /api/alert sends its one SELECT at most, which the
    store rejects.  GET /api/jobs is not among them: it pastes the text
    of [limit] into its statement. *)
Theorem reading_routes_answer_and_never_write (w : World) :
  (forall req, exists resp w',
         postAlert faults req w = (Returned resp, w')
         /\ storeUntouched w w'
         /\ mails w' = mails w
         /\ (ops w' = ops w \/ ops w' = (ops w ++ [OpSelect])%list))
  /\ (exists health w',
         getHealth faults w = (Returned health, w')
         /\ storeUntouched w w'
         /\ mails w' = mails w)
  /\ (forall filters, exists found w',
         readJobs faults filters w = (Returned found, w')
         /\ storeUntouched w w'
         /\ mails w' = mails w).
Proof.
  split; [|split].
  - intros req. run_query.
    destruct (ar_email req) as [email|]; [|answered].
    destruct (ar_role req) as [role|]; [|answered].
    destruct (String.eqb email "" || String.eqb role "")%bool; [answered|].
    cbn -[firstn skipn PostedSort.sort selectWhere Z.to_nat].
    destruct (selectFails faults); answered.
  - run_reader. cbn. destruct (countFails faults); answered.
  - intros filters. run_reader. cbn -[PostedSort.sort selectWhere].
    destruct (selectFails faults); answered.
Qed.

End ReadingRoutes.

(** *** The schema *)

Lemma distinctLinks_unique (rs : list JobRow) :
  distinctLinks rs = true <-> NoDup (map col_link rs).
Proof.
  induction rs as [|r rs IH]; cbn [distinctLinks map].
  - split; [constructor|reflexivity].
  - rewrite andb_true_iff, negb_true_iff, IH. split.
    + intros [Hfresh Hrest]. constructor; [|exact Hrest].
      intros Hin. apply hasLink_In in Hin. congruence.
    + intros Hnd. inversion Hnd as [|x l Hfresh Hrest]. subst. split; [|exact Hrest].
      destruct (hasLink (col_link r) rs) eqn:Hhas; [|reflexivity].
      apply hasLink_In in Hhas. contradiction.
Qed.

Lemma addIndex_keeps (names : list string) (name other : string) :
  In other names -> In other (addIndex names name).
Proof.
  intros Hin. unfold addIndex. destruct (existsb (String.eqb name) names); [exact Hin|].
  apply in_or_app. now left.
Qed.

Lemma addIndex_adds (names : list string) (name : string) : In name (addIndex names name).
Proof.
  unfold addIndex. destruct (existsb (String.eqb name) names) eqn:Hex.
  - apply existsb_exists in Hex. destruct Hex as (x & Hin & Heq).
    apply String.eqb_eq in Heq. now subst.
  - apply in_or_app. right. now left.
Qed.

Lemma addIndex_present (names : list string) (name : string) :
  In name names -> addIndex names name = names.
Proof.
  intros Hin. unfold addIndex.
  destruct (existsb (String.eqb name) names) eqn:Hex; [reflexivity|].
  exfalso. assert (Htrue : existsb (String.eqb name) names = true).
  { apply existsb_exists. exists name. split; [exact Hin|apply String.eqb_refl]. }
  congruence.
Qed.

Lemma addIndexes_keep (added : list string) :
  forall names other, In other names -> In other (fold_left addIndex added names).
Proof.
  induction added as [|a added IH]; intros names other Hin; cbn [fold_left]; [exact Hin|].
  apply IH, addIndex_keeps, Hin.
Qed.

Lemma addIndexes_add (added : list string) :
  forall names name, In name added -> In name (fold_left addIndex added names).
Proof.
  induction added as [|a added IH]; intros names name Hin; cbn [fold_left]; [destruct Hin|].
  destruct Hin as [->|Hin]; [apply addIndexes_keep, addIndex_adds|now apply IH].
Qed.

Lemma addIndexes_present (added : list string) :
  forall names, (forall name, In name added -> In name names) ->
                fold_left addIndex added names = names.
Proof.
  induction added as [|a added IH]; intros names Hall; cbn [fold_left]; [reflexivity|].
  rewrite addIndex_present by (apply Hall; now left).
  apply IH. intros name Hin. apply Hall. now right.
Qed.

Ltac run_schema :=
  unfold startServer, initializeDatabase, verifyDb, schemaBegin, schemaCommit, schemaRollback,
    schemaRelease, statement, poolQuery, sending, schemaLog, Schema.tryFinally,
    Schema.tryCatch, Schema.bind, Schema.ret, Schema.throw.

Ltac split_faults faults :=
  repeat match goal with
         | |- context [if faults ?op then _ else _] =>
             destruct (faults op) eqn:?;
             cbn -[fold_left addIndex settledUniques linkConstraintHolds distinctLinks String.eqb]
         end.

(** X23.  [initializeDatabase] on a client without open transaction.
    When it returns, it returns [true]: the relation exists, with the
    rows it had (none when it is new), it carries a unique constraint
    (the one on [link] when the relation is new or had none), the four
    indexes exist, no index was dropped, and the transaction is closed.
    When it throws, the committed catalog is what it was.  Once the
    connection is acquired the client is released as the last
    operation.  The server listens only over a settled schema, and the
    process exits with code 1 otherwise. *)
Theorem initializeDatabase_settles_the_schema (faults : SchemaFaults) (s : Server) :
  pending s = None ->
  let run := initializeDatabase faults s in
  match fst run with
  | Returned answer =>
      answer = true
      /\ pending (snd run) = None
      /\ tableThere (catalog (snd run)) = true
      /\ uniques (catalog (snd run)) = settledUniques (catalog s)
      /\ stored (catalog (snd run))
         = (if tableThere (catalog s) then stored (catalog s) else emptyDb)
      /\ (forall name, In name schemaIndexes \/ In name (indexNames (catalog s)) ->
                       In name (indexNames (catalog (snd run))))
      /\ (linkConstraintHolds (catalog s) -> linkConstraintHolds (catalog (snd run)))
      /\ schemaConsole (snd run) = (schemaConsole s ++ [LogInitialized])%list
  | Thrown _ => catalog (snd run) = catalog s
  end
  /\ (faults SConnect = false ->
      exists before, sent (snd run) = (before ++ [SRelease])%list)
  /\ match startServer faults s with
     | (Listening, s') =>
         tableThere (catalog s') = true /\ uniques (catalog s') = settledUniques (catalog s)
     | (Exited code, s') => code = 1 /\ catalog s' = catalog s
     end.
Proof.
  intros Hidle. destruct s as [c p ops log]. cbn in Hidle. subst p.
  destruct c as [there us names db].
  cbv zeta. run_schema.
  unfold createTable, selectConstraints, addLinkConstraint, createIndexes.
  cbn -[fold_left addIndex settledUniques linkConstraintHolds existsb distinctLinks].
  destruct there, us as [|u us];
    cbn -[fold_left addIndex settledUniques linkConstraintHolds distinctLinks String.eqb];
    split_faults faults;
    repeat match goal with
           | |- context [existsb ?f names] =>
               destruct (existsb f names) eqn:?;
               cbn -[fold_left addIndex settledUniques linkConstraintHolds distinctLinks String.eqb]
           | |- context [distinctLinks ?r] =>
               destruct (distinctLinks r) eqn:Hdistinct;
               cbn -[fold_left addIndex settledUniques linkConstraintHolds distinctLinks String.eqb]
           end;
    split_faults faults.
  all: try (split; [reflexivity
                   |split; [intros Hc; try discriminate Hc; eexists; reflexivity
                           |split; reflexivity]]).
  all: split; [|split; [intros _; eexists; reflexivity|split; reflexivity]].
  all: do 5 (split; [reflexivity|]); split; [|split; [|reflexivity]].
  all: try (intros name [Hin|Hin];
            [apply addIndexes_add; exact Hin|apply addIndexes_keep; exact Hin]).
  all: first [ exact (fun holds => holds)
             | intros _ _; unfold linksUnique; cbn [stored];
               first [ now apply distinctLinks_unique | constructor ] ].
Qed.

Lemma initializeDatabase_settles_the_schema_witness :
  pending (idleServer (legacyCatalog twoRows)) = None
  /\ uniques (catalog (snd (initializeDatabase noSchemaFaults
                              (idleServer (legacyCatalog twoRows)))))
     = [jobsLinkKey].
Proof.
  split; [reflexivity|].
  pose proof (@initializeDatabase_settles_the_schema noSchemaFaults
                (idleServer (legacyCatalog twoRows)) eq_refl) as [Hrun _].
  cbv zeta in Hrun.
  assert (Hfst : fst (initializeDatabase noSchemaFaults (idleServer (legacyCatalog twoRows)))
                 = Returned true) by (vm_compute; reflexivity).
  rewrite Hfst in Hrun. destruct Hrun as (_ & _ & _ & Huniques & _). exact Huniques.
Defined.

Lemma initializeDatabase_settled (faults : SchemaFaults) (s : Server) :
  pending s = None ->
  forall answer s',
    initializeDatabase faults s = (Returned answer, s') ->
    settledCatalog (catalog s') /\ pending s' = None.
Proof.
  intros Hidle answer s'. destruct s as [c p ops log]. cbn in Hidle. subst p.
  destruct c as [there us names db].
  run_schema.
  unfold createTable, selectConstraints, addLinkConstraint, createIndexes.
  cbn -[fold_left addIndex distinctLinks String.eqb].
  destruct there, us as [|u us];
    cbn -[fold_left addIndex distinctLinks String.eqb];
    split_faults faults;
    repeat match goal with
           | |- context [existsb ?f names] =>
               destruct (existsb f names) eqn:?;
               cbn -[fold_left addIndex distinctLinks String.eqb]
           | |- context [distinctLinks ?r] =>
               destruct (distinctLinks r) eqn:Hdistinct;
               cbn -[fold_left addIndex distinctLinks String.eqb]
           end;
    split_faults faults.
  all: intros Hrun; try discriminate Hrun.
  all: apply (f_equal snd) in Hrun; cbn [snd] in Hrun; subst s';
    cbn [catalog pending]; split; [|reflexivity].
  all: unfold settledCatalog; cbn [tableThere uniques indexNames].
  all: split; [reflexivity|split; [discriminate|]].
  all: intros name Hin; apply addIndexes_add; exact Hin.
Qed.

Lemma initializeDatabase_on_settled (faults : SchemaFaults) (s : Server) :
  pending s = None ->
  settledCatalog (catalog s) ->
  catalog (snd (initializeDatabase faults s)) = catalog s
  /\ ((forall op, faults op = false) ->
      fst (initializeDatabase faults s) = Returned true).
Proof.
  intros Hidle (Hthere & Huniques & Hindexes). destruct s as [c p ops log].
  cbn in Hidle. subst p. destruct c as [there us names db].
  cbn [catalog tableThere uniques indexNames] in *. subst there.
  destruct us as [|u us]; [congruence|]. clear Huniques.
  run_schema.
  unfold createTable, selectConstraints, addLinkConstraint, createIndexes.
  cbn -[fold_left addIndex distinctLinks String.eqb].
  split.
  - split_faults faults;
      rewrite ?(addIndexes_present schemaIndexes names Hindexes); reflexivity.
  - intros Hnone. rewrite !Hnone. cbn -[fold_left addIndex distinctLinks String.eqb].
    rewrite ?(addIndexes_present schemaIndexes names Hindexes). reflexivity.
Qed.

(** X24.  [initializeDatabase] is idempotent on the catalog: after a
    run that returned, the schema is settled (the relation, a unique
    constraint and the four indexes exist), and a later run on that
    state changes nothing of the committed catalog, whatever fails in
    it; it returns [true] again when nothing fails. *)
Theorem initializeDatabase_is_idempotent
        (faults later : SchemaFaults) (s s' : Server) (answer : bool) :
  pending s = None ->
  initializeDatabase faults s = (Returned answer, s') ->
  settledCatalog (catalog s')
  /\ catalog (snd (initializeDatabase later s')) = catalog s'
  /\ ((forall op, later op = false) ->
      fst (initializeDatabase later s') = Returned true).
Proof.
  intros Hidle Hrun.
  destruct (@initializeDatabase_settled faults s Hidle answer s' Hrun) as [Hsettled Hclosed].
  split; [exact Hsettled|].
  apply initializeDatabase_on_settled; assumption.
Qed.

Lemma initializeDatabase_is_idempotent_witness :
  exists s',
    initializeDatabase noSchemaFaults (idleServer absentCatalog) = (Returned true, s')
    /\ catalog (snd (initializeDatabase (fun op => match op with SCommit => true | _ => false end)
                                        s'))
       = catalog s'.
Proof.
  eexists. split; [vm_compute; reflexivity|].
  refine (proj1 (proj2 (@initializeDatabase_is_idempotent noSchemaFaults
                          (fun op => match op with SCommit => true | _ => false end)
                          (idleServer absentCatalog) _ true eq_refl _))).
  vm_compute. reflexivity.
Defined.

(** X25.  GET /api/verify-db always answers and changes nothing.  An
    answer 200 says that the relation exists: it carries the number of
    stored rows and the unique constraints of the relation, and
    [hasUniqueConstraint] tells whether there is one.  In every other
    case, the missing relation included (the count fails), the answer
    is 500: [tableExists] is never reported as false. *)
Theorem verifyDb_reports_the_schema (faults : SchemaFaults) (s : Server) :
  let run := verifyDb faults s in
  catalog (snd run) = catalog s
  /\ pending (snd run) = pending s
  /\ exists answer,
       fst run = Returned answer
       /\ match answer with
          | Verified tableExists jobCount hasUniqueConstraint constraints =>
              tableExists = true
              /\ tableThere (catalog s) = true
              /\ jobCount = Z.of_nat (List.length (rows (stored (catalog s))))
              /\ constraints = uniques (catalog s)
              /\ (hasUniqueConstraint = true <-> uniques (catalog s) <> [])
              /\ forall op, In op verifyOps -> faults op = false
          | VerifyFailed _ =>
              tableThere (catalog s) = false
              \/ exists op, In op verifyOps /\ faults op = true
          end.
Proof.
  destruct s as [c p ops log]. destruct c as [there us names db].
  cbv zeta. run_schema. unfold countJobs, selectConstraints, verifyOps.
  destruct there; cbn -[String.eqb]; split_faults faults.
  all: split; [reflexivity|split; [reflexivity|]]; eexists; split; [reflexivity|].
  all: cbn.
  all: try match goal with
           | H : _ ?op = true |- _ \/ _ =>
               right; exists op; split; [auto 6|exact H]
           end.
  all: try (now left).
  do 4 (split; [reflexivity|]). split.
  - destruct us; cbn; split; intros H; try discriminate; try congruence; reflexivity.
  - intros op [<-|[<-|[<-|[<-|[]]]]]; assumption.
Qed.
